(** * Stash: scale orchestration, restore, Restic watcher and sidecar RBAC

    A shallow embedding of

    - [pkg/scale] ([ScaleDownWorkload], [ScaleUpWorkload],
      [waitUntilScaledDown], [isDaemonOrStatefulSetPod]),
    - [pkg/util/kubernetes.go] ([HasOldReplicaAnnotation]),
    - [pkg/controller/restics.go] ([initResticWatcher], [EnsureSidecar]),
    - [pkg/rbac/sidecar.go] ([getSidecarRoleBindingName],
      [EnsureSidecarRoleBinding], [ensureSidecarRoleBindingDeleted]),

    over an explicit model of the cluster the Kubernetes client talks to.
    Go maps are [gmap]s, Go strings are byte strings ([string]), [int32]
    values are [Z] with the conversion written out, and every client call
    threads the cluster state and may fail. *)

From stdpp Require Import base gmap strings list fin_maps pretty.
From Stdlib Require Import ZArith Lia Ascii.

Local Open Scope string_scope.
Local Open Scope Z_scope.

(** ** Strings as Go has them (byte sequences) *)

Module GoString.

(** [len(s)] *)
Definition len (s : string) : nat := String.length s.

(** [s[:k]] for [k <= len(s)] *)
Fixpoint slice_to (k : nat) (s : string) : string :=
  match k, s with
  | S k', String a s' => String a (slice_to k' s')
  | _, _ => EmptyString
  end.

(** [s[k:]] for [k <= len(s)] *)
Fixpoint slice_from (k : nat) (s : string) : string :=
  match k, s with
  | S k', String _ s' => slice_from k' s'
  | _, _ => s
  end.

(** [unicode.ToLower] on one byte of an ASCII string: ['A'..'Z'] move to
    ['a'..'z'], everything else stays. *)
Definition lower_byte (a : ascii) : ascii :=
  let n := Ascii.N_of_ascii a in
  if ((65 <=? n)%N && (n <=? 90)%N)%bool
  then Ascii.ascii_of_N (n + 32)%N else a.

(** [strings.ToLower], on ASCII strings (the kind names are ASCII). *)
Fixpoint ToLower (s : string) : string :=
  match s with
  | EmptyString => EmptyString
  | String a s' => String (lower_byte a) (ToLower s')
  end.

(** [strings.TrimLeft(s, string(c))] *)
Fixpoint TrimLeft (c : ascii) (s : string) : string :=
  match s with
  | EmptyString => EmptyString
  | String a s' => if Ascii.eqb a c then TrimLeft c s' else s
  end.

(** [strings.TrimRight(s, string(c))] *)
Fixpoint TrimRight (c : ascii) (s : string) : string :=
  match s with
  | EmptyString => EmptyString
  | String a s' =>
      match TrimRight c s' with
      | EmptyString => if Ascii.eqb a c then EmptyString else String a EmptyString
      | t => String a t
      end
  end.

(** [strings.Trim(s, string(c))]: the cutset is the single byte [c]. *)
Definition Trim (c : ascii) (s : string) : string :=
  TrimRight c (TrimLeft c s).

End GoString.

(** ** Constants of [stash.appscode.dev/apimachinery/apis] *)

Module apis.

(** Modelled from the spec: the constants of the [apis] package are not
    under src/; the kinds are the five workload kinds of the spec's
    glossary under their Kubernetes names. *)
Definition KindDeployment : string := "Deployment".
Definition KindReplicaSet : string := "ReplicaSet".
Definition KindReplicationController : string := "ReplicationController".
Definition KindStatefulSet : string := "StatefulSet".
Definition KindDaemonSet : string := "DaemonSet".

(** Modelled from the spec: the annotation key that carries the saved
    replica count ([apis.AnnotationOldReplica]), under the name the spec
    gives it. *)
Definition AnnotationOldReplica : string := "previous-replica-count".

(** Modelled from the spec: the name of the cluster role the sidecar's
    role binding refers to ([apis.StashSidecarClusterRole]). *)
Definition StashSidecarClusterRole : string := "stash-sidecar".

(** The five supported workload kinds. *)
Definition SupportedKinds : list string :=
  [KindDeployment; KindReplicaSet; KindReplicationController;
   KindStatefulSet; KindDaemonSet].

End apis.

(** ** [kmodules.xyz/client-go/meta]: names *)

Module meta_util.

Import GoString.

(** [validation.DNS1123LabelMaxLength] *)
Definition DNS1123LabelMaxLength : nat := 63.

(** [ValidNameWithPrefixNSuffix(prefix, name, suffix, customLength...)]:
    the three parts joined with ["-"]; a result longer than the maximum
    (the first custom length, or that of a DNS label) keeps its first
    [(max+1)/2] and its last [max/2] bytes; then leading and trailing
    ["-"] are trimmed. *)
Definition ValidNameWithPrefixNSuffix (prefix name suffix : string)
    (customLength : list nat) : string :=
  let maxLength :=
    match customLength with
    | [] => DNS1123LabelMaxLength
    | custom :: _ => custom
    end in
  let out := prefix +:+ "-" +:+ name +:+ "-" +:+ suffix in
  let n := len out in
  if (n <=? maxLength)%nat then Trim "-" out
  else Trim "-" (slice_to ((maxLength + 1) / 2)%nat out
                  +:+ slice_from (n - maxLength / 2)%nat out).

End meta_util.

(** ** [pkg/rbac/sidecar.go]: the binding's name *)

Definition getSidecarRoleBindingName (name kind : string) : string :=
  meta_util.ValidNameWithPrefixNSuffix
    apis.StashSidecarClusterRole (GoString.ToLower kind) name [].


(** ** [strconv] *)

Module strconv.

(** [strconv.Itoa]: decimal rendering, ["-"] for negatives. *)
Definition Itoa (n : Z) : string := pretty n.

Definition digit (a : ascii) : option Z :=
  let n := Ascii.N_of_ascii a in
  if ((48 <=? n)%N && (n <=? 57)%N)%bool then Some (Z.of_N n - 48) else None.

Fixpoint digits (acc : Z) (s : string) : option Z :=
  match s with
  | EmptyString => Some acc
  | String a s' =>
      match digit a with
      | Some d => digits (acc * 10 + d) s'
      | None => None
      end
  end.

(** [strconv.Atoi] on a 64-bit platform: an optional sign, then at
    least one decimal digit and nothing else; [None] is the
    [*NumError] (syntax, or out of the range of [int]). *)
Definition Atoi (s : string) : option Z :=
  match s with
  | EmptyString => None
  | String a s' =>
      let neg := Ascii.eqb a "-" in
      let body := if (neg || Ascii.eqb a "+")%bool then s' else s in
      match body with
      | EmptyString => None
      | _ =>
          match digits 0 body with
          | Some n =>
              let v := if neg then - n else n in
              if ((- 2 ^ 63 <=? v) && (v <? 2 ^ 63))%bool then Some v else None
          | None => None
          end
      end
  end.

End strconv.

(** [int32(x)] for an [int] [x]: wrap-around into [-2^31 .. 2^31-1]. *)
Definition int32 (x : Z) : Z := (x + 2 ^ 31) mod 2 ^ 32 - 2 ^ 31.

Definition ZeroReplica : Z := int32 0.
Definition OneReplica : Z := int32 1.

(** ** Errors and results *)

Inductive error : Type :=
  | StatusNotFound                 (** an API status error, reason NotFound *)
  | StatusError (reason : string)  (** any other failure of an API request *)
  | ErrNotFound                    (** [kutil.ErrNotFound], a plain error *)
  | NumError (input : string)      (** [strconv.Atoi] rejected [input] *)
  | ErrWaitTimeout                 (** [wait.ErrWaitTimeout] *)
  | Errorf (msg : string).         (** [fmt.Errorf(msg)] *)

Module kerr.
(** [kerr.IsNotFound] *)
Definition IsNotFound (e : error) : bool :=
  match e with StatusNotFound => true | _ => false end.
End kerr.

(** [err.Error()] *)
Definition Error (e : error) : string :=
  match e with
  | StatusNotFound => "not found"
  | StatusError reason => reason
  | ErrNotFound => "not found"
  | NumError input => "strconv.Atoi: parsing " +:+ input
  | ErrWaitTimeout => "timed out waiting for the condition"
  | Errorf msg => msg
  end.

(** What a Go function of result type [(A, error)] hands back. *)
Inductive result (A : Type) : Type :=
  | Ok (a : A)
  | Err (e : error).
Arguments Ok {A} a.
Arguments Err {A} e.

(** ** Objects of the cluster *)

(** namespace and name *)
Abbreviation ObjectKey := (string * string)%type.

Module metav1.
Record OwnerReference := {
  Kind : string;
  Name : string;
  UID : string;
}.
End metav1.
Abbreviation OwnerReference := metav1.OwnerReference.

(** What this code reads and writes of a Deployment, a
    ReplicationController or a ReplicaSet. [Replicas] is [*Spec.Replicas]:
    the API server defaults the field, so an object it serves carries a
    count. A nil and an empty annotation map are the same [gmap]. *)
Record Scalable := {
  Labels : gmap string string;
  Annotations : gmap string string;
  OwnerReferences : list OwnerReference;
  Replicas : Z;
}.

Definition setAnnotations (f : gmap string string → gmap string string)
    (w : Scalable) : Scalable :=
  {| Labels := Labels w; Annotations := f (Annotations w);
     OwnerReferences := OwnerReferences w; Replicas := Replicas w |}.

Definition setReplicas (n : Z) (w : Scalable) : Scalable :=
  {| Labels := Labels w; Annotations := Annotations w;
     OwnerReferences := OwnerReferences w; Replicas := n |}.

Record Pod := {
  PodLabels : gmap string string;
  PodOwnerReferences : list OwnerReference;
}.

Record RoleRef := {
  RoleKind : string;
  RoleName : string;
}.

Record Subject := {
  SubjectKind : string;
  SubjectName : string;
  SubjectNamespace : string;
}.

Record RoleBinding := {
  BindingLabels : gmap string string;
  BindingOwners : list OwnerReference;
  BindingRoleRef : RoleRef;
  Subjects : list Subject;
}.

(** The three kinds the scaler patches. *)
Inductive Resource := Deployments | ReplicationControllers | ReplicaSets.

#[global] Instance Resource_eq_dec : EqDecision Resource.
Proof. solve_decision. Defined.

Record Cluster := {
  deployments : gmap ObjectKey Scalable;
  replicationControllers : gmap ObjectKey Scalable;
  replicaSets : gmap ObjectKey Scalable;
  pods : gmap ObjectKey Pod;
  roleBindings : gmap ObjectKey RoleBinding;
}.

Definition store (r : Resource) (cl : Cluster) : gmap ObjectKey Scalable :=
  match r with
  | Deployments => deployments cl
  | ReplicationControllers => replicationControllers cl
  | ReplicaSets => replicaSets cl
  end.

Definition setStore (r : Resource) (m : gmap ObjectKey Scalable)
    (cl : Cluster) : Cluster :=
  match r with
  | Deployments =>
      {| deployments := m; replicationControllers := replicationControllers cl;
         replicaSets := replicaSets cl; pods := pods cl;
         roleBindings := roleBindings cl |}
  | ReplicationControllers =>
      {| deployments := deployments cl; replicationControllers := m;
         replicaSets := replicaSets cl; pods := pods cl;
         roleBindings := roleBindings cl |}
  | ReplicaSets =>
      {| deployments := deployments cl;
         replicationControllers := replicationControllers cl;
         replicaSets := m; pods := pods cl; roleBindings := roleBindings cl |}
  end.

Definition setPods (p : gmap ObjectKey Pod) (cl : Cluster) : Cluster :=
  {| deployments := deployments cl;
     replicationControllers := replicationControllers cl;
     replicaSets := replicaSets cl; pods := p; roleBindings := roleBindings cl |}.

Definition setRoleBindings (b : gmap ObjectKey RoleBinding) (cl : Cluster) : Cluster :=
  {| deployments := deployments cl;
     replicationControllers := replicationControllers cl;
     replicaSets := replicaSets cl; pods := pods cl; roleBindings := b |}.

(** ** The client and the state it acts on *)

(** A label selector, as the predicate on label maps the API server
    parses the selector string to. *)
Abbreviation LabelSelector := (gmap string string → bool).

(** [kubernetes.Interface]: a connection to a cluster. What the code
    cannot control is part of it: [faults i] is the error the [i]-th
    request sent over the connection meets (if any), [drain] is what the
    platform does to the pods while the caller sleeps one poll interval,
    and [pollTicks] is the number of intervals that fit in the poll's
    timeout. *)
Record Client := {
  faults : nat → option error;
  drain : gmap ObjectKey Pod → gmap ObjectKey Pod;
  pollTicks : nat;
}.

Record State := {
  cluster : Cluster;
  requests : nat;        (** requests sent so far *)
  logs : list string;    (** lines written with [log.Infof] *)
}.

Definition setCluster (cl : Cluster) (st : State) : State :=
  {| cluster := cl; requests := requests st; logs := logs st |}.

(** A Go function that talks to the cluster: it changes the state and
    returns a value or an error. The state survives an error. *)
Definition M (A : Type) : Type := State → State * result A.

Definition ret {A} (a : A) : M A := fun st => (st, Ok a).
Definition fail {A} (e : error) : M A := fun st => (st, Err e).

(** [x, err := m; if err != nil { return err }; k x] *)
Definition bind {A B} (m : M A) (k : A → M B) : M B := fun st =>
  match m st with
  | (st', Ok a) => k a st'
  | (st', Err e) => (st', Err e)
  end.

(** [x, err := m] with the error kept for inspection. *)
Definition try {A} (m : M A) : M (result A) := fun st =>
  let (st', r) := m st in (st', Ok r).

Notation "x <- m ;; k" := (bind m (fun x => k))
  (at level 100, m at next level, right associativity).
Notation "m ;;; k" := (bind m (fun _ => k))
  (at level 100, right associativity).

(** [for _, x := range items { body; if err != nil { return err } }] *)
Fixpoint forEach {A} (items : list A) (body : A → M unit) : M unit :=
  match items with
  | [] => ret tt
  | x :: rest => body x ;;; forEach rest body
  end.

(** One request over the connection: it is counted, fails with the
    scripted fault if there is one, and otherwise is served by [serve]. *)
Definition request {A} (kc : Client) (serve : Cluster → Cluster * result A) : M A :=
  fun st =>
    let st' := {| cluster := cluster st; requests := S (requests st);
                  logs := logs st |} in
    match faults kc (requests st) with
    | Some e => (st', Err e)
    | None => let (cl, r) := serve (cluster st) in (setCluster cl st', r)
    end.

(** [log.Infof(line)] *)
Definition Infof (line : string) : M unit := fun st =>
  ({| cluster := cluster st; requests := requests st;
      logs := logs st ++ [line] |}, Ok tt).

(** The caller sleeps one poll interval; the platform moves on. *)
Definition sleep (kc : Client) : M unit := fun st =>
  (setCluster (setPods (drain kc (pods (cluster st))) (cluster st)) st, Ok tt).

#[global] Instance error_eq_dec : EqDecision error.
Proof. solve_decision. Defined.
#[global] Instance OwnerReference_eq_dec : EqDecision OwnerReference.
Proof. solve_decision. Defined.
#[global] Instance RoleRef_eq_dec : EqDecision RoleRef.
Proof. solve_decision. Defined.
#[global] Instance Subject_eq_dec : EqDecision Subject.
Proof. solve_decision. Defined.
#[global] Instance RoleBinding_eq_dec : EqDecision RoleBinding.
Proof. solve_decision. Defined.

(** ** The typed clients: list, get, patch, delete *)

(** An object as a list or a get returns it: its key and its content. *)
Abbreviation Item V := (ObjectKey * V)%type.

(** [Xs(ns)] selects one namespace; the empty namespace selects all. *)
Definition inNamespace (ns : string) (k : ObjectKey) : Prop :=
  ns = "" ∨ k.1 = ns.

#[global] Instance inNamespace_dec ns k : Decision (inNamespace ns k).
Proof. unfold inNamespace. apply _. Defined.

Definition selected {V} (labels : V → gmap string string)
    (ns : string) (sel : LabelSelector) (it : Item V) : Prop :=
  inNamespace ns it.1 ∧ sel (labels it.2) = true.

#[global] Instance selected_dec {V} (labels : V → gmap string string) ns sel it :
  Decision (selected labels ns sel it).
Proof. unfold selected. apply _. Defined.

(** [Xs(ns).List(ctx, ListOptions{LabelSelector: sel})] for a scalable
    kind. *)
Definition List (kc : Client) (r : Resource) (ns : string) (sel : LabelSelector)
    : M (list (Item Scalable)) :=
  request kc (fun cl =>
    (cl, Ok (filter (selected Labels ns sel) (map_to_list (store r cl))))).

(** [Xs(ns).Get(ctx, name, GetOptions{})] *)
Definition Get (kc : Client) (r : Resource) (ns name : string) : M (Item Scalable) :=
  request kc (fun cl =>
    match store r cl !! (ns, name) with
    | Some obj => (cl, Ok ((ns, name), obj))
    | None => (cl, Err StatusNotFound)
    end).

(** The part of a two-way merge patch this code can produce: per
    annotation key a new value or a deletion, and a new replica count. *)
Record Patch := {
  patchAnnotations : gmap string (option string);
  patchReplicas : option Z;
}.

#[global] Instance Patch_eq_dec : EqDecision Patch.
Proof. solve_decision. Defined.

Definition diffAnnotation (c m : option string) : option (option string) :=
  match c, m with
  | _, Some v => if decide (c = Some v) then None else Some (Some v)
  | Some _, None => Some None
  | None, None => None
  end.

(** [strategicpatch.CreateTwoWayMergePatch(cur, mod)] *)
Definition CreateTwoWayMergePatch (cur modified : Scalable) : Patch :=
  {| patchAnnotations :=
       merge diffAnnotation (Annotations cur) (Annotations modified);
     patchReplicas :=
       if decide (Replicas cur = Replicas modified) then None
       else Some (Replicas modified) |}.

Definition emptyPatch : Patch :=
  {| patchAnnotations := ∅; patchReplicas := None |}.

Definition applyAnnotation (p : option (option string)) (v : option string)
    : option string :=
  match p with
  | Some (Some x) => Some x
  | Some None => None
  | None => v
  end.

(** The server applying a patch to the object it stores. *)
Definition applyPatch (p : Patch) (obj : Scalable) : Scalable :=
  setReplicas (default (Replicas obj) (patchReplicas p))
    (setAnnotations (merge applyAnnotation (patchAnnotations p)) obj).

(** [apps_util.PatchDeployment], [core_util.PatchRC] and
    [apps_util.PatchReplicaSet]: [transform] runs on a copy of [cur], the
    difference to [cur] is the patch; an empty patch sends nothing. *)
Definition PatchObject (kc : Client) (r : Resource) (cur : Item Scalable)
    (transform : Scalable → Scalable) : M unit :=
  let patch := CreateTwoWayMergePatch cur.2 (transform cur.2) in
  if decide (patch = emptyPatch) then ret tt
  else request kc (fun cl =>
    match store r cl !! cur.1 with
    | Some obj => (setStore r (<[cur.1 := applyPatch patch obj]> (store r cl)) cl, Ok tt)
    | None => (cl, Err StatusNotFound)
    end).

(** [CoreV1().Pods(ns).List(ctx, ListOptions{LabelSelector: sel})] *)
Definition ListPods (kc : Client) (ns : string) (sel : LabelSelector)
    : M (list (Item Pod)) :=
  request kc (fun cl =>
    (cl, Ok (filter (selected PodLabels ns sel) (map_to_list (pods cl))))).

(** [CoreV1().Pods(ns).Delete(ctx, name, opts)] *)
Definition DeletePod (kc : Client) (ns name : string) : M unit :=
  request kc (fun cl =>
    match pods cl !! (ns, name) with
    | Some _ => (setPods (delete (ns, name) (pods cl)) cl, Ok tt)
    | None => (cl, Err StatusNotFound)
    end).

(** [RbacV1().RoleBindings(ns).Delete(ctx, name, DeleteOptions{})] *)
Definition DeleteRoleBinding (kc : Client) (ns name : string) : M unit :=
  request kc (fun cl =>
    match roleBindings cl !! (ns, name) with
    | Some _ => (setRoleBindings (delete (ns, name) (roleBindings cl)) cl, Ok tt)
    | None => (cl, Err StatusNotFound)
    end).

(** [RbacV1().RoleBindings(ns).Get(ctx, name, GetOptions{})] *)
Definition GetRoleBinding (kc : Client) (ns name : string) : M RoleBinding :=
  request kc (fun cl =>
    match roleBindings cl !! (ns, name) with
    | Some b => (cl, Ok b)
    | None => (cl, Err StatusNotFound)
    end).

(** [RbacV1().RoleBindings(ns).Create(ctx, obj, CreateOptions{})] *)
Definition CreateRoleBinding (kc : Client) (ns name : string) (b : RoleBinding)
    : M unit :=
  request kc (fun cl =>
    match roleBindings cl !! (ns, name) with
    | Some _ => (cl, Err (StatusError "AlreadyExists"))
    | None => (setRoleBindings (<[(ns, name) := b]> (roleBindings cl)) cl, Ok tt)
    end).

(** [rbac_util.PatchRoleBinding]: the patch carries [cur] over to
    [transform cur]; nothing is sent when they agree. *)
Definition PatchRoleBinding (kc : Client) (ns name : string) (cur : RoleBinding)
    (transform : RoleBinding → RoleBinding) : M unit :=
  let modified := transform cur in
  if decide (modified = cur) then ret tt
  else request kc (fun cl =>
    match roleBindings cl !! (ns, name) with
    | Some _ =>
        (setRoleBindings (<[(ns, name) := modified]> (roleBindings cl)) cl, Ok tt)
    | None => (cl, Err StatusNotFound)
    end).

(** [rbac_util.CreateOrPatchRoleBinding(ctx, kc, meta, transform, opts)] *)
Definition CreateOrPatchRoleBinding (kc : Client) (ns name : string)
    (labels : gmap string string) (transform : RoleBinding → RoleBinding) : M unit :=
  cur <- try (GetRoleBinding kc ns name) ;;
  match cur with
  | Err e =>
      if kerr.IsNotFound e then
        CreateRoleBinding kc ns name
          (transform {| BindingLabels := labels; BindingOwners := [];
                        BindingRoleRef := {| RoleKind := ""; RoleName := "" |};
                        Subjects := [] |})
      else fail e
  | Ok b => PatchRoleBinding kc ns name b transform
  end.

(** ** Helpers of [kmodules.xyz/client-go] and [k8s.io/apimachinery] *)

Module api.
(** [api.LocalTypedReference] *)
Record LocalTypedReference := {
  Kind : string;
  Name : string;
}.
End api.

Module apps_util.
(** [apps_util.IsOwnedByDeployment]: some owner reference is a
    Deployment. *)
Definition IsOwnedByDeployment (refs : list OwnerReference) : bool :=
  existsb (fun ref => bool_decide (metav1.Kind ref = "Deployment")) refs.
End apps_util.

Module meta.

(** [meta.HasKey(m, key)] *)
Definition HasKey (m : gmap string string) (key : string) : bool :=
  bool_decide (is_Some (m !! key)).

(** [meta_util.GetIntValue(m, key)] *)
Definition GetIntValue (m : gmap string string) (key : string) : result Z :=
  match m !! key with
  | None => Err ErrNotFound
  | Some v =>
      match strconv.Atoi v with
      | Some n => Ok n
      | None => Err (NumError v)
      end
  end.

End meta.

Module wait.

(** [wait.PollImmediate(interval, timeout, condition)]: the condition
    is tried at once and then after every interval until it holds,
    fails, or the timeout has passed. [ticks] intervals fit in the
    timeout. *)
Fixpoint PollImmediate (kc : Client) (ticks : nat) (condition : M bool) : M unit :=
  done <- condition ;;
  if done : bool then ret tt
  else match ticks with
       | O => fail ErrWaitTimeout
       | S ticks' => sleep kc ;;; PollImmediate kc ticks' condition
       end.

End wait.

(** [lift r]: a pure [(value, error)] pair used inside [M]. *)
Definition lift {A} (r : result A) : M A := fun st => (st, r).

(** ** [pkg/scale] *)

Module backup.
(** [backup.Options], the fields [ScaleUpWorkload] reads. *)
Record Options := {
  Workload : api.LocalTypedReference;
  Namespace : string;
}.
End backup.

Module scale.

Record Options := {
  Workload : api.LocalTypedReference;
  Namespace : string;
  Selector : LabelSelector;
}.

Record Controller := {
  k8sClient : Client;
  opt : Options;
}.

Definition isDaemonOrStatefulSetPod (ownerRefs : list OwnerReference) : bool :=
  existsb (fun ref =>
    bool_decide (metav1.Kind ref = apis.KindStatefulSet)
    || bool_decide (metav1.Kind ref = apis.KindDaemonSet)) ownerRefs.

(** The condition [waitUntilScaledDown] polls. *)
Definition scaledDown (c : Controller) : M bool :=
  podList <- try (ListPods (k8sClient c) (Namespace (opt c)) (Selector (opt c))) ;;
  match podList with
  | Err _ => ret false
  | Ok items =>
      ret (forallb (fun pod : Item Pod =>
                      isDaemonOrStatefulSetPod (PodOwnerReferences pod.2)) items)
  end.

Definition waitUntilScaledDown (c : Controller) : M unit :=
  wait.PollImmediate (k8sClient c) (pollTicks (k8sClient c)) (scaledDown c).

Definition ScaleDownWorkload (c : Controller) : M unit :=
  let kc := k8sClient c in
  let ns := Namespace (opt c) in
  let sel := Selector (opt c) in
  (* scale down deployment to 0 replica *)
  dpList <- try (List kc Deployments ns sel) ;;
  match dpList with
  | Ok items =>
      forEach items (fun dp =>
        PatchObject kc Deployments dp (fun obj =>
          setReplicas ZeroReplica
            (setAnnotations
               <[apis.AnnotationOldReplica := strconv.Itoa (Replicas dp.2)]> obj)))
  | Err _ => ret tt
  end ;;;
  (* scale down replication controller to 0 replica *)
  rcList <- try (List kc ReplicationControllers ns sel) ;;
  match rcList with
  | Ok items =>
      forEach items (fun rc =>
        PatchObject kc ReplicationControllers rc (fun obj =>
          setReplicas ZeroReplica
            (setAnnotations
               <[apis.AnnotationOldReplica := strconv.Itoa (Replicas rc.2)]> obj)))
  | Err _ => ret tt
  end ;;;
  (* scale down replicaset to 0 replica *)
  rsList <- try (List kc ReplicaSets ns sel) ;;
  match rsList with
  | Ok items =>
      forEach items (fun rs =>
        if negb (apps_util.IsOwnedByDeployment (OwnerReferences rs.2)) then
          PatchObject kc ReplicaSets rs (fun obj =>
            setReplicas ZeroReplica
              (setAnnotations
                 <[apis.AnnotationOldReplica := strconv.Itoa (Replicas rs.2)]> obj))
        else ret tt)
  | Err _ => ret tt
  end ;;;
  (* wait until workloads are scaled down *)
  waited <- try (waitUntilScaledDown c) ;;
  match waited with
  | Err e => Infof (Error e)
  | Ok _ => ret tt
  end ;;;
  (* scale up deployment to 1 replica *)
  dpList <- try (List kc Deployments ns sel) ;;
  match dpList with
  | Ok items =>
      if (0 <? length items)%nat then
        forEach items (fun dp =>
          PatchObject kc Deployments dp (fun obj => setReplicas OneReplica obj))
      else ret tt
  | Err _ => ret tt
  end ;;;
  (* scale up replication controller to 1 replica *)
  rcList <- try (List kc ReplicationControllers ns sel) ;;
  match rcList with
  | Ok items =>
      if (0 <? length items)%nat then
        forEach items (fun rc =>
          PatchObject kc ReplicationControllers rc (fun obj =>
            setReplicas OneReplica obj))
      else ret tt
  | Err _ => ret tt
  end ;;;
  (* scale up replicaset to 1 replica *)
  rsList <- try (List kc ReplicaSets ns sel) ;;
  match rsList with
  | Ok items =>
      if (0 <? length items)%nat then
        forEach items (fun rs =>
          if negb (apps_util.IsOwnedByDeployment (OwnerReferences rs.2)) then
            PatchObject kc ReplicaSets rs (fun obj => setReplicas OneReplica obj)
          else ret tt)
      else ret tt
  | Err _ => ret tt
  end ;;;
  (* delete all pods of daemonset and statefulset so that they restart
     with init container *)
  podList <- try (ListPods kc ns sel) ;;
  match podList with
  | Ok items =>
      if (0 <? length items)%nat then
        forEach items (fun pod =>
          if isDaemonOrStatefulSetPod (PodOwnerReferences pod.2) then
            deleted <- try (DeletePod kc ns pod.1.2) ;;
            match deleted with
            | Err e =>
                Infof ("Error in deleting pod " +:+ pod.1.2
                       +:+ ". Reason: " +:+ Error e)
            | Ok _ => ret tt
            end
          else ret tt)
      else ret tt
  | Err _ => ret tt
  end ;;;
  ret tt.

(** One restoring arm of [ScaleUpWorkload]; the three arms differ in
    the typed client only. *)
Definition restore (kc : Client) (r : Resource) (opt : backup.Options) : M unit :=
  obj <- Get kc r (backup.Namespace opt) (api.Name (backup.Workload opt)) ;;
  replica <- lift (meta.GetIntValue (Annotations obj.2) apis.AnnotationOldReplica) ;;
  PatchObject kc r obj (fun w =>
    setAnnotations (delete apis.AnnotationOldReplica)
      (setReplicas (int32 replica) w)).

Definition ScaleUpWorkload (k8sClient : Client) (opt : backup.Options) : M unit :=
  let kind := api.Kind (backup.Workload opt) in
  if decide (kind = apis.KindDeployment) then
    restore k8sClient Deployments opt
  else if decide (kind = apis.KindReplicationController) then
    restore k8sClient ReplicationControllers opt
  else if decide (kind = apis.KindReplicaSet) then
    restore k8sClient ReplicaSets opt
  else if decide (kind = apis.KindStatefulSet) then
    (* do nothing. we didn't scale down. *)
    ret tt
  else if decide (kind = apis.KindDaemonSet) then
    (* do nothing. *)
    ret tt
  else fail (Errorf "Unknown workload type").

End scale.

(** ** [pkg/util/kubernetes.go] *)

(** What a call that may end the process hands back: its value, or the
    error [log.Fatalln] printed before exiting. *)
Inductive outcome (A : Type) : Type :=
  | Returns (a : A)
  | Exits (e : error).
Arguments Returns {A} a.
Arguments Exits {A} e.

Module util.

(** [obj, err := Get(...); if err != nil { log.Fatalln(err) };
    workloadAnnotation = obj.Annotations] followed by the final
    [meta.HasKey]. *)
Definition annotationOf (kc : Client) (r : Resource) (ns name : string)
    : State → State * outcome bool := fun st =>
  match Get kc r ns name st with
  | (st', Ok obj) =>
      (st', Returns (meta.HasKey (Annotations obj.2) apis.AnnotationOldReplica))
  | (st', Err e) => (st', Exits e)
  end.

Definition HasOldReplicaAnnotation (k8sClient : Client) (namespace : string)
    (workload : api.LocalTypedReference) : State → State * outcome bool :=
  fun st =>
  let kind := api.Kind workload in
  if decide (kind = apis.KindDeployment) then
    annotationOf k8sClient Deployments namespace (api.Name workload) st
  else if decide (kind = apis.KindReplicationController) then
    annotationOf k8sClient ReplicationControllers namespace (api.Name workload) st
  else if decide (kind = apis.KindReplicaSet) then
    annotationOf k8sClient ReplicaSets namespace (api.Name workload) st
  else if decide (kind = apis.KindStatefulSet) then
    (* do nothing. we didn't scale down. *)
    (st, Returns (meta.HasKey ∅ apis.AnnotationOldReplica))
  else if decide (kind = apis.KindDaemonSet) then
    (* do nothing. *)
    (st, Returns (meta.HasKey ∅ apis.AnnotationOldReplica))
  else (st, Returns false).

End util.

(** ** [pkg/rbac/sidecar.go] *)

Module wapi.
(** [wapi.Workload], the fields the RBAC code reads. *)
Record Workload := {
  Kind : string;
  Namespace : string;
  Name : string;
}.
End wapi.

Module core_util.
(** [core_util.EnsureOwnerReference]: the owner replaces the reference
    with its UID, or is appended. *)
Fixpoint EnsureOwnerReference (refs : list OwnerReference) (owner : OwnerReference)
    : list OwnerReference :=
  match refs with
  | [] => [owner]
  | ref :: rest =>
      if decide (metav1.UID ref = metav1.UID owner) then owner :: rest
      else ref :: EnsureOwnerReference rest owner
  end.
End core_util.

Module rbac.

Definition EnsureSidecarRoleBinding (kc : Client) (owner : OwnerReference)
    (namespace sa : string) (labels : gmap string string) : M unit :=
  CreateOrPatchRoleBinding kc namespace
    (getSidecarRoleBindingName (metav1.Name owner) (metav1.Kind owner)) labels
    (fun b =>
       {| BindingLabels := BindingLabels b;
          BindingOwners := core_util.EnsureOwnerReference (BindingOwners b) owner;
          BindingRoleRef := {| RoleKind := "ClusterRole";
                               RoleName := apis.StashSidecarClusterRole |};
          Subjects := [ {| SubjectKind := "ServiceAccount"; SubjectName := sa;
                           SubjectNamespace := namespace |} ] |}).

Definition ensureSidecarRoleBindingDeleted (kubeClient : Client) (w : wapi.Workload)
    : M unit :=
  err <- try (DeleteRoleBinding kubeClient (wapi.Namespace w)
                (getSidecarRoleBindingName (wapi.Name w) (wapi.Kind w))) ;;
  match err with
  | Err e =>
      if negb (kerr.IsNotFound e) then fail e else ret tt
  | Ok _ =>
      Infof ("RoleBinding " +:+ wapi.Namespace w +:+ "/"
             +:+ getSidecarRoleBindingName (wapi.Name w) (wapi.Kind w)
             +:+ " has been deleted")
  end.

End rbac.

(** ** [pkg/controller/restics.go] *)

Module controller.

(** [api.Restic], the fields the watcher and [EnsureSidecar] read. *)
Record Restic := {
  Namespace : string;
  Name : string;
  Selector : string;      (** [Spec.Selector], as written by the user *)
  Schedule : string;
}.

(** What an event handler receives as [interface{}]: a [*api.Restic],
    or something else, of which only the queue key matters (if it has
    one). *)
Inductive Object :=
  | ObjRestic (r : Restic)
  | ObjOther (key : option string).

Record ObjectReference := {
  RefNamespace : string;
  RefName : string;
}.

Record Event := {
  InvolvedObject : ObjectReference;
  EventType : string;
  Reason : string;
  Message : string;
}.

(** An object in an informer's cache. *)
Record Cached := {
  CachedLabels : gmap string string;
  CachedOwners : list OwnerReference;
}.

(** The controller: the event recorder's output, the informer caches
    behind the listers and the work queues (the keys waiting, in
    order). *)
Record StashController := {
  recorder : list Event;
  rstQueue : list string;
  dpLister : gmap ObjectKey Cached;
  dsLister : gmap ObjectKey Cached;
  ssLister : gmap ObjectKey Cached;
  rcLister : gmap ObjectKey Cached;
  rsLister : gmap ObjectKey Cached;
  dpQueue : list string;
  dsQueue : list string;
  ssQueue : list string;
  rcQueue : list string;
  rsQueue : list string;
}.

Inductive Queue := RstQueue | DpQueue | DsQueue | SsQueue | RcQueue | RsQueue.

#[global] Instance Queue_eq_dec : EqDecision Queue.
Proof. solve_decision. Defined.

Definition GetQueue (q : Queue) (c : StashController) : list string :=
  match q with
  | RstQueue => rstQueue c
  | DpQueue => dpQueue c
  | DsQueue => dsQueue c
  | SsQueue => ssQueue c
  | RcQueue => rcQueue c
  | RsQueue => rsQueue c
  end.

(** [workqueue.Add]: a key already waiting is not added again. *)
Definition push (key : string) (keys : list string) : list string :=
  if decide (key ∈ keys) then keys else keys ++ [key].

Definition Add (q : Queue) (key : string) (c : StashController) : StashController :=
  let upd (q' : Queue) (keys : list string) : list string :=
    if decide (q = q') then push key keys else keys in
  {| recorder := recorder c;
     rstQueue := upd RstQueue (rstQueue c);
     dpLister := dpLister c; dsLister := dsLister c; ssLister := ssLister c;
     rcLister := rcLister c; rsLister := rsLister c;
     dpQueue := upd DpQueue (dpQueue c);
     dsQueue := upd DsQueue (dsQueue c);
     ssQueue := upd SsQueue (ssQueue c);
     rcQueue := upd RcQueue (rcQueue c);
     rsQueue := upd RsQueue (rsQueue c) |}.

(** [c.recorder.Eventf(ref, eventtype, reason, message)] *)
Definition Eventf (ref : ObjectReference) (eventtype reason message : string)
    (c : StashController) : StashController :=
  {| recorder := recorder c ++ [ {| InvolvedObject := ref; EventType := eventtype;
                                    Reason := reason; Message := message |} ];
     rstQueue := rstQueue c;
     dpLister := dpLister c; dsLister := dsLister c; ssLister := ssLister c;
     rcLister := rcLister c; rsLister := rsLister c;
     dpQueue := dpQueue c; dsQueue := dsQueue c; ssQueue := ssQueue c;
     rcQueue := rcQueue c; rsQueue := rsQueue c |}.

(** [cache.MetaNamespaceKeyFunc] on an object with metadata *)
Definition MetaNamespaceKey (k : ObjectKey) : string :=
  if decide (k.1 = "") then k.2 else k.1 +:+ "/" +:+ k.2.

(** [cache.MetaNamespaceKeyFunc] on an [interface{}] *)
Definition MetaNamespaceKeyFunc (obj : Object) : option string :=
  match obj with
  | ObjRestic r => Some (MetaNamespaceKey (Namespace r, Name r))
  | ObjOther key => key
  end.

(** [queue.Enqueue(q, obj)]: an object without a key is logged and
    dropped. *)
Definition Enqueue (q : Queue) (obj : Object) (c : StashController) : StashController :=
  match MetaNamespaceKeyFunc obj with
  | Some key => Add q key c
  | None => c
  end.

Definition EventTypeWarning : string := "Warning".
Definition EventReasonInvalidRestic : string := "InvalidRestic".

(** [XLister.Xs(ns).List(sel)]: a read of the informer's cache, which
    returns no error. *)
Definition Lister (cache : gmap ObjectKey Cached) (ns : string) (sel : LabelSelector)
    : list (Item Cached) :=
  filter (selected CachedLabels ns sel) (map_to_list cache).

Section Handlers.

(** [r.IsValid()], of the [apimachinery] module: [None] is nil. *)
Variable IsValid : Restic → option error.
(** [reference.GetReference(scheme.Scheme, r)] *)
Variable GetReference : Restic → result ObjectReference.
(** [util.ResticEqual(old, new)] *)
Variable ResticEqual : Restic → Restic → bool.
(** [metav1.LabelSelectorAsSelector(&restic.Spec.Selector)] *)
Variable LabelSelectorAsSelector : string → result LabelSelector.

(** The warning both handlers record for an invalid Restic. *)
Definition warnInvalid (r : Restic) (err : error) (c : StashController)
    : StashController :=
  match GetReference r with
  | Ok ref =>
      Eventf ref EventTypeWarning EventReasonInvalidRestic
        ("Reason " +:+ Error err) c
  | Err _ => c
  end.

(** [AddFunc] of [initResticWatcher] *)
Definition AddFunc (obj : Object) (c : StashController) : StashController :=
  match obj with
  | ObjRestic r =>
      match IsValid r with
      | Some err => warnInvalid r err c
      | None => Enqueue RstQueue obj c
      end
  | ObjOther _ => c
  end.

(** [UpdateFunc] of [initResticWatcher] *)
Definition UpdateFunc (oldObj newObj : Object) (c : StashController)
    : StashController :=
  match oldObj with
  | ObjOther _ => c      (* log.Errorln("Invalid Restic object") *)
  | ObjRestic oldRes =>
      match newObj with
      | ObjOther _ => c  (* log.Errorln("Invalid Restic object") *)
      | ObjRestic newRes =>
          match IsValid newRes with
          | Some err => warnInvalid newRes err c
          | None =>
              if negb (ResticEqual oldRes newRes)
              then Enqueue RstQueue newObj c else c
          end
      end
  end.

(** [DeleteFunc] of [initResticWatcher] *)
Definition DeleteFunc (obj : Object) (c : StashController) : StashController :=
  Enqueue RstQueue obj c.

(** [for _, resource := range resources { key, err := ...; Add(key) }] *)
Definition addAll (q : Queue) (resources : list (Item Cached))
    (c : StashController) : StashController :=
  foldl (fun c resource => Add q (MetaNamespaceKey resource.1) c) c resources.

Definition EnsureSidecar (restic : Restic) (c : StashController) : StashController :=
  match LabelSelectorAsSelector (Selector restic) with
  | Err err =>
      match GetReference restic with
      | Ok ref =>
          Eventf ref EventTypeWarning EventReasonInvalidRestic
            ("Reason: " +:+ Error err) c
      | Err _ => c
      end
  | Ok sel =>
      let c := addAll DpQueue (Lister (dpLister c) (Namespace restic) sel) c in
      let c := addAll DsQueue (Lister (dsLister c) (Namespace restic) sel) c in
      let c := addAll SsQueue (Lister (ssLister c) (Namespace restic) sel) c in
      let c := addAll RcQueue (Lister (rcLister c) (Namespace restic) sel) c in
      foldl (fun c resource =>
               (* If owned by a Deployment, skip it. *)
               if apps_util.IsOwnedByDeployment (CachedOwners resource.2) then c
               else Add RsQueue (MetaNamespaceKey resource.1) c)
            c (Lister (rsLister c) (Namespace restic) sel)
  end.

End Handlers.

End controller.

(** ** [pkg/util/kubernetes.go]: replica counts *)

Module util_replicas.

(** One arm of [WorkloadReplicas]. *)
Definition replicasOf (kc : Client) (r : Resource) (ns name : string) : M Z :=
  obj <- Get kc r ns name ;;
  ret (Replicas obj.2).

Definition WorkloadReplicas (kubeClient : Client)
    (namespace workloadKind workloadName : string) : M Z :=
  if decide (workloadKind = apis.KindDeployment) then
    replicasOf kubeClient Deployments namespace workloadName
  else if decide (workloadKind = apis.KindReplicationController) then
    replicasOf kubeClient ReplicationControllers namespace workloadName
  else if decide (workloadKind = apis.KindReplicaSet) then
    replicasOf kubeClient ReplicaSets namespace workloadName
  else fail (Errorf "unknown workload type").

End util_replicas.

(** ** [pkg/util/kubernetes.go]: volumes *)

Module core.

(** [core.VolumeSource], by the member that is set. *)
Inductive VolumeSource :=
  | EmptyDir (medium : string)
  | SecretSource (secretName : string)
  | DownwardAPI
  | HostPath (path : string)
  | PersistentVolumeClaim (claimName : string).

Record Volume := {
  Name : string;
  Source : VolumeSource;
}.

End core.

#[global] Instance VolumeSource_eq_dec : EqDecision core.VolumeSource.
Proof. solve_decision. Defined.
#[global] Instance Volume_eq_dec : EqDecision core.Volume.
Proof. solve_decision. Defined.

Module store_api.

(** [store.LocalSpec] and [store.Backend], the fields read here. *)
Record LocalSpec := {
  VolumeSource : core.VolumeSource;
  MountPath : string;
}.

Record Backend := {
  Local : option LocalSpec;
}.

(** [(l *LocalSpec) ToVolumeAndMount(volName)], its volume. *)
Definition ToVolume (l : LocalSpec) (volName : string) : core.Volume :=
  {| core.Name := volName; core.Source := VolumeSource l |}.

End store_api.

Module util_volumes.

(** [for i, vol := range volumes { if vol.Name == name { ... i ... } }]:
    the position of the first volume called [name]. *)
Fixpoint firstNamed (name : string) (volumes : list core.Volume) : option nat :=
  match volumes with
  | [] => None
  | vol :: rest =>
      if decide (core.Name vol = name) then Some O
      else S <$> firstNamed name rest
  end.

(** [append(volumes[:i], volumes[i+1:]...)], the slice it returns. *)
Definition removeAt (i : nat) (volumes : list core.Volume) : list core.Volume :=
  take i volumes ++ drop (S i) volumes.

(** [core_util.UpsertVolume(volumes, nv)]: the first volume with the
    name of [nv] is overwritten; without one [nv] is appended. *)
Definition UpsertVolume (volumes : list core.Volume) (nv : core.Volume)
    : list core.Volume :=
  match firstNamed (core.Name nv) volumes with
  | Some i => <[i := nv]> volumes
  | None => volumes ++ [nv]
  end.

Definition MergeLocalVolume (volumes : list core.Volume)
    (backend : option store_api.Backend) (volName : string) : list core.Volume :=
  (* check if the local volume already exist *)
  let oldPos := firstNamed volName volumes in
  match backend ≫= store_api.Local with
  | Some local =>
      (* backend is local backend. we have to mount the local volume inside
         sidecar *)
      let vol := store_api.ToVolume local volName in
      match oldPos with
      | Some i => <[i := vol]> volumes
      | None => UpsertVolume volumes vol
      end
  | None =>
      (* backend is not local backend. we have to remove stash-local volume
         if we had mounted before *)
      match oldPos with
      | Some i => removeAt i volumes
      | None => volumes
      end
  end.

Definition EnsureVolumeDeleted (volumes : list core.Volume) (name : string)
    : list core.Volume :=
  match firstNamed name volumes with
  | Some i => removeAt i volumes
  | None => volumes
  end.

End util_volumes.

(** ** [pkg/util/kubernetes.go]: security contexts *)

Module util_security.

(** [core.SecurityContext]; a nil pointer member is [None].
    [WindowsOptions] stands for the members [UpsertSecurityContext] does
    not name. *)
Record SecurityContext := {
  Capabilities : option (list string * list string);   (* Add, Drop *)
  Privileged : option bool;
  SELinuxOptions : option string;
  WindowsOptions : option string;
  RunAsUser : option Z;
  RunAsGroup : option Z;
  RunAsNonRoot : option bool;
  ReadOnlyRootFilesystem : option bool;
  AllowPrivilegeEscalation : option bool;
  ProcMount : option string;
}.

(** [if new.F != nil { final.F = new.F }] *)
Definition upsert {A} (final new : option A) : option A :=
  match new with
  | Some x => Some x
  | None => final
  end.

(** [&core.SecurityContext{}] *)
Definition emptySecurityContext : SecurityContext :=
  {| Capabilities := None; Privileged := None; SELinuxOptions := None;
     WindowsOptions := None; RunAsUser := None; RunAsGroup := None;
     RunAsNonRoot := None; ReadOnlyRootFilesystem := None;
     AllowPrivilegeEscalation := None; ProcMount := None |}.

Definition UpsertSecurityContext (currentSC newSC : option SecurityContext)
    : option SecurityContext :=
  match newSC with
  | None => currentSC
  | Some new =>
      let finalSC := match currentSC with
                     | None => emptySecurityContext
                     | Some current => current   (* currentSC.DeepCopy() *)
                     end in
      Some {| Capabilities := upsert (Capabilities finalSC) (Capabilities new);
              Privileged := upsert (Privileged finalSC) (Privileged new);
              SELinuxOptions := upsert (SELinuxOptions finalSC) (SELinuxOptions new);
              WindowsOptions := WindowsOptions finalSC;
              RunAsUser := upsert (RunAsUser finalSC) (RunAsUser new);
              RunAsGroup := upsert (RunAsGroup finalSC) (RunAsGroup new);
              RunAsNonRoot := upsert (RunAsNonRoot finalSC) (RunAsNonRoot new);
              ReadOnlyRootFilesystem :=
                upsert (ReadOnlyRootFilesystem finalSC) (ReadOnlyRootFilesystem new);
              AllowPrivilegeEscalation :=
                upsert (AllowPrivilegeEscalation finalSC)
                  (AllowPrivilegeEscalation new);
              ProcMount := upsert (ProcMount finalSC) (ProcMount new) |}
  end.

(** [core.PodSecurityContext]; a nil pointer or nil slice member is
    [None]. [PodWindowsOptions] stands for the members
    [UpsertPodSecurityContext] does not name. *)
Record PodSecurityContext := {
  PodSELinuxOptions : option string;
  PodWindowsOptions : option string;
  PodRunAsUser : option Z;
  PodRunAsGroup : option Z;
  PodRunAsNonRoot : option bool;
  SupplementalGroups : option (list Z);
  FSGroup : option Z;
  Sysctls : option (list (string * string));
}.

Definition emptyPodSecurityContext : PodSecurityContext :=
  {| PodSELinuxOptions := None; PodWindowsOptions := None; PodRunAsUser := None;
     PodRunAsGroup := None; PodRunAsNonRoot := None; SupplementalGroups := None;
     FSGroup := None; Sysctls := None |}.

Definition UpsertPodSecurityContext (currentSC newSC : option PodSecurityContext)
    : option PodSecurityContext :=
  match newSC with
  | None => currentSC
  | Some new =>
      let finalSC := match currentSC with
                     | None => emptyPodSecurityContext
                     | Some current => current   (* currentSC.DeepCopy() *)
                     end in
      Some {| PodSELinuxOptions :=
                upsert (PodSELinuxOptions finalSC) (PodSELinuxOptions new);
              PodWindowsOptions := PodWindowsOptions finalSC;
              PodRunAsUser := upsert (PodRunAsUser finalSC) (PodRunAsUser new);
              PodRunAsGroup := upsert (PodRunAsGroup finalSC) (PodRunAsGroup new);
              PodRunAsNonRoot :=
                upsert (PodRunAsNonRoot finalSC) (PodRunAsNonRoot new);
              SupplementalGroups :=
                upsert (SupplementalGroups finalSC) (SupplementalGroups new);
              FSGroup := upsert (FSGroup finalSC) (FSGroup new);
              Sysctls := upsert (Sysctls finalSC) (Sysctls new) |}
  end.

End util_security.

(** ** [pkg/util/kubernetes.go]: config map locks *)

Module util_locks.

(** [v1beta1_api.TargetRef], the fields read here. *)
Record TargetRef := {
  Kind : string;
  Name : string;
}.

Definition GetConfigmapLockName (workload : api.LocalTypedReference) : string :=
  GoString.ToLower ("lock-" +:+ api.Kind workload +:+ "-" +:+ api.Name workload).

Definition GetBackupConfigmapLockName (r : TargetRef) : string :=
  GoString.ToLower ("lock-" +:+ Kind r +:+ "-" +:+ Name r +:+ "-backup").

Definition GetRestoreConfigmapLockName (r : TargetRef) : string :=
  GoString.ToLower ("lock-" +:+ Kind r +:+ "-" +:+ Name r +:+ "-restore").

(** The config maps of the cluster, by key, and the requests sent. *)
Record ConfigMaps := {
  configMaps : gset ObjectKey;
  sent : nat;
}.

(** [CoreV1().ConfigMaps(ns).Delete(ctx, name, DeleteOptions{})] *)
Definition DeleteConfigMap (kc : Client) (ns name : string) (s : ConfigMaps)
    : ConfigMaps * option error :=
  match faults kc (sent s) with
  | Some e => ({| configMaps := configMaps s; sent := S (sent s) |}, Some e)
  | None =>
      if decide ((ns, name) ∈ configMaps s)
      then ({| configMaps := configMaps s ∖ {[ (ns, name) ]}; sent := S (sent s) |},
            None)
      else ({| configMaps := configMaps s; sent := S (sent s) |},
            Some StatusNotFound)
  end.

Definition DeleteConfigmapLock (k8sClient : Client) (namespace : string)
    (workload : api.LocalTypedReference) : ConfigMaps → ConfigMaps * option error :=
  DeleteConfigMap k8sClient namespace (GetConfigmapLockName workload).

Definition DeleteBackupConfigMapLock (k8sClient : Client) (namespace : string)
    (r : TargetRef) : ConfigMaps → ConfigMaps * option error :=
  DeleteConfigMap k8sClient namespace (GetBackupConfigmapLockName r).

Definition DeleteRestoreConfigMapLock (k8sClient : Client) (namespace : string)
    (r : TargetRef) : ConfigMaps → ConfigMaps * option error :=
  DeleteConfigMap k8sClient namespace (GetRestoreConfigmapLockName r).

(** [err != nil && !kerr.IsNotFound(err)] *)
Definition fatal (err : option error) : bool :=
  match err with
  | Some e => negb (kerr.IsNotFound e)
  | None => false
  end.

Definition DeleteAllConfigMapLocks (k8sClient : Client) (namespace name kind : string)
    (s : ConfigMaps) : ConfigMaps * option error :=
  (* delete backup configMap lock if exist *)
  let (s, err) := DeleteBackupConfigMapLock k8sClient namespace
                    {| Name := name; Kind := kind |} s in
  if fatal err then (s, err) else
  (* delete restore configMap lock if exist *)
  let (s, err) := DeleteRestoreConfigMapLock k8sClient namespace
                    {| Name := name; Kind := kind |} s in
  if fatal err then (s, err) else
  (* backward compatibility *)
  let (s, err) := DeleteConfigmapLock k8sClient namespace
                    {| api.Kind := kind; api.Name := name |} s in
  if fatal err then (s, err) else
  (s, None).

End util_locks.

(** ** [package backup]: the Restic watcher of the backup sidecar *)

Module backup_watcher.

(** The sidecar's controller: the name of the one Restic it serves and
    its queue. *)
Record Controller := {
  ResticName : string;
  rQueue : list string;
}.

Definition enqueue (obj : controller.Object) (c : Controller) : Controller :=
  match controller.MetaNamespaceKeyFunc obj with
  | Some key => {| ResticName := ResticName c;
                   rQueue := controller.push key (rQueue c) |}
  | None => c
  end.

Section Handlers.

(** [r.IsValid()] *)
Variable IsValid : controller.Restic → option error.
(** [util.ResticEqual(old, new)] *)
Variable ResticEqual : controller.Restic → controller.Restic → bool.

Definition AddFunc (obj : controller.Object) (c : Controller) : Controller :=
  match obj with
  | controller.ObjRestic r =>
      if bool_decide (controller.Name r = ResticName c)
         && bool_decide (IsValid r = None)
      then enqueue obj c else c
  | controller.ObjOther _ => c
  end.

(** [UpdateFunc]: both type assertions are unchecked; [None] is the
    panic of a failed one. *)
Definition UpdateFunc (oldObj newObj : controller.Object) (c : Controller)
    : option Controller :=
  match oldObj, newObj with
  | controller.ObjRestic old, controller.ObjRestic nu =>
      Some (if negb (ResticEqual old nu)
               && bool_decide (controller.Name nu = ResticName c)
               && bool_decide (IsValid nu = None)
            then enqueue newObj c else c)
  | _, _ => None
  end.

Definition DeleteFunc (obj : controller.Object) (c : Controller) : Controller :=
  match obj with
  | controller.ObjRestic r =>
      if bool_decide (controller.Name r = ResticName c) then enqueue obj c else c
  | controller.ObjOther _ => c
  end.

End Handlers.

End backup_watcher.

(** * Vocabulary of the statements *)

(** The kind name each typed client serves. *)
Definition kindOf (r : Resource) : string :=
  match r with
  | Deployments => apis.KindDeployment
  | ReplicationControllers => apis.KindReplicationController
  | ReplicaSets => apis.KindReplicaSet
  end.

(** The key of the role binding of workload [w]. *)
Definition bindingKey (w : wapi.Workload) : ObjectKey :=
  (wapi.Namespace w, getSidecarRoleBindingName (wapi.Name w) (wapi.Kind w)).

(** The event both watcher paths record for an invalid Restic. *)
Definition invalidResticWarning (ref : controller.ObjectReference) (err : error)
    : controller.Event :=
  {| controller.InvolvedObject := ref;
     controller.EventType := controller.EventTypeWarning;
     controller.Reason := controller.EventReasonInvalidRestic;
     controller.Message := "Reason " +:+ Error err |}.

(** The mutation the scale-down loops apply to the copy [obj] of the
    listed object [listed]. *)
Definition saveAndZero (listed obj : Scalable) : Scalable :=
  setReplicas ZeroReplica
    (setAnnotations
       <[apis.AnnotationOldReplica := strconv.Itoa (Replicas listed)]> obj).

Definition notOwned (it : Item Scalable) : bool :=
  negb (apps_util.IsOwnedByDeployment (OwnerReferences it.2)).

(** Which listed objects a loop over kind [r] patches: all of them, but
    for replica sets only those no deployment owns. *)
Definition guardOf (r : Resource) (it : Item Scalable) : bool :=
  match r with
  | ReplicaSets => notOwned it
  | _ => true
  end.

(** A loop of [ScaleDownWorkload] over the listed [items] of kind [r]. *)
Definition patchLoop (kc : Client) (r : Resource)
    (mutate : Item Scalable → Scalable → Scalable) (items : list (Item Scalable))
    : M unit :=
  forEach items (fun it =>
    if guardOf r it then PatchObject kc r it (mutate it) else ret tt).

(** One of the three scale-down blocks of [ScaleDownWorkload]. *)
Definition scaleDownKind (c : scale.Controller) (r : Resource) : M unit :=
  found <- try (List (scale.k8sClient c) r (scale.Namespace (scale.opt c))
                  (scale.Selector (scale.opt c))) ;;
  match found with
  | Ok items =>
      patchLoop (scale.k8sClient c) r (fun it obj => saveAndZero it.2 obj) items
  | Err _ => ret tt
  end.

(** The drain wait of [ScaleDownWorkload] with its logging. *)
Definition draining (c : scale.Controller) : M unit :=
  waited <- try (scale.waitUntilScaledDown c) ;;
  match waited with
  | Err e => Infof (Error e)
  | Ok _ => ret tt
  end.

(** One of the three scale-up blocks of [ScaleDownWorkload]. *)
Definition scaleUpKind (c : scale.Controller) (r : Resource) : M unit :=
  found <- try (List (scale.k8sClient c) r (scale.Namespace (scale.opt c))
                  (scale.Selector (scale.opt c))) ;;
  match found with
  | Ok items =>
      if (0 <? length items)%nat then
        patchLoop (scale.k8sClient c) r (fun _ obj => setReplicas OneReplica obj) items
      else ret tt
  | Err _ => ret tt
  end.

(** What the last loop of [ScaleDownWorkload] does with one listed pod. *)
Definition deletePod (c : scale.Controller) (pod : Item Pod) : M unit :=
  if scale.isDaemonOrStatefulSetPod (PodOwnerReferences pod.2) then
    deleted <- try (DeletePod (scale.k8sClient c) (scale.Namespace (scale.opt c))
                      pod.1.2) ;;
    match deleted with
    | Err e =>
        Infof ("Error in deleting pod " +:+ pod.1.2 +:+ ". Reason: " +:+ Error e)
    | Ok _ => ret tt
    end
  else ret tt.

(** The last block of [ScaleDownWorkload]. *)
Definition deletePods (c : scale.Controller) : M unit :=
  found <- try (ListPods (scale.k8sClient c) (scale.Namespace (scale.opt c))
                  (scale.Selector (scale.opt c))) ;;
  match found with
  | Ok items =>
      if (0 <? length items)%nat then forEach items (deletePod c) else ret tt
  | Err _ => ret tt
  end.

(** The three phases of a batch run. *)
Definition scalingDown (c : scale.Controller) : M unit :=
  scaleDownKind c Deployments ;;;
  scaleDownKind c ReplicationControllers ;;;
  scaleDownKind c ReplicaSets.

Definition scalingUp (c : scale.Controller) : M unit :=
  scaleUpKind c Deployments ;;;
  scaleUpKind c ReplicationControllers ;;;
  scaleUpKind c ReplicaSets ;;;
  deletePods c ;;;
  ret tt.

(** An invariant of the cluster kept by a computation, whatever it
    returns. *)
Definition keeps (P : Cluster → Prop) {A} (m : M A) : Prop :=
  ∀ st, P (cluster st) → P (cluster (m st).1).

(** Whether one attempt of the drain poll, made in [st], finds the
    workloads scaled down. *)
Definition drainedAt (c : scale.Controller) (st : State) : bool :=
  match (scale.scaledDown c st).2 with
  | Ok done => done
  | Err _ => false
  end.

(** The state in which attempt number [i] of a drain poll started in
    [st] runs: before it, [i] attempts and [i] intervals have passed. *)
Fixpoint attemptState (c : scale.Controller) (i : nat) (st : State) : State :=
  match i with
  | O => st
  | S i' => attemptState c i' (sleep (scale.k8sClient c) (scale.scaledDown c st).1).1
  end.

(** [st] with one more log line. *)
Definition logged (line : string) (st : State) : State :=
  {| cluster := cluster st; requests := requests st; logs := logs st ++ [line] |}.

(** The replica set stored under [k] is [rs]. *)
Definition storesReplicaSet (k : ObjectKey) (rs : Scalable) (cl : Cluster) : Prop :=
  replicaSets cl !! k = Some rs.

(** A connection on which no request fails. *)
Definition faultless (kc : Client) : Prop := ∀ i, faults kc i = None.

(** What a loop over the selected objects of kind [r] makes of the
    object [w] stored under [k]. *)
Definition patched (r : Resource) (ns : string) (sel : LabelSelector)
    (mutate : Item Scalable → Scalable → Scalable) (k : ObjectKey) (w : Scalable)
    : Scalable :=
  if decide (selected Labels ns sel (k, w)) then
    if guardOf r (k, w) then mutate (k, w) w else w
  else w.

(** The mutations of the scale-down and of the scale-up loops. *)
Definition saveAndZeroListed (it : Item Scalable) (obj : Scalable) : Scalable :=
  saveAndZero it.2 obj.

Definition setOne (it : Item Scalable) (obj : Scalable) : Scalable :=
  setReplicas OneReplica obj.

(** What the scale-down phase and the scale-up phase make, on a
    connection without faults, of the object [w] stored under [k] in
    kind [r]. *)
Definition scaledDownObject (c : scale.Controller) (r : Resource)
    (k : ObjectKey) (w : Scalable) : Scalable :=
  patched r (scale.Namespace (scale.opt c)) (scale.Selector (scale.opt c))
    saveAndZeroListed k w.

Definition scaledUpObject (c : scale.Controller) (r : Resource)
    (k : ObjectKey) (w : Scalable) : Scalable :=
  patched r (scale.Namespace (scale.opt c)) (scale.Selector (scale.opt c))
    setOne k w.

(** The object of kind [r] stored under [k] is [w]. *)
Definition storesAt (r : Resource) (k : ObjectKey) (w : Scalable) (cl : Cluster)
    : Prop :=
  store r cl !! k = Some w.

(** What of a scalable object no patch of this code changes. *)
Definition shape (w : Scalable) : gmap string string * list OwnerReference :=
  (Labels w, OwnerReferences w).

(** Every scalable object of [cl] is there in [cl0] and conversely, with
    the same labels and owner references, and the role bindings agree. *)
Definition sameShape (cl0 cl : Cluster) : Prop :=
  (∀ r k, shape <$> store r cl !! k = shape <$> store r cl0 !! k)
  ∧ roleBindings cl = roleBindings cl0.

(** A connection on which every request fails. *)
Definition unreachable (kc : Client) : Prop := ∀ i, is_Some (faults kc i).

(** What [EnsureSidecarRoleBinding] makes of a role binding. *)
Definition granted (owner : OwnerReference) (namespace sa : string)
    (b : RoleBinding) : RoleBinding :=
  {| BindingLabels := BindingLabels b;
     BindingOwners := core_util.EnsureOwnerReference (BindingOwners b) owner;
     BindingRoleRef := {| RoleKind := "ClusterRole";
                          RoleName := apis.StashSidecarClusterRole |};
     Subjects := [ {| SubjectKind := "ServiceAccount"; SubjectName := sa;
                      SubjectNamespace := namespace |} ] |}.

(** The workload an owner reference stands for, in a namespace. *)
Definition workloadOf (owner : OwnerReference) (namespace : string) : wapi.Workload :=
  {| wapi.Kind := metav1.Kind owner; wapi.Namespace := namespace;
     wapi.Name := metav1.Name owner |}.

(** The informer cache behind each workload queue. *)
Definition listerOf (q : controller.Queue) (c : controller.StashController)
    : gmap ObjectKey controller.Cached :=
  match q with
  | controller.RstQueue => ∅
  | controller.DpQueue => controller.dpLister c
  | controller.DsQueue => controller.dsLister c
  | controller.SsQueue => controller.ssLister c
  | controller.RcQueue => controller.rcLister c
  | controller.RsQueue => controller.rsLister c
  end.

(** The names of the volumes, in order. *)
Definition volumeNames (volumes : list core.Volume) : list string :=
  core.Name <$> volumes.

(** [backend != nil && backend.Local != nil] *)
Definition isLocal (backend : option store_api.Backend) : Prop :=
  is_Some (backend ≫= store_api.Local).

(** [v1beta1_api.TargetRef{Name: name, Kind: kind}] *)
Definition lockRef (kind name : string) : util_locks.TargetRef :=
  {| util_locks.Kind := kind; util_locks.Name := name |}.

(** [api.LocalTypedReference{Kind: kind, Name: name}] *)
Definition legacyRef (kind name : string) : api.LocalTypedReference :=
  {| api.Kind := kind; api.Name := name |}.

(** The keys of the three locks of a workload. *)
Definition lockKeys (namespace name kind : string) : gset ObjectKey :=
  {[ (namespace, util_locks.GetBackupConfigmapLockName (lockRef kind name));
     (namespace, util_locks.GetRestoreConfigmapLockName (lockRef kind name));
     (namespace, util_locks.GetConfigmapLockName (legacyRef kind name)) ]}.


(** * A small cluster to compute on *)

Module Demo.

(** The selector [app=demo]. *)
Definition appDemo : LabelSelector :=
  fun labels => bool_decide (labels !! "app" = Some "demo").

Definition workload (annotations : gmap string string)
    (owners : list OwnerReference) (replicas : Z) : Scalable :=
  {| Labels := {[ "app" := "demo" ]}; Annotations := annotations;
     OwnerReferences := owners; Replicas := replicas |}.

Definition byDeployment : OwnerReference :=
  {| metav1.Kind := "Deployment"; metav1.Name := "web"; metav1.UID := "u-1" |}.

Definition byStatefulSet : OwnerReference :=
  {| metav1.Kind := "StatefulSet"; metav1.Name := "db"; metav1.UID := "u-2" |}.

Definition byReplicaSet : OwnerReference :=
  {| metav1.Kind := "ReplicaSet"; metav1.Name := "web-7d4f"; metav1.UID := "u-3" |}.

Definition pod (owners : list OwnerReference) : Pod :=
  {| PodLabels := {[ "app" := "demo" ]}; PodOwnerReferences := owners |}.

Definition binding : RoleBinding :=
  {| BindingLabels := ∅; BindingOwners := [byDeployment];
     BindingRoleRef := {| RoleKind := "ClusterRole"; RoleName := "stash-sidecar" |};
     Subjects := [] |}.

(** Namespace [ns]: deployment [web] with 3 replicas, its replica set
    [web-7d4f], a free-standing replica set [cache] with 2 replicas, a
    replication controller [legacy] with 4 replicas, one pod of the
    replica set, one pod of a stateful set, and the sidecar's role
    binding of [web]. *)
Definition cluster0 : Cluster :=
  {| deployments := {[ ("ns", "web") := workload ∅ [] 3 ]};
     replicationControllers := {[ ("ns", "legacy") := workload ∅ [] 4 ]};
     replicaSets :=
       {[ ("ns", "web-7d4f") := workload ∅ [byDeployment] 3;
          ("ns", "cache") := workload ∅ [] 2 ]};
     pods :=
       {[ ("ns", "web-7d4f-x") := pod [byReplicaSet];
          ("ns", "db-0") := pod [byStatefulSet] ]};
     roleBindings := {[ ("ns", "stash-sidecar-deployment-web") := binding ]} |}.

Definition state0 : State := {| cluster := cluster0; requests := 0; logs := [] |}.

(** A connection without faults; the platform removes every pod that
    no stateful set or daemon set owns during the first interval. *)
Definition reliable : Client :=
  {| faults := fun _ => None;
     drain := filter (fun p : ObjectKey * Pod =>
                scale.isDaemonOrStatefulSetPod (PodOwnerReferences p.2) = true);
     pollTicks := 3 |}.

(** A connection without faults to a cluster whose pods never go. *)
Definition stuck : Client :=
  {| faults := fun _ => None; drain := fun p => p; pollTicks := 3 |}.

(** A connection on which every request fails. *)
Definition broken : Client :=
  {| faults := fun _ => Some (StatusError "connection refused");
     drain := fun p => p; pollTicks := 3 |}.

Definition controllerOn (kc : Client) : scale.Controller :=
  {| scale.k8sClient := kc;
     scale.opt := {| scale.Workload := {| api.Kind := "Deployment"; api.Name := "web" |};
                     scale.Namespace := "ns"; scale.Selector := appDemo |} |}.

Definition restoreOf (kind name : string) : backup.Options :=
  {| backup.Workload := {| api.Kind := kind; api.Name := name |};
     backup.Namespace := "ns" |}.

(** [state0] with deployment [web] scaled down: 0 replicas, 3 saved. *)
Definition scaledDownState : State :=
  {| cluster :=
       setStore Deployments
         {[ ("ns", "web") :=
              workload {[ apis.AnnotationOldReplica := "3" ]} [] 0 ]} cluster0;
     requests := 0; logs := [] |}.

Definition webWorkload : wapi.Workload :=
  {| wapi.Kind := "Deployment"; wapi.Namespace := "ns"; wapi.Name := "web" |}.

Definition missingWorkload : wapi.Workload :=
  {| wapi.Kind := "DaemonSet"; wapi.Namespace := "ns"; wapi.Name := "agent" |}.

(** A Restic whose schedule does not parse. *)
Definition badRestic : controller.Restic :=
  {| controller.Namespace := "ns"; controller.Name := "nightly";
     controller.Selector := "app=demo"; controller.Schedule := "every day" |}.

Definition goodRestic : controller.Restic :=
  {| controller.Namespace := "ns"; controller.Name := "nightly";
     controller.Selector := "app=demo"; controller.Schedule := "@every 6h" |}.

(** A validity predicate that rejects the schedule of [badRestic]. *)
Definition checkSchedule (r : controller.Restic) : option error :=
  if decide (controller.Schedule r = "every day")
  then Some (Errorf "invalid cron expression") else None.

(** Reference resolution for objects that carry their type and link. *)
Definition resolved (r : controller.Restic) : result controller.ObjectReference :=
  Ok {| controller.RefNamespace := controller.Namespace r;
        controller.RefName := controller.Name r |}.

(** Reference resolution for objects without version and self link. *)
Definition unresolved (r : controller.Restic) : result controller.ObjectReference :=
  Err (Errorf "selfLink was empty, can't make reference").

Definition sameSchedule (old new : controller.Restic) : bool :=
  bool_decide (controller.Schedule old = controller.Schedule new).

Definition parseSelector (s : string) : result LabelSelector :=
  if decide (s = "app=demo") then Ok appDemo else Err (Errorf "invalid selector").

Definition cached (owners : list OwnerReference) : controller.Cached :=
  {| controller.CachedLabels := {[ "app" := "demo" ]};
     controller.CachedOwners := owners |}.

(** A controller with empty queues whose caches mirror [cluster0]. *)
Definition controller0 : controller.StashController :=
  {| controller.recorder := []; controller.rstQueue := [];
     controller.dpLister := {[ ("ns", "web") := cached [] ]};
     controller.dsLister := ∅; controller.ssLister := ∅;
     controller.rcLister := {[ ("ns", "legacy") := cached [] ]};
     controller.rsLister :=
       {[ ("ns", "web-7d4f") := cached [byDeployment];
          ("ns", "cache") := cached [] ]};
     controller.dpQueue := []; controller.dsQueue := [];
     controller.ssQueue := []; controller.rcQueue := [];
     controller.rsQueue := [] |}.

End Demo.

(** * A second cluster, with objects the selector does not select *)

Module Demo2.

(** A deployment with other labels. *)
Definition batch : Scalable :=
  {| Labels := {[ "app" := "batch" ]}; Annotations := ∅;
     OwnerReferences := []; Replicas := 5 |}.

(** A deployment whose saved count does not fit [int32]. *)
Definition overflowing : Scalable :=
  Demo.workload {[ apis.AnnotationOldReplica := "4294967299" ]} [] 0.

(** [Demo.cluster0] with deployment [batch] (not selected by [app=demo]),
    deployment [web] of namespace [other], and deployment [huge]. *)
Definition cluster1 : Cluster :=
  setStore Deployments
    (<[("ns", "batch") := batch]>
       (<[("other", "web") := Demo.workload ∅ [] 2]>
          (<[("ns", "huge") := overflowing]> (deployments Demo.cluster0))))
    Demo.cluster0.

Definition state1 : State := {| cluster := cluster1; requests := 0; logs := [] |}.

(** A connection on which only the request number [i] fails. *)
Definition failingAt (i : nat) : Client :=
  {| faults := fun j => if decide (j = i)
                        then Some (StatusError "connection reset") else None;
     drain := fun p => p; pollTicks := 1 |}.

End Demo2.

(** * Volumes, security contexts and locks to compute on *)

Module Demo3.

Definition scratch : core.Volume :=
  {| core.Name := "stash-scratchdir"; core.Source := core.EmptyDir "" |}.

Definition podInfo : core.Volume :=
  {| core.Name := "stash-podinfo"; core.Source := core.DownwardAPI |}.

Definition staleLocal : core.Volume :=
  {| core.Name := "stash-local"; core.Source := core.HostPath "/old" |}.

Definition volumes : list core.Volume := [scratch; staleLocal; podInfo].

Definition localSpec : store_api.LocalSpec :=
  {| store_api.VolumeSource := core.HostPath "/var/backup";
     store_api.MountPath := "/safe/data" |}.

Definition localBackend : option store_api.Backend :=
  Some {| store_api.Local := Some localSpec |}.

Definition cloudBackend : option store_api.Backend :=
  Some {| store_api.Local := None |}.

Definition hardened : util_security.SecurityContext :=
  {| util_security.Capabilities := None; util_security.Privileged := Some false;
     util_security.SELinuxOptions := None; util_security.WindowsOptions := None;
     util_security.RunAsUser := Some 2000%Z; util_security.RunAsGroup := None;
     util_security.RunAsNonRoot := Some true;
     util_security.ReadOnlyRootFilesystem := None;
     util_security.AllowPrivilegeEscalation := None;
     util_security.ProcMount := None |}.

Definition windows : util_security.SecurityContext :=
  {| util_security.Capabilities := None; util_security.Privileged := None;
     util_security.SELinuxOptions := None;
     util_security.WindowsOptions := Some "ContainerUser";
     util_security.RunAsUser := None; util_security.RunAsGroup := None;
     util_security.RunAsNonRoot := None;
     util_security.ReadOnlyRootFilesystem := Some true;
     util_security.AllowPrivilegeEscalation := None;
     util_security.ProcMount := None |}.

Definition podWindows : util_security.PodSecurityContext :=
  {| util_security.PodSELinuxOptions := None;
     util_security.PodWindowsOptions := Some "ContainerUser";
     util_security.PodRunAsUser := None; util_security.PodRunAsGroup := None;
     util_security.PodRunAsNonRoot := None;
     util_security.SupplementalGroups := None;
     util_security.FSGroup := Some 65535%Z; util_security.Sysctls := None |}.

Definition podHardened : util_security.PodSecurityContext :=
  {| util_security.PodSELinuxOptions := None;
     util_security.PodWindowsOptions := None;
     util_security.PodRunAsUser := Some 2000%Z; util_security.PodRunAsGroup := None;
     util_security.PodRunAsNonRoot := Some true;
     util_security.SupplementalGroups := Some [2000%Z];
     util_security.FSGroup := None; util_security.Sysctls := None |}.

(** Config maps: two locks of the deployment [web] and one config map
    that is no lock. *)
Definition locks : util_locks.ConfigMaps :=
  {| util_locks.configMaps :=
       {[ ("ns", "lock-deployment-web-backup"); ("ns", "lock-deployment-web");
          ("ns", "app-config") ]};
     util_locks.sent := 0 |}.


End Demo3.

(** * Theorems *)

(** ** Names of role bindings, by example *)

Example getSidecarRoleBindingName_demo :
  getSidecarRoleBindingName "demo" apis.KindDeployment
  = "stash-sidecar-deployment-demo".
Proof. reflexivity. Qed.

Example getSidecarRoleBindingName_long :
  getSidecarRoleBindingName
    "a-very-long-workload-name-that-does-not-fit-the-limit" apis.KindStatefulSet
  = "stash-sidecar-statefulset-a-veryame-that-does-not-fit-the-limit".
Proof. vm_compute. reflexivity. Qed.

(** ** The monad *)

Lemma bind_Ok {A B} (m : M A) (k : A → M B) st st' a :
  m st = (st', Ok a) → bind m k st = k a st'.
Proof. unfold bind. by intros ->. Qed.

Lemma bind_Err {A B} (m : M A) (k : A → M B) st st' e :
  m st = (st', Err e) → bind m k st = (st', Err e).
Proof. unfold bind. by intros ->. Qed.

Lemma try_run {A} (m : M A) st : try m st = ((m st).1, Ok (m st).2).
Proof. unfold try. by destruct (m st). Qed.

Lemma request_served {A} kc (serve : Cluster → Cluster * result A) st :
  faults kc (requests st) = None →
  request kc serve st =
    ({| cluster := (serve (cluster st)).1; requests := S (requests st);
        logs := logs st |}, (serve (cluster st)).2).
Proof. unfold request. intros ->. by destruct (serve (cluster st)). Qed.

Lemma request_faulted {A} kc (serve : Cluster → Cluster * result A) st e :
  faults kc (requests st) = Some e →
  request kc serve st =
    ({| cluster := cluster st; requests := S (requests st); logs := logs st |},
     Err e).
Proof. unfold request. by intros ->. Qed.

(** ** [HasOldReplicaAnnotation] *)

(** C10. For a workload whose kind is StatefulSet or DaemonSet, or none
    of the five supported kinds, [HasOldReplicaAnnotation] returns false
    without a request, whatever the cluster holds: the annotation is
    reported for Deployment, ReplicationController and ReplicaSet
    only. *)
Theorem HasOldReplicaAnnotation_false_outside_scalable_kinds
    (kc : Client) (ns : string) (w : api.LocalTypedReference) (st : State) :
  api.Kind w = apis.KindStatefulSet ∨ api.Kind w = apis.KindDaemonSet
    ∨ api.Kind w ∉ apis.SupportedKinds →
  util.HasOldReplicaAnnotation kc ns w st = (st, Returns false).
Proof.
  intros Hkind. unfold util.HasOldReplicaAnnotation.
  assert (Hout : api.Kind w ≠ apis.KindDeployment
                 ∧ api.Kind w ≠ apis.KindReplicationController
                 ∧ api.Kind w ≠ apis.KindReplicaSet).
  { destruct Hkind as [-> | [-> | Hnot]]; [by repeat split ..|].
    unfold apis.SupportedKinds in Hnot.
    repeat split; intros Heq; apply Hnot; rewrite Heq; set_solver. }
  destruct Hout as (? & ? & ?).
  repeat case_decide; try done.
Qed.

Lemma HasOldReplicaAnnotation_false_outside_scalable_kinds_witness :
  util.HasOldReplicaAnnotation Demo.reliable "ns"
    {| api.Kind := "StatefulSet"; api.Name := "db" |} Demo.scaledDownState
  = (Demo.scaledDownState, Returns false).
Proof.
  apply HasOldReplicaAnnotation_false_outside_scalable_kinds.
  left. reflexivity.
Defined.

(** ** [ScaleUpWorkload]: the kinds it does not restore *)

(** C6. For a StatefulSet or a DaemonSet [ScaleUpWorkload] returns nil
    and sends nothing; for a kind outside the five supported kinds it
    returns the error "Unknown workload type", again without touching
    the cluster. *)
Theorem ScaleUpWorkload_unscaled_and_unknown_kinds
    (kc : Client) (opt : backup.Options) (st : State) :
  (api.Kind (backup.Workload opt) = apis.KindStatefulSet
   ∨ api.Kind (backup.Workload opt) = apis.KindDaemonSet →
   scale.ScaleUpWorkload kc opt st = (st, Ok tt))
  ∧ (api.Kind (backup.Workload opt) ∉ apis.SupportedKinds →
     scale.ScaleUpWorkload kc opt st = (st, Err (Errorf "Unknown workload type"))).
Proof.
  unfold scale.ScaleUpWorkload. split.
  - intros [-> | ->]; reflexivity.
  - intros Hnot. unfold apis.SupportedKinds in Hnot.
    repeat case_decide; try reflexivity; exfalso; apply Hnot;
      match goal with H : api.Kind _ = _ |- _ => rewrite H end; set_solver.
Qed.

Lemma ScaleUpWorkload_unscaled_and_unknown_kinds_witness :
  scale.ScaleUpWorkload Demo.reliable (Demo.restoreOf "DaemonSet" "agent")
    Demo.scaledDownState = (Demo.scaledDownState, Ok tt)
  ∧ scale.ScaleUpWorkload Demo.reliable (Demo.restoreOf "CronJob" "nightly")
      Demo.scaledDownState
    = (Demo.scaledDownState, Err (Errorf "Unknown workload type")).
Proof.
  split.
  - apply (ScaleUpWorkload_unscaled_and_unknown_kinds Demo.reliable
             (Demo.restoreOf "DaemonSet" "agent")).
    right. reflexivity.
  - apply (ScaleUpWorkload_unscaled_and_unknown_kinds Demo.reliable
             (Demo.restoreOf "CronJob" "nightly")).
    vm_compute. intros H. repeat (inversion H as [| ? ? ? H']; clear H; rename H' into H).
Defined.

(** ** [ensureSidecarRoleBindingDeleted] *)

(** C8. Retracting the grant returns nil when the binding was there (and
    is gone afterwards), returns nil when the binding was absent, returns
    nil when the delete request itself fails with NotFound, and returns
    any other error of the delete request. *)
Theorem ensureSidecarRoleBindingDeleted_tolerates_absence
    (kc : Client) (w : wapi.Workload) (st : State) :
  let out := rbac.ensureSidecarRoleBindingDeleted kc w st in
  (faults kc (requests st) = None →
   is_Some (roleBindings (cluster st) !! bindingKey w) →
   out.2 = Ok tt
   ∧ roleBindings (cluster out.1) = delete (bindingKey w) (roleBindings (cluster st)))
  ∧ (faults kc (requests st) = None →
     roleBindings (cluster st) !! bindingKey w = None →
     out.2 = Ok tt ∧ cluster out.1 = cluster st)
  ∧ (∀ e, faults kc (requests st) = Some e →
       out.2 = (if kerr.IsNotFound e then Ok tt else Err e)
       ∧ cluster out.1 = cluster st).
Proof.
  cbn zeta. unfold rbac.ensureSidecarRoleBindingDeleted, bind.
  rewrite try_run. unfold DeleteRoleBinding, bindingKey.
  repeat split.
  - rewrite request_served by done. destruct H0 as [b ->]. reflexivity.
  - rewrite request_served by done. destruct H0 as [b ->]. reflexivity.
  - rewrite request_served by done. rewrite H0. reflexivity.
  - rewrite request_served by done. rewrite H0. reflexivity.
  - rewrite (request_faulted _ _ _ e) by done. cbn. by destruct e.
  - rewrite (request_faulted _ _ _ e) by done. cbn. by destruct e.
Qed.

Lemma ensureSidecarRoleBindingDeleted_tolerates_absence_witness :
  ((rbac.ensureSidecarRoleBindingDeleted Demo.reliable Demo.webWorkload Demo.state0).2 = Ok tt
   ∧ roleBindings
       (cluster (rbac.ensureSidecarRoleBindingDeleted Demo.reliable Demo.webWorkload
                   Demo.state0).1)
     = delete (bindingKey Demo.webWorkload) (roleBindings (cluster Demo.state0)))
  ∧ ((rbac.ensureSidecarRoleBindingDeleted Demo.reliable Demo.missingWorkload
        Demo.state0).2 = Ok tt
     ∧ cluster (rbac.ensureSidecarRoleBindingDeleted Demo.reliable Demo.missingWorkload
                  Demo.state0).1 = cluster Demo.state0)
  ∧ ((rbac.ensureSidecarRoleBindingDeleted Demo.broken Demo.webWorkload Demo.state0).2
       = Err (StatusError "connection refused")
     ∧ cluster (rbac.ensureSidecarRoleBindingDeleted Demo.broken Demo.webWorkload
                  Demo.state0).1 = cluster Demo.state0).
Proof.
  split; [|split].
  - apply (ensureSidecarRoleBindingDeleted_tolerates_absence
             Demo.reliable Demo.webWorkload Demo.state0).
    + reflexivity.
    + vm_compute. eauto.
  - apply (ensureSidecarRoleBindingDeleted_tolerates_absence
             Demo.reliable Demo.missingWorkload Demo.state0).
    + reflexivity.
    + vm_compute. reflexivity.
  - destruct (ensureSidecarRoleBindingDeleted_tolerates_absence
                Demo.broken Demo.webWorkload Demo.state0) as (_ & _ & Hfault).
    apply (Hfault (StatusError "connection refused")). reflexivity.
Defined.

(** ** Patches *)

Lemma applyPatch_diff (cur modified : Scalable) :
  Labels modified = Labels cur →
  OwnerReferences modified = OwnerReferences cur →
  applyPatch (CreateTwoWayMergePatch cur modified) cur = modified.
Proof.
  intros Hl Ho. destruct cur as [l a o n], modified as [l' a' o' n'].
  cbn in *. subst l' o'.
  unfold applyPatch, CreateTwoWayMergePatch, setReplicas, setAnnotations. cbn.
  f_equal.
  - apply map_eq. intros i. rewrite !lookup_merge.
    destruct (a !! i) as [x|] eqn:Ha, (a' !! i) as [y|] eqn:Ha'; cbn; try done.
    unfold diffAnnotation. case_decide; cbn; congruence.
  - case_decide; cbn; congruence.
Qed.

Lemma PatchObject_unchanged kc r cur transform st :
  CreateTwoWayMergePatch cur.2 (transform cur.2) = emptyPatch →
  PatchObject kc r cur transform st = (st, Ok tt).
Proof. unfold PatchObject. intros ->. by rewrite decide_True. Qed.

Lemma PatchObject_served kc r cur transform st :
  CreateTwoWayMergePatch cur.2 (transform cur.2) ≠ emptyPatch →
  faults kc (requests st) = None →
  store r (cluster st) !! cur.1 = Some cur.2 →
  Labels (transform cur.2) = Labels cur.2 →
  OwnerReferences (transform cur.2) = OwnerReferences cur.2 →
  PatchObject kc r cur transform st =
    ({| cluster := setStore r (<[cur.1 := transform cur.2]> (store r (cluster st)))
                     (cluster st);
        requests := S (requests st); logs := logs st |}, Ok tt).
Proof.
  intros Hne Hf Hcur Hl Ho. unfold PatchObject.
  rewrite decide_False by done. rewrite request_served by done.
  rewrite Hcur. cbn. by rewrite applyPatch_diff.
Qed.

Lemma store_setStore r m cl : store r (setStore r m cl) = m.
Proof. by destruct r. Qed.

Lemma store_setStore_ne r r' m cl : r ≠ r' → store r (setStore r' m cl) = store r cl.
Proof. by destruct r, r'. Qed.

(** ** [ScaleUpWorkload]: restoring a saved count *)

Lemma ScaleUpWorkload_restore kc r opt :
  api.Kind (backup.Workload opt) = kindOf r →
  scale.ScaleUpWorkload kc opt = scale.restore kc r opt.
Proof. unfold scale.ScaleUpWorkload. intros ->. by destruct r. Qed.

Lemma int32_id n : - 2 ^ 31 ≤ n < 2 ^ 31 → int32 n = n.
Proof. intros H. unfold int32. rewrite Z.mod_small; lia. Qed.

Lemma ScaleUpWorkload_annotated kc r opt st obj v N :
  let key := (backup.Namespace opt, api.Name (backup.Workload opt)) in
  api.Kind (backup.Workload opt) = kindOf r →
  store r (cluster st) !! key = Some obj →
  Annotations obj !! apis.AnnotationOldReplica = Some v →
  strconv.Atoi v = Some N →
  faults kc (requests st) = None →
  faults kc (S (requests st)) = None →
  scale.ScaleUpWorkload kc opt st =
    ({| cluster := setStore r
          (<[key := setAnnotations (delete apis.AnnotationOldReplica)
                      (setReplicas (int32 N) obj)]> (store r (cluster st)))
          (cluster st);
        requests := S (S (requests st)); logs := logs st |}, Ok tt).
Proof.
  intros key Hkind Hobj Hann Hatoi Hf0 Hf1.
  rewrite (ScaleUpWorkload_restore kc r) by done.
  unfold scale.restore, bind, Get. rewrite request_served by done.
  fold key. rewrite Hobj. cbn [fst snd].
  unfold lift, meta.GetIntValue. rewrite Hann, Hatoi.
  rewrite PatchObject_served; [done | | done | exact Hobj | done | done].
  intros Hempty. apply (f_equal patchAnnotations) in Hempty.
  apply (f_equal (fun m => m !! apis.AnnotationOldReplica)) in Hempty.
  cbn in Hempty. rewrite lookup_merge, lookup_delete_eq, Hann in Hempty.
  discriminate.
Qed.

(** C3. For a Deployment, ReplicationController or ReplicaSet whose
    previous-replica-count annotation reads as the integer [N] (a value
    of [int32]), [ScaleUpWorkload] returns nil and leaves the workload
    with [N] replicas and without the annotation, provided its two
    requests are served; a second [ScaleUpWorkload] on the same workload
    then finds nothing to restore: it returns the not-found error of
    [GetIntValue] and leaves the cluster as it is. *)
Theorem ScaleUpWorkload_restores_saved_count
    (kc : Client) (r : Resource) (opt : backup.Options) (st : State)
    (obj : Scalable) (v : string) (N : Z) :
  let key := (backup.Namespace opt, api.Name (backup.Workload opt)) in
  let first := scale.ScaleUpWorkload kc opt st in
  let second := scale.ScaleUpWorkload kc opt first.1 in
  api.Kind (backup.Workload opt) = kindOf r →
  store r (cluster st) !! key = Some obj →
  Annotations obj !! apis.AnnotationOldReplica = Some v →
  strconv.Atoi v = Some N →
  - 2 ^ 31 ≤ N < 2 ^ 31 →
  (∀ i, (i < 3)%nat → faults kc (requests st + i) = None) →
  first.2 = Ok tt
  ∧ store r (cluster first.1) !! key
    = Some (setAnnotations (delete apis.AnnotationOldReplica) (setReplicas N obj))
  ∧ second.2 = Err ErrNotFound
  ∧ cluster second.1 = cluster first.1.
Proof.
  intros key first second Hkind Hobj Hann Hatoi HN Hfaults.
  assert (Hf0 : faults kc (requests st) = None).
  { rewrite <- (Nat.add_0_r (requests st)). apply Hfaults. lia. }
  assert (Hf1 : faults kc (S (requests st)) = None).
  { replace (S (requests st)) with (requests st + 1)%nat by lia. apply Hfaults. lia. }
  assert (Hf2 : faults kc (S (S (requests st))) = None).
  { replace (S (S (requests st))) with (requests st + 2)%nat by lia.
    apply Hfaults. lia. }
  assert (Hfirst : first =
    ({| cluster := setStore r
          (<[key := setAnnotations (delete apis.AnnotationOldReplica)
                      (setReplicas N obj)]> (store r (cluster st))) (cluster st);
        requests := S (S (requests st)); logs := logs st |}, Ok tt)).
  { subst first.
    rewrite (ScaleUpWorkload_annotated kc r opt st obj v N) by done.
    by rewrite int32_id. }
  rewrite Hfirst. cbn [fst snd cluster].
  split; [done|]. split; [by rewrite store_setStore, lookup_insert_eq|].
  subst second. rewrite Hfirst. cbn [fst].
  rewrite (ScaleUpWorkload_restore kc r) by done.
  unfold scale.restore, bind, Get. rewrite request_served by done.
  cbn [cluster]. fold key. rewrite store_setStore, lookup_insert_eq.
  cbn [fst snd]. unfold lift, meta.GetIntValue. cbn [Annotations setAnnotations].
  rewrite lookup_delete_eq. done.
Qed.

Lemma ScaleUpWorkload_restores_saved_count_witness :
  (scale.ScaleUpWorkload Demo.reliable (Demo.restoreOf "Deployment" "web")
     Demo.scaledDownState).2 = Ok tt
  ∧ store Deployments
      (cluster (scale.ScaleUpWorkload Demo.reliable
                  (Demo.restoreOf "Deployment" "web") Demo.scaledDownState).1)
      !! ("ns", "web")
    = Some (setAnnotations (delete apis.AnnotationOldReplica)
              (setReplicas 3
                 (Demo.workload {[ apis.AnnotationOldReplica := "3" ]} [] 0)))
  ∧ (scale.ScaleUpWorkload Demo.reliable (Demo.restoreOf "Deployment" "web")
       (scale.ScaleUpWorkload Demo.reliable (Demo.restoreOf "Deployment" "web")
          Demo.scaledDownState).1).2 = Err ErrNotFound
  ∧ cluster
      (scale.ScaleUpWorkload Demo.reliable (Demo.restoreOf "Deployment" "web")
         (scale.ScaleUpWorkload Demo.reliable (Demo.restoreOf "Deployment" "web")
            Demo.scaledDownState).1).1
    = cluster (scale.ScaleUpWorkload Demo.reliable
                 (Demo.restoreOf "Deployment" "web") Demo.scaledDownState).1.
Proof.
  apply (ScaleUpWorkload_restores_saved_count Demo.reliable Deployments
           (Demo.restoreOf "Deployment" "web") Demo.scaledDownState
           (Demo.workload {[ apis.AnnotationOldReplica := "3" ]} [] 0) "3" 3).
  - reflexivity.
  - vm_compute. reflexivity.
  - vm_compute. reflexivity.
  - vm_compute. reflexivity.
  - lia.
  - intros i _. reflexivity.
Defined.

(** ** The name of the sidecar's role binding *)

Section GoStringFacts.

Import GoString.

Lemma get_TrimRight c s j a :
  String.get j s = Some a → a ≠ c → String.get j (TrimRight c s) = Some a.
Proof.
  revert j. induction s as [|b s IH]; intros j Hget Hne; [done|].
  destruct j as [|j]; cbn in Hget |- *.
  - injection Hget as ->.
    assert (Ascii.eqb a c = false) as -> by by apply Ascii.eqb_neq.
    by destruct (TrimRight c s).
  - specialize (IH j Hget Hne).
    destruct (TrimRight c s) as [|x t]; [done|]. exact IH.
Qed.

Lemma TrimLeft_kept c s a :
  String.get 0 s = Some a → a ≠ c → TrimLeft c s = s.
Proof.
  destruct s as [|b s]; [done|]. cbn. intros [= ->] Hne.
  by assert (Ascii.eqb a c = false) as -> by by apply Ascii.eqb_neq.
Qed.

Lemma get_slice_to_app k s t j a :
  (j < k)%nat → String.get j s = Some a →
  String.get j (slice_to k s +:+ t) = Some a.
Proof.
  revert k j. induction s as [|b s IH]; intros k j Hlt Hget; [done|].
  destruct k as [|k]; [lia|]. destruct j as [|j]; cbn in *; [done|].
  apply IH; [lia | done].
Qed.

(** The first half of the joined name survives the cut, and bytes other
    than ["-"] survive the trimming. *)
Lemma get_ValidNameWithPrefixNSuffix prefix name suffix customLength j a a0 :
  let out := prefix +:+ "-" +:+ name +:+ "-" +:+ suffix in
  let maxLength := match customLength with
                   | [] => meta_util.DNS1123LabelMaxLength
                   | custom :: _ => custom
                   end in
  String.get 0 out = Some a0 → a0 ≠ "-"%char →
  (j < (maxLength + 1) / 2)%nat → String.get j out = Some a → a ≠ "-"%char →
  String.get j (meta_util.ValidNameWithPrefixNSuffix prefix name suffix customLength)
  = Some a.
Proof.
  intros out maxLength H0 Hne0 Hj Hget Hne.
  unfold meta_util.ValidNameWithPrefixNSuffix. fold out. fold maxLength.
  destruct (len out <=? maxLength)%nat; unfold Trim.
  - rewrite (TrimLeft_kept _ _ a0) by done. by apply get_TrimRight.
  - rewrite (TrimLeft_kept _ _ a0).
    + apply get_TrimRight; [|done]. by apply get_slice_to_app.
    + apply get_slice_to_app; [|done].
      destruct ((maxLength + 1) / 2)%nat; [lia|lia].
    + done.
Qed.

End GoStringFacts.

(** The byte at position [j < 32] of the joined name, when it is not
    ["-"], is the byte at position [j] of the binding's name. *)
Lemma getSidecarRoleBindingName_byte name kind j :
  (j < 32)%nat →
  match String.get j (apis.StashSidecarClusterRole +:+ "-"
                      +:+ GoString.ToLower kind +:+ "-" +:+ name) with
  | Some a => a ≠ "-"%char →
              String.get j (getSidecarRoleBindingName name kind) = Some a
  | None => True
  end.
Proof.
  intros Hj.
  destruct (String.get j _) as [a|] eqn:Hget; [|done]. intros Hne.
  unfold getSidecarRoleBindingName.
  apply (get_ValidNameWithPrefixNSuffix _ _ _ [] j a "s"%char); done.
Qed.

Ltac names_differ_at j :=
  let Heq := fresh "Heq" in
  intros Heq;
  match type of Heq with
  | getSidecarRoleBindingName ?n1 ?k1 = getSidecarRoleBindingName ?n2 ?k2 =>
      let H1 := fresh "H1" in
      let H2 := fresh "H2" in
      pose proof (getSidecarRoleBindingName_byte n1 k1 j ltac:(lia)) as H1;
      pose proof (getSidecarRoleBindingName_byte n2 k2 j ltac:(lia)) as H2;
      apply (f_equal (String.get j)) in Heq;
      cbn -[getSidecarRoleBindingName] in H1, H2;
      rewrite H1, H2 in Heq by discriminate;
      discriminate Heq
  end.

Lemma roleBindings_request_elsewhere {A} kc (serve : Cluster → Cluster * result A)
    st (k : ObjectKey) :
  (∀ cl, roleBindings (serve cl).1 !! k = roleBindings cl !! k) →
  roleBindings (cluster (request kc serve st).1) !! k
  = roleBindings (cluster st) !! k.
Proof.
  intros Hserve. unfold request.
  destruct (faults kc (requests st)); [done|].
  specialize (Hserve (cluster st)). by destruct (serve (cluster st)).
Qed.

(** C9. The binding an ensure-call writes is the one named
    [getSidecarRoleBindingName owner.Name owner.Kind] in the given
    namespace, a function of the owner's kind and name alone: no other
    binding changes, whatever the outcome. And the name separates the
    five workload kinds: two workloads of different kinds never get the
    same binding name, whatever their names are (the kind shows within
    the first half of the name, which no cut removes). *)
Theorem sidecar_binding_name_by_kind_and_name :
  (∀ kc owner ns sa labels st k,
     k ≠ (ns, getSidecarRoleBindingName (metav1.Name owner) (metav1.Kind owner)) →
     roleBindings (cluster (rbac.EnsureSidecarRoleBinding kc owner ns sa labels st).1) !! k
     = roleBindings (cluster st) !! k)
  ∧ (∀ kind1 kind2 name1 name2,
       kind1 ∈ apis.SupportedKinds → kind2 ∈ apis.SupportedKinds →
       kind1 ≠ kind2 →
       getSidecarRoleBindingName name1 kind1 ≠ getSidecarRoleBindingName name2 kind2).
Proof.
  split.
  - intros kc owner ns sa labels st k Hk.
    unfold rbac.EnsureSidecarRoleBinding, CreateOrPatchRoleBinding, bind.
    rewrite try_run.
    set (name := getSidecarRoleBindingName _ _) in *.
    assert (Hget : roleBindings (cluster (GetRoleBinding kc ns name st).1) !! k
                   = roleBindings (cluster st) !! k).
    { apply roleBindings_request_elsewhere. intros cl.
      by destruct (roleBindings cl !! (ns, name)). }
    destruct (GetRoleBinding kc ns name st) as [st1 [b|e]]; cbn [fst snd] in *.
    + unfold PatchRoleBinding. case_decide; [done|].
      rewrite <- Hget. apply roleBindings_request_elsewhere. intros cl.
      destruct (roleBindings cl !! (ns, name)); [|done].
      cbn. by rewrite lookup_insert_ne.
    + destruct (kerr.IsNotFound e); [|done].
      rewrite <- Hget. apply roleBindings_request_elsewhere. intros cl.
      destruct (roleBindings cl !! (ns, name)); [done|].
      cbn. by rewrite lookup_insert_ne.
  - intros kind1 kind2 name1 name2 H1 H2 Hne.
    unfold apis.SupportedKinds in H1, H2.
    repeat (apply elem_of_cons in H1 as [-> | H1]);
      try (by apply elem_of_nil in H1);
      repeat (apply elem_of_cons in H2 as [-> | H2]);
      try (by apply elem_of_nil in H2);
      try done;
      first [ names_differ_at 14%nat | names_differ_at 15%nat
            | names_differ_at 21%nat ].
Qed.

Lemma sidecar_binding_name_by_kind_and_name_witness :
  roleBindings
    (cluster (rbac.EnsureSidecarRoleBinding Demo.reliable Demo.byStatefulSet "ns"
                "stash" ∅ Demo.state0).1) !! ("ns", "stash-sidecar-deployment-web")
  = roleBindings (cluster Demo.state0) !! ("ns", "stash-sidecar-deployment-web")
  ∧ getSidecarRoleBindingName "web" apis.KindDeployment
    ≠ getSidecarRoleBindingName "web" apis.KindDaemonSet.
Proof.
  destruct sidecar_binding_name_by_kind_and_name as [Hkey Hinj]. split.
  - apply Hkey. vm_compute. discriminate.
  - apply Hinj; [vm_compute; set_solver | vm_compute; set_solver | discriminate].
Defined.

(** ** The Restic watcher *)

Lemma GetQueue_Eventf q ref t reason msg c :
  controller.GetQueue q (controller.Eventf ref t reason msg c)
  = controller.GetQueue q c.
Proof. by destruct q. Qed.

Lemma GetQueue_warnInvalid GetReference q r err c :
  controller.GetQueue q (controller.warnInvalid GetReference r err c)
  = controller.GetQueue q c.
Proof.
  unfold controller.warnInvalid.
  destruct (GetReference r); [apply GetQueue_Eventf | done].
Qed.

Lemma recorder_warnInvalid GetReference r err c :
  controller.recorder (controller.warnInvalid GetReference r err c)
  = match GetReference r with
    | Ok ref => (controller.recorder c ++ [invalidResticWarning ref err])%list
    | Err _ => controller.recorder c
    end.
Proof. unfold controller.warnInvalid. by destruct (GetReference r). Qed.

(** The claim of C7 fails as stated: this Restic is invalid, no
    reference can be built for it, and the add handler then records no
    event at all. *)
Lemma AddFunc_invalid_unresolved_records_nothing :
  Demo.checkSchedule Demo.badRestic = Some (Errorf "invalid cron expression")
  ∧ controller.recorder
      (controller.AddFunc Demo.checkSchedule Demo.unresolved
         (controller.ObjRestic Demo.badRestic) Demo.controller0)
    = controller.recorder Demo.controller0.
Proof. split; reflexivity. Qed.

(** C7, amended. When the validity predicate fails on a Restic received
    by the add handler, or on the new Restic received by the update
    handler, no queue of the controller changes: the object is not
    enqueued. The handler records one warning event with reason
    InvalidRestic against the object when a reference to the object can
    be built, and records nothing otherwise. *)
Theorem watcher_drops_invalid_restic
    (IsValid : controller.Restic → option error)
    (GetReference : controller.Restic → result controller.ObjectReference)
    (ResticEqual : controller.Restic → controller.Restic → bool)
    (oldRes r : controller.Restic) (err : error) (c : controller.StashController) :
  let added := controller.AddFunc IsValid GetReference (controller.ObjRestic r) c in
  let updated :=
    controller.UpdateFunc IsValid GetReference ResticEqual
      (controller.ObjRestic oldRes) (controller.ObjRestic r) c in
  let recorded :=
    match GetReference r with
    | Ok ref => (controller.recorder c ++ [invalidResticWarning ref err])%list
    | Err _ => controller.recorder c
    end in
  IsValid r = Some err →
  (∀ q, controller.GetQueue q added = controller.GetQueue q c)
  ∧ (∀ q, controller.GetQueue q updated = controller.GetQueue q c)
  ∧ controller.recorder added = recorded
  ∧ controller.recorder updated = recorded.
Proof.
  intros added updated recorded Hinvalid. subst added updated recorded.
  unfold controller.AddFunc, controller.UpdateFunc. rewrite Hinvalid.
  repeat split; intros; auto using GetQueue_warnInvalid, recorder_warnInvalid.
Qed.

Lemma watcher_drops_invalid_restic_witness :
  (∀ q, controller.GetQueue q
          (controller.AddFunc Demo.checkSchedule Demo.resolved
             (controller.ObjRestic Demo.badRestic) Demo.controller0)
        = controller.GetQueue q Demo.controller0)
  ∧ (∀ q, controller.GetQueue q
            (controller.UpdateFunc Demo.checkSchedule Demo.resolved Demo.sameSchedule
               (controller.ObjRestic Demo.goodRestic)
               (controller.ObjRestic Demo.badRestic) Demo.controller0)
          = controller.GetQueue q Demo.controller0)
  ∧ controller.recorder
      (controller.AddFunc Demo.checkSchedule Demo.resolved
         (controller.ObjRestic Demo.badRestic) Demo.controller0)
    = [invalidResticWarning
         {| controller.RefNamespace := "ns"; controller.RefName := "nightly" |}
         (Errorf "invalid cron expression")]
  ∧ controller.recorder
      (controller.UpdateFunc Demo.checkSchedule Demo.resolved Demo.sameSchedule
         (controller.ObjRestic Demo.goodRestic)
         (controller.ObjRestic Demo.badRestic) Demo.controller0)
    = [invalidResticWarning
         {| controller.RefNamespace := "ns"; controller.RefName := "nightly" |}
         (Errorf "invalid cron expression")].
Proof.
  apply (watcher_drops_invalid_restic Demo.checkSchedule Demo.resolved
           Demo.sameSchedule Demo.goodRestic Demo.badRestic
           (Errorf "invalid cron expression") Demo.controller0).
  reflexivity.
Defined.

(** ** [ScaleDownWorkload], block by block *)

Lemma bind_assoc {A B C} (m : M A) (k : A → M B) (h : B → M C) st :
  bind (bind m k) h st = bind m (fun a => bind (k a) h) st.
Proof. unfold bind. destruct (m st) as [st' [a|e]]; done. Qed.

Lemma bind_ext {A B} (m : M A) (k k' : A → M B) st :
  (∀ a st', k a st' = k' a st') → bind m k st = bind m k' st.
Proof. intros H. unfold bind. destruct (m st) as [st' [a|e]]; [apply H | done]. Qed.

Lemma ScaleDownWorkload_blocks c st :
  scale.ScaleDownWorkload c st =
    (scaleDownKind c Deployments ;;;
     scaleDownKind c ReplicationControllers ;;;
     scaleDownKind c ReplicaSets ;;;
     draining c ;;;
     scaleUpKind c Deployments ;;;
     scaleUpKind c ReplicationControllers ;;;
     scaleUpKind c ReplicaSets ;;;
     deletePods c ;;;
     ret tt) st.
Proof.
  unfold scale.ScaleDownWorkload, scaleDownKind, draining, scaleUpKind, deletePods.
  repeat first [ rewrite bind_assoc | apply bind_ext; intros ? ? ].
  reflexivity.
Qed.

Lemma ScaleDownWorkload_phases c st :
  scale.ScaleDownWorkload c st = (scalingDown c ;;; draining c ;;; scalingUp c) st.
Proof.
  rewrite ScaleDownWorkload_blocks. unfold scalingDown, scalingUp.
  rewrite bind_assoc. apply bind_ext. intros _ st1.
  rewrite bind_assoc. reflexivity.
Qed.

(** ** Invariants kept by the monad and the client *)

Section Keeps.

Context (P : Cluster → Prop).

Lemma keeps_ret {A} (a : A) : keeps P (ret a).
Proof. by intros st. Qed.

Lemma keeps_fail {A} e : keeps P (@fail A e).
Proof. by intros st. Qed.

Lemma keeps_Infof line : keeps P (Infof line).
Proof. by intros st. Qed.

Lemma keeps_bind {A B} (m : M A) (k : A → M B) :
  keeps P m → (∀ a, keeps P (k a)) → keeps P (bind m k).
Proof.
  intros Hm Hk st HP. unfold bind. specialize (Hm st HP).
  destruct (m st) as [st' [a|e]]; [by apply Hk | done].
Qed.

Lemma keeps_try {A} (m : M A) : keeps P m → keeps P (try m).
Proof. intros Hm st HP. rewrite try_run. by apply Hm. Qed.

Lemma keeps_forEach {A} (items : list A) (body : A → M unit) :
  (∀ x, x ∈ items → keeps P (body x)) → keeps P (forEach items body).
Proof.
  induction items as [|x items IH]; intros Hbody; [apply keeps_ret|].
  cbn. apply keeps_bind.
  - apply Hbody, list_elem_of_here.
  - intros _. apply IH. intros y Hy. by apply Hbody, list_elem_of_further.
Qed.

Lemma keeps_request {A} kc (serve : Cluster → Cluster * result A) :
  (∀ cl, P cl → P (serve cl).1) → keeps P (request kc serve).
Proof.
  intros Hserve st HP. unfold request.
  destruct (faults kc (requests st)); [done|].
  specialize (Hserve _ HP). by destruct (serve (cluster st)).
Qed.

Lemma keeps_List kc r ns sel : keeps P (List kc r ns sel).
Proof. by apply keeps_request. Qed.

Lemma keeps_ListPods kc ns sel : keeps P (ListPods kc ns sel).
Proof. by apply keeps_request. Qed.

(** What a served list returns reflects the store it was served from. *)
Lemma keeps_listed {B} kc r ns sel (Q : list (Item Scalable) → Prop)
    (k : result (list (Item Scalable)) → M B) :
  (∀ cl, P cl → Q (filter (selected Labels ns sel) (map_to_list (store r cl)))) →
  (∀ items, Q items → keeps P (k (Ok items))) →
  (∀ e, keeps P (k (Err e))) →
  keeps P (bind (try (List kc r ns sel)) k).
Proof.
  intros HQ Hok Herr st HP. unfold bind. rewrite try_run.
  unfold List, request. destruct (faults kc (requests st)) as [e|]; cbn.
  - by apply Herr.
  - apply Hok; [by apply HQ | done].
Qed.

Hypothesis pods_irrelevant : ∀ cl p, P cl → P (setPods p cl).

Lemma keeps_sleep kc : keeps P (sleep kc).
Proof. intros st HP. by apply pods_irrelevant. Qed.

Lemma keeps_DeletePod kc ns name : keeps P (DeletePod kc ns name).
Proof.
  apply keeps_request. intros cl HP.
  destruct (pods cl !! (ns, name)); [by apply pods_irrelevant | done].
Qed.

Lemma keeps_PollImmediate kc ticks condition :
  keeps P condition → keeps P (wait.PollImmediate kc ticks condition).
Proof.
  intros Hcond. induction ticks as [|ticks IH]; cbn.
  - apply keeps_bind; [done|]. intros []; [apply keeps_ret | apply keeps_fail].
  - apply keeps_bind; [done|]. intros []; [apply keeps_ret|].
    apply keeps_bind; [apply keeps_sleep | done].
Qed.

Lemma keeps_draining c : keeps P (draining c).
Proof.
  unfold draining. apply keeps_bind.
  - apply keeps_try, keeps_PollImmediate. unfold scale.scaledDown.
    apply keeps_bind; [apply keeps_try, keeps_ListPods|].
    intros []; apply keeps_ret.
  - intros []; [apply keeps_ret | apply keeps_Infof].
Qed.

Lemma keeps_deletePods c : keeps P (deletePods c).
Proof.
  unfold deletePods. apply keeps_bind; [apply keeps_try, keeps_ListPods|].
  intros [items|e]; [|apply keeps_ret].
  destruct (0 <? length items)%nat; [|apply keeps_ret].
  apply keeps_forEach. intros pod _. unfold deletePod.
  destruct (scale.isDaemonOrStatefulSetPod _); [|apply keeps_ret].
  apply keeps_bind; [apply keeps_try, keeps_DeletePod|].
  intros []; [apply keeps_ret | apply keeps_Infof].
Qed.

End Keeps.

(** ** Replica sets owned by a deployment *)

Section OwnedReplicaSet.

Context (k : ObjectKey) (rs : Scalable).
Hypothesis owned : apps_util.IsOwnedByDeployment (OwnerReferences rs) = true.

Abbreviation stays := (storesReplicaSet k rs).

Lemma stays_PatchObject kc r it mutate :
  (r = ReplicaSets → it.1 ≠ k) → keeps stays (PatchObject kc r it mutate).
Proof.
  intros Hk. unfold PatchObject. case_decide; [apply keeps_ret|].
  apply keeps_request. intros cl Hcl.
  destruct (store r cl !! it.1); [|done]. cbn. unfold stays in *.
  destruct r; cbn; try done. rewrite lookup_insert_ne; [done|]. by apply Hk.
Qed.

Lemma stays_patchLoop kc r mutate items :
  (∀ it, it ∈ items → it.1 = k → it.2 = rs) →
  keeps stays (patchLoop kc r mutate items).
Proof.
  intros Hitems. apply keeps_forEach. intros it Hit.
  destruct (guardOf r it) eqn:Hguard; [|apply keeps_ret].
  apply stays_PatchObject. intros -> Hkey.
  cbn in Hguard. unfold notOwned in Hguard.
  rewrite (Hitems it Hit Hkey), owned in Hguard. done.
Qed.

Lemma stays_listed r ns sel cl it :
  stays cl → it ∈ filter (selected Labels ns sel) (map_to_list (store r cl)) →
  r = ReplicaSets → it.1 = k → it.2 = rs.
Proof.
  intros Hcl Hit -> Hkey. apply list_elem_of_filter in Hit as [_ Hit].
  destruct it as [k' w]. apply elem_of_map_to_list in Hit. cbn in *.
  subst k'. unfold stays in Hcl. congruence.
Qed.

Lemma stays_scaleDownKind c r : keeps stays (scaleDownKind c r).
Proof.
  unfold scaleDownKind.
  apply (keeps_listed _ _ _ _ _
           (fun items => r = ReplicaSets → ∀ it, it ∈ items → it.1 = k → it.2 = rs)).
  - intros cl Hcl Hr it Hit. by eapply stays_listed.
  - intros items Hitems. destruct (decide (r = ReplicaSets)) as [Hr|Hr].
    + apply stays_patchLoop. by apply Hitems.
    + apply keeps_forEach. intros it _.
      destruct (guardOf r it); [|apply keeps_ret]. by apply stays_PatchObject.
  - intros e. apply keeps_ret.
Qed.

Lemma stays_scaleUpKind c r : keeps stays (scaleUpKind c r).
Proof.
  unfold scaleUpKind.
  apply (keeps_listed _ _ _ _ _
           (fun items => r = ReplicaSets → ∀ it, it ∈ items → it.1 = k → it.2 = rs)).
  - intros cl Hcl Hr it Hit. by eapply stays_listed.
  - intros items Hitems. destruct (0 <? length items)%nat; [|apply keeps_ret].
    destruct (decide (r = ReplicaSets)) as [Hr|Hr].
    + apply stays_patchLoop. by apply Hitems.
    + apply keeps_forEach. intros it _.
      destruct (guardOf r it); [|apply keeps_ret]. by apply stays_PatchObject.
  - intros e. apply keeps_ret.
Qed.

Lemma stays_ScaleDownWorkload c : keeps stays (scale.ScaleDownWorkload c).
Proof.
  intros st Hst. rewrite ScaleDownWorkload_blocks. revert st Hst.
  assert (Hpods : ∀ cl p, stays cl → stays (setPods p cl)) by done.
  repeat (apply keeps_bind;
          [first [ apply stays_scaleDownKind | apply stays_scaleUpKind
                 | by apply keeps_draining | by apply keeps_deletePods ]
          | intros _ ]).
  apply keeps_ret.
Qed.

End OwnedReplicaSet.

Lemma elem_of_push key' key keys :
  key' ∈ controller.push key keys → key' ∈ keys ∨ key' = key.
Proof.
  unfold controller.push. case_decide; [by left|].
  intros Hin. apply elem_of_app in Hin as [Hin | Hin]; [by left|].
  right. by apply list_elem_of_singleton in Hin.
Qed.

Lemma rsQueue_Add q key c :
  controller.rsQueue (controller.Add q key c)
  = if decide (q = controller.RsQueue)
    then controller.push key (controller.rsQueue c) else controller.rsQueue c.
Proof. done. Qed.

Lemma rsLister_addAll q resources c :
  controller.rsLister (controller.addAll q resources c) = controller.rsLister c.
Proof.
  unfold controller.addAll. revert c.
  induction resources as [|x resources IH]; intros c; [done|].
  cbn. by rewrite IH.
Qed.

Lemma rsQueue_addAll q resources c :
  q ≠ controller.RsQueue →
  controller.rsQueue (controller.addAll q resources c) = controller.rsQueue c.
Proof.
  intros Hq. unfold controller.addAll. revert c.
  induction resources as [|x resources IH]; intros c; [done|].
  cbn. rewrite IH, rsQueue_Add. by rewrite decide_False.
Qed.

Lemma rsQueue_skipping_owned (resources : list (Item controller.Cached)) c key :
  key ∈ controller.rsQueue
          (foldl (fun c resource =>
                    if apps_util.IsOwnedByDeployment
                         (controller.CachedOwners resource.2) then c
                    else controller.Add controller.RsQueue
                           (controller.MetaNamespaceKey resource.1) c)
                 c resources) →
  key ∈ controller.rsQueue c
  ∨ ∃ it, it ∈ resources
          ∧ apps_util.IsOwnedByDeployment (controller.CachedOwners it.2) = false
          ∧ key = controller.MetaNamespaceKey it.1.
Proof.
  revert c. induction resources as [|x resources IH]; intros c; cbn; [by left|].
  intros Hkey. apply IH in Hkey as [Hkey | (it & Hit & Hfree & ->)].
  - destruct (apps_util.IsOwnedByDeployment _) eqn:Hx; [by left|].
    rewrite rsQueue_Add, decide_True in Hkey by done.
    apply elem_of_push in Hkey as [Hkey | ->]; [by left|].
    right. exists x. set_solver.
  - right. exists it. set_solver.
Qed.

(** C4. A replica set whose owner references include a deployment is
    the same object, with the same replica count and annotations, after
    a batch run of [ScaleDownWorkload] (its scale-down and its scale-up
    loops) as before, on every cluster, for every selector and whatever
    requests fail. And [EnsureSidecar] adds to the replica-set queue
    only keys of cached replica sets that no deployment owns. *)
Theorem deployment_owned_replicaset_left_alone :
  (∀ (c : scale.Controller) (st : State) (k : ObjectKey) (rs : Scalable),
     replicaSets (cluster st) !! k = Some rs →
     apps_util.IsOwnedByDeployment (OwnerReferences rs) = true →
     replicaSets (cluster (scale.ScaleDownWorkload c st).1) !! k = Some rs)
  ∧ (∀ GetReference LabelSelectorAsSelector (restic : controller.Restic)
       (c : controller.StashController) (key : string),
       key ∈ controller.rsQueue
               (controller.EnsureSidecar GetReference LabelSelectorAsSelector
                  restic c) →
       key ∈ controller.rsQueue c
       ∨ ∃ k cached,
           controller.rsLister c !! k = Some cached
           ∧ apps_util.IsOwnedByDeployment (controller.CachedOwners cached) = false
           ∧ key = controller.MetaNamespaceKey k).
Proof.
  split.
  - intros c st k rs Hrs Howned. by apply (stays_ScaleDownWorkload k rs Howned c st).
  - intros GetReference LabelSelectorAsSelector restic c key.
    unfold controller.EnsureSidecar.
    destruct (LabelSelectorAsSelector _) as [sel|err].
    + cbn zeta. intros Hkey.
      apply rsQueue_skipping_owned in Hkey as [Hkey | (it & Hit & Hfree & ->)].
      * left. by rewrite !rsQueue_addAll in Hkey.
      * right. rewrite !rsLister_addAll in Hit. unfold controller.Lister in Hit.
        apply list_elem_of_filter in Hit as [_ Hit]. destruct it as [k cached].
        apply elem_of_map_to_list in Hit. by exists k, cached.
    + destruct (GetReference restic); by left.
Qed.

Example EnsureSidecar_skips_owned_replicaset :
  controller.rsQueue
    (controller.EnsureSidecar Demo.resolved Demo.parseSelector Demo.goodRestic
       Demo.controller0) = ["ns/cache"].
Proof. vm_compute. reflexivity. Qed.

Lemma deployment_owned_replicaset_left_alone_witness :
  replicaSets (cluster (scale.ScaleDownWorkload (Demo.controllerOn Demo.reliable)
                          Demo.state0).1) !! ("ns", "web-7d4f")
  = Some (Demo.workload ∅ [Demo.byDeployment] 3)
  ∧ ("ns/cache" ∈ controller.rsQueue Demo.controller0
     ∨ ∃ k cached,
         controller.rsLister Demo.controller0 !! k = Some cached
         ∧ apps_util.IsOwnedByDeployment (controller.CachedOwners cached) = false
         ∧ "ns/cache" = controller.MetaNamespaceKey k).
Proof.
  destruct deployment_owned_replicaset_left_alone as [Hscale Hqueue]. split.
  - apply Hscale; vm_compute; reflexivity.
  - apply (Hqueue Demo.resolved Demo.parseSelector Demo.goodRestic).
    rewrite EnsureSidecar_skips_owned_replicaset. apply list_elem_of_here.
Defined.

(** ** The drain wait *)

Lemma scaledDown_run c st :
  scale.scaledDown c st =
    ({| cluster := cluster st; requests := S (requests st); logs := logs st |},
     Ok (match faults (scale.k8sClient c) (requests st) with
         | Some _ => false
         | None =>
             forallb (fun pod : Item Pod =>
                        scale.isDaemonOrStatefulSetPod (PodOwnerReferences pod.2))
               (filter (selected PodLabels (scale.Namespace (scale.opt c))
                          (scale.Selector (scale.opt c)))
                  (map_to_list (pods (cluster st))))
         end)).
Proof.
  unfold scale.scaledDown, bind. rewrite try_run. unfold ListPods, request.
  destruct (faults _ _); cbn; [done|]. by destruct (cluster st).
Qed.

Lemma drainedAt_true c st :
  drainedAt c st = true ↔
  faults (scale.k8sClient c) (requests st) = None
  ∧ ∀ k pod, pods (cluster st) !! k = Some pod →
      selected PodLabels (scale.Namespace (scale.opt c))
        (scale.Selector (scale.opt c)) (k, pod) →
      scale.isDaemonOrStatefulSetPod (PodOwnerReferences pod) = true.
Proof.
  unfold drainedAt. rewrite scaledDown_run. cbn [snd].
  destruct (faults _ _) as [e|]; [by split; [|intros []]|].
  rewrite forallb_forall. split.
  - intros Hall. split; [done|]. intros k pod Hpod Hsel.
    apply (Hall (k, pod)). apply list_elem_of_In, list_elem_of_filter.
    split; [done|]. by apply elem_of_map_to_list.
  - intros [_ Hall] [k pod] Hin.
    apply list_elem_of_In, list_elem_of_filter in Hin as [Hsel Hin].
    apply elem_of_map_to_list in Hin. by apply (Hall k pod).
Qed.

Lemma drainedAt_run c st :
  scale.scaledDown c st =
    ({| cluster := cluster st; requests := S (requests st); logs := logs st |},
     Ok (drainedAt c st)).
Proof. unfold drainedAt. by rewrite scaledDown_run. Qed.

Lemma attemptState_S c i st :
  attemptState c (S i) st =
    attemptState c i
      (sleep (scale.k8sClient c)
         {| cluster := cluster st; requests := S (requests st); logs := logs st |}).1.
Proof. cbn [attemptState]. by rewrite drainedAt_run. Qed.

Lemma PollImmediate_scaledDown c ticks st :
  ((∃ i, (i ≤ ticks)%nat ∧ drainedAt c (attemptState c i st) = true) →
   (wait.PollImmediate (scale.k8sClient c) ticks (scale.scaledDown c) st).2 = Ok tt)
  ∧ ((∀ i, (i ≤ ticks)%nat → drainedAt c (attemptState c i st) = false) →
     (wait.PollImmediate (scale.k8sClient c) ticks (scale.scaledDown c) st).2
     = Err ErrWaitTimeout).
Proof.
  revert st. induction ticks as [|ticks IH]; intros st.
  - cbn [wait.PollImmediate]. unfold bind. rewrite drainedAt_run. split.
    + intros (i & Hi & Hd). assert (i = 0)%nat as -> by lia.
      cbn [attemptState] in Hd. by rewrite Hd.
    + intros Hnever. specialize (Hnever 0%nat ltac:(lia)).
      cbn [attemptState] in Hnever. by rewrite Hnever.
  - cbn [wait.PollImmediate]. unfold bind. rewrite drainedAt_run.
    destruct (drainedAt c st) eqn:Hnow.
    + split; [done|]. intros Hnever. specialize (Hnever 0%nat ltac:(lia)).
      cbn [attemptState] in Hnever. congruence.
    + set (st' := {| cluster := cluster st; requests := S (requests st);
                     logs := logs st |}).
      destruct (IH (sleep (scale.k8sClient c) st').1) as [IHok IHout].
      change (sleep (scale.k8sClient c) st')
        with ((sleep (scale.k8sClient c) st').1, Ok tt).
      subst st'. split.
      * intros (i & Hi & Hd). destruct i as [|i]; [cbn [attemptState] in Hd; congruence|].
        apply IHok. exists i. split; [lia|]. by rewrite <- attemptState_S.
      * intros Hnever. apply IHout. intros i Hi. rewrite <- attemptState_S.
        apply Hnever. lia.
Qed.

Lemma draining_timeout c st1 st2 e :
  scale.waitUntilScaledDown c st1 = (st2, Err e) →
  draining c st1 = (logged (Error e) st2, Ok tt).
Proof. intros Hwait. unfold draining, bind. rewrite try_run, Hwait. done. Qed.

(** C5. One attempt of the drain poll succeeds exactly when its list
    request is served and every pod under the selector is owned by a
    daemon set or a stateful set. [waitUntilScaledDown] returns nil when
    one of its attempts (the first, and one after each interval that
    fits in the timeout) succeeds, and the timeout error when none does.
    When it returns an error [ScaleDownWorkload] writes it to the log
    and goes on with the scale-up phase: the run is the scale-up phase
    started in the state the wait left, with the one log line added. *)
Theorem drain_wait_succeeds_when_drained_and_timeout_is_logged
    (c : scale.Controller) (st : State) :
  (∀ s : State,
     drainedAt c s = true ↔
     faults (scale.k8sClient c) (requests s) = None
     ∧ ∀ k pod, pods (cluster s) !! k = Some pod →
         selected PodLabels (scale.Namespace (scale.opt c))
           (scale.Selector (scale.opt c)) (k, pod) →
         scale.isDaemonOrStatefulSetPod (PodOwnerReferences pod) = true)
  ∧ ((∃ i, (i ≤ pollTicks (scale.k8sClient c))%nat
           ∧ drainedAt c (attemptState c i st) = true) →
     (scale.waitUntilScaledDown c st).2 = Ok tt)
  ∧ ((∀ i, (i ≤ pollTicks (scale.k8sClient c))%nat →
           drainedAt c (attemptState c i st) = false) →
     (scale.waitUntilScaledDown c st).2 = Err ErrWaitTimeout)
  ∧ (∀ st1 st2 e,
       scalingDown c st = (st1, Ok tt) →
       scale.waitUntilScaledDown c st1 = (st2, Err e) →
       scale.ScaleDownWorkload c st = scalingUp c (logged (Error e) st2)).
Proof.
  split; [intros s; apply drainedAt_true|].
  split; [apply PollImmediate_scaledDown|].
  split; [apply PollImmediate_scaledDown|].
  intros st1 st2 e Hdown Hwait. rewrite ScaleDownWorkload_phases.
  rewrite (bind_Ok _ _ _ _ _ Hdown).
  by rewrite (bind_Ok _ _ _ _ _ (draining_timeout _ _ _ _ Hwait)).
Qed.

Lemma drain_wait_succeeds_when_drained_and_timeout_is_logged_witness :
  (scale.waitUntilScaledDown (Demo.controllerOn Demo.reliable) Demo.state0).2 = Ok tt
  ∧ (scale.waitUntilScaledDown (Demo.controllerOn Demo.stuck) Demo.state0).2
    = Err ErrWaitTimeout
  ∧ scale.ScaleDownWorkload (Demo.controllerOn Demo.stuck) Demo.state0
    = scalingUp (Demo.controllerOn Demo.stuck)
        (logged (Error ErrWaitTimeout)
           (scale.waitUntilScaledDown (Demo.controllerOn Demo.stuck)
              (scalingDown (Demo.controllerOn Demo.stuck) Demo.state0).1).1).
Proof.
  split; [|split].
  - apply (drain_wait_succeeds_when_drained_and_timeout_is_logged
             (Demo.controllerOn Demo.reliable) Demo.state0).
    exists 1%nat. split; [vm_compute; lia | vm_compute; reflexivity].
  - apply (drain_wait_succeeds_when_drained_and_timeout_is_logged
             (Demo.controllerOn Demo.stuck) Demo.state0).
    intros i Hi.
    do 4 (destruct i as [|i]; [vm_compute; reflexivity|]).
    vm_compute in Hi. lia.
  - destruct (drain_wait_succeeds_when_drained_and_timeout_is_logged
                (Demo.controllerOn Demo.stuck) Demo.state0) as (_ & _ & _ & Hrun).
    apply (Hrun (scalingDown (Demo.controllerOn Demo.stuck) Demo.state0).1
             (scale.waitUntilScaledDown (Demo.controllerOn Demo.stuck)
                (scalingDown (Demo.controllerOn Demo.stuck) Demo.state0).1).1
             ErrWaitTimeout).
    + vm_compute. reflexivity.
    + vm_compute. reflexivity.
Defined.

(** ** A batch run on a connection without faults *)

Lemma applyPatch_empty obj : applyPatch emptyPatch obj = obj.
Proof.
  destruct obj as [l a o n]. unfold applyPatch, setReplicas, setAnnotations. cbn.
  f_equal. apply map_eq. intros i. rewrite lookup_merge, lookup_empty.
  by destruct (a !! i).
Qed.

Lemma setStore_store r cl : setStore r (store r cl) cl = cl.
Proof. by destruct r, cl. Qed.

Lemma setStore_setStore r m m' cl : setStore r m' (setStore r m cl) = setStore r m' cl.
Proof. by destruct r. Qed.

Lemma pods_setStore r m cl : pods (setStore r m cl) = pods cl.
Proof. by destruct r. Qed.

Lemma filter_map_to_list_NoDup {V} (P : Item V → Prop) `{!∀ x, Decision (P x)}
    (m : gmap ObjectKey V) :
  NoDup (filter P (map_to_list m)).*1.
Proof.
  apply (sublist_NoDup _ (map_to_list m).*1); [apply NoDup_fst_map_to_list|].
  apply fmap_sublist, sublist_filter.
Qed.

Section Faultless.

Context (kc : Client).
Hypothesis no_faults : faultless kc.

Lemma PatchObject_effect r it mutate st :
  store r (cluster st) !! it.1 = Some it.2 →
  Labels (mutate it.2) = Labels it.2 →
  OwnerReferences (mutate it.2) = OwnerReferences it.2 →
  ∃ n, PatchObject kc r it mutate st =
         ({| cluster := setStore r (<[it.1 := mutate it.2]> (store r (cluster st)))
                          (cluster st);
             requests := n; logs := logs st |}, Ok tt).
Proof.
  intros Hit Hl Ho.
  destruct (decide (CreateTwoWayMergePatch it.2 (mutate it.2) = emptyPatch))
    as [Hempty|Hpatch].
  - exists (requests st). rewrite PatchObject_unchanged by done.
    assert (mutate it.2 = it.2) as ->.
    { rewrite <- (applyPatch_diff it.2 (mutate it.2)) by done.
      rewrite Hempty. apply applyPatch_empty. }
    rewrite insert_id, setStore_store by done. by destruct st.
  - exists (S (requests st)). by apply PatchObject_served.
Qed.

Lemma patchLoop_effect r mutate items st :
  NoDup items.*1 →
  (∀ it, it ∈ items → store r (cluster st) !! it.1 = Some it.2) →
  (∀ it w, Labels (mutate it w) = Labels w
           ∧ OwnerReferences (mutate it w) = OwnerReferences w) →
  ∃ m' n,
    patchLoop kc r mutate items st =
      ({| cluster := setStore r m' (cluster st); requests := n; logs := logs st |},
       Ok tt)
    ∧ (∀ it, it ∈ items →
         m' !! it.1 = Some (if guardOf r it then mutate it it.2 else it.2))
    ∧ (∀ k, k ∉ items.*1 → m' !! k = store r (cluster st) !! k).
Proof.
  intros Hdup Hitems Hmutate. revert st Hdup Hitems.
  induction items as [|x items IH]; intros st Hdup Hitems.
  - exists (store r (cluster st)), (requests st). split; [|split]; [|set_solver..].
    cbn. rewrite setStore_store. by destruct st.
  - rewrite fmap_cons in Hdup. apply NoDup_cons in Hdup as [Hx Hdup].
    assert (Hstep : ∃ n1,
      (if guardOf r x then PatchObject kc r x (mutate x) else ret tt) st =
        ({| cluster := setStore r
              (if guardOf r x then <[x.1 := mutate x x.2]> (store r (cluster st))
               else store r (cluster st)) (cluster st);
            requests := n1; logs := logs st |}, Ok tt)).
    { destruct (guardOf r x).
      - apply PatchObject_effect; [apply Hitems, list_elem_of_here | apply Hmutate..].
      - exists (requests st). rewrite setStore_store. by destruct st. }
    destruct Hstep as [n1 Hstep].
    set (m1 := if guardOf r x then <[x.1 := mutate x x.2]> (store r (cluster st))
               else store r (cluster st)) in *.
    assert (Hm1 : ∀ k, k ≠ x.1 → m1 !! k = store r (cluster st) !! k).
    { intros k Hk. subst m1. destruct (guardOf r x); [|done].
      by rewrite lookup_insert_ne. }
    assert (Hm1x : m1 !! x.1 = Some (if guardOf r x then mutate x x.2 else x.2)).
    { subst m1. destruct (guardOf r x); [by rewrite lookup_insert_eq|].
      apply Hitems, list_elem_of_here. }
    destruct (IH {| cluster := setStore r m1 (cluster st); requests := n1;
                    logs := logs st |} Hdup) as (m' & n & Hrun & Hin & Hout).
    { intros it Hit. cbn.
      rewrite store_setStore, Hm1; [by apply Hitems, list_elem_of_further|].
      intros Heq. apply Hx. rewrite <- Heq. by apply list_elem_of_fmap_2. }
    exists m', n. split; [|split].
    + unfold patchLoop in *. cbn [forEach]. rewrite (bind_Ok _ _ _ _ _ Hstep).
      rewrite Hrun. cbn. by rewrite setStore_setStore.
    + intros it Hit. apply elem_of_cons in Hit as [-> | Hit]; [|by apply Hin].
      rewrite Hout by done. cbn. by rewrite store_setStore.
    + intros k Hk. rewrite fmap_cons in Hk. apply not_elem_of_cons in Hk as [Hk1 Hk2].
      rewrite Hout by done. cbn. rewrite store_setStore. by apply Hm1.
Qed.

Lemma listed_patchLoop_effect r ns sel mutate st :
  (∀ it w, Labels (mutate it w) = Labels w
           ∧ OwnerReferences (mutate it w) = OwnerReferences w) →
  ∃ st',
    bind (try (List kc r ns sel))
      (fun found => match found with
                    | Ok items => patchLoop kc r mutate items
                    | Err _ => ret tt
                    end) st = (st', Ok tt)
    ∧ logs st' = logs st
    ∧ pods (cluster st') = pods (cluster st)
    ∧ (∀ r', r' ≠ r → store r' (cluster st') = store r' (cluster st))
    ∧ (∀ k, store r (cluster st') !! k
            = patched r ns sel mutate k <$> store r (cluster st) !! k).
Proof.
  intros Hmutate. unfold bind. rewrite try_run. unfold List.
  rewrite request_served by apply no_faults. cbn [fst snd].
  set (items := filter (selected Labels ns sel) (map_to_list (store r (cluster st)))).
  set (st1 := {| cluster := cluster st; requests := S (requests st);
                 logs := logs st |}).
  assert (Hitems : ∀ it, it ∈ items ↔
            selected Labels ns sel it ∧ store r (cluster st) !! it.1 = Some it.2).
  { intros [k w]. subst items. rewrite list_elem_of_filter, elem_of_map_to_list.
    done. }
  destruct (patchLoop_effect r mutate items st1) as (m' & n & Hrun & Hin & Hout).
  { apply filter_map_to_list_NoDup. }
  { intros it Hit. by apply Hitems. }
  { done. }
  eexists. split; [exact Hrun|]. cbn.
  split; [done|]. split; [apply pods_setStore|].
  split; [intros r' Hr'; by apply store_setStore_ne|].
  intros k. rewrite store_setStore.
  destruct (store r (cluster st) !! k) as [w|] eqn:Hk; cbn.
  - unfold patched. case_decide as Hsel.
    + assert (Hit : (k, w) ∈ items) by by apply Hitems.
      apply Hin in Hit. cbn in Hit. by rewrite Hit.
    + rewrite Hout; [done|]. intros Hin'.
      apply list_elem_of_fmap in Hin' as ([k' w'] & -> & Hit).
      apply Hitems in Hit as [Hsel' Hlook]. cbn in *. congruence.
  - rewrite Hout; [done|]. intros Hin'.
    apply list_elem_of_fmap in Hin' as ([k' w'] & -> & Hit).
    apply Hitems in Hit as [_ Hlook]. cbn in *. congruence.
Qed.

End Faultless.

Lemma forEach_always_Ok {A} (items : list A) (body : A → M unit) st :
  (∀ x st', (body x st').2 = Ok tt) → (forEach items body st).2 = Ok tt.
Proof.
  intros Hbody. revert st. induction items as [|x items IH]; intros st; [done|].
  cbn. unfold bind. specialize (Hbody x st).
  destruct (body x st) as [st' [[]|e]]; [apply IH | done].
Qed.

Lemma draining_Ok c st : (draining c st).2 = Ok tt.
Proof.
  unfold draining, bind. rewrite try_run. cbn [fst snd].
  by destruct (scale.waitUntilScaledDown c st).2.
Qed.

Lemma deletePods_Ok c st : (deletePods c st).2 = Ok tt.
Proof.
  unfold deletePods, bind. rewrite try_run. cbn [fst snd].
  destruct (ListPods _ _ _ st).2 as [items|e]; [|done].
  destruct (0 <? length items)%nat; [|done].
  apply forEach_always_Ok. intros pod st'. unfold deletePod.
  destruct (scale.isDaemonOrStatefulSetPod _); [|done].
  unfold bind. rewrite try_run. cbn [fst snd]. by destruct (DeletePod _ _ _ st').2.
Qed.

Lemma draining_stores c st r :
  store r (cluster (draining c st).1) = store r (cluster st).
Proof.
  apply (keeps_draining (fun cl => store r cl = store r (cluster st))); [|done].
  intros cl p <-. by destruct r.
Qed.

Lemma deletePods_stores c st r :
  store r (cluster (deletePods c st).1) = store r (cluster st).
Proof.
  apply (keeps_deletePods (fun cl => store r cl = store r (cluster st))); [|done].
  intros cl p <-. by destruct r.
Qed.

Section FaultlessRun.

Context (c : scale.Controller).
Hypothesis no_faults : faultless (scale.k8sClient c).

Lemma scaleDownKind_effect r st :
  ∃ st',
    scaleDownKind c r st = (st', Ok tt)
    ∧ logs st' = logs st
    ∧ pods (cluster st') = pods (cluster st)
    ∧ (∀ r', r' ≠ r → store r' (cluster st') = store r' (cluster st))
    ∧ (∀ k, store r (cluster st') !! k
            = scaledDownObject c r k <$> store r (cluster st) !! k).
Proof.
  apply (listed_patchLoop_effect _ no_faults r _ _ saveAndZeroListed). done.
Qed.

Lemma scaleUpKind_effect r st :
  ∃ st',
    scaleUpKind c r st = (st', Ok tt)
    ∧ logs st' = logs st
    ∧ pods (cluster st') = pods (cluster st)
    ∧ (∀ r', r' ≠ r → store r' (cluster st') = store r' (cluster st))
    ∧ (∀ k, store r (cluster st') !! k
            = scaledUpObject c r k <$> store r (cluster st) !! k).
Proof.
  destruct (listed_patchLoop_effect _ no_faults r (scale.Namespace (scale.opt c))
              (scale.Selector (scale.opt c)) setOne st) as (st' & Hrun & Hrest);
    [done|].
  exists st'. split; [|exact Hrest]. rewrite <- Hrun. unfold scaleUpKind.
  apply bind_ext. intros [items|e] st1; [|done]. by destruct items.
Qed.

Lemma scalingDown_effect st :
  ∃ st',
    scalingDown c st = (st', Ok tt)
    ∧ logs st' = logs st
    ∧ pods (cluster st') = pods (cluster st)
    ∧ (∀ r k, store r (cluster st') !! k
              = scaledDownObject c r k <$> store r (cluster st) !! k).
Proof.
  destruct (scaleDownKind_effect Deployments st) as (st1 & E1 & L1 & P1 & O1 & S1).
  destruct (scaleDownKind_effect ReplicationControllers st1)
    as (st2 & E2 & L2 & P2 & O2 & S2).
  destruct (scaleDownKind_effect ReplicaSets st2) as (st3 & E3 & L3 & P3 & O3 & S3).
  exists st3. unfold scalingDown.
  rewrite (bind_Ok _ _ _ _ _ E1), (bind_Ok _ _ _ _ _ E2), E3.
  split; [done|]. split; [congruence|]. split; [congruence|].
  intros [] k.
  - rewrite (O3 Deployments), (O2 Deployments) by done. apply S1.
  - rewrite (O3 ReplicationControllers) by done. rewrite S2.
    by rewrite (O1 ReplicationControllers).
  - rewrite S3. by rewrite (O2 ReplicaSets), (O1 ReplicaSets).
Qed.

Lemma scalingUp_effect st :
  ∃ st',
    scalingUp c st = (st', Ok tt)
    ∧ (∀ r k, store r (cluster st') !! k
              = scaledUpObject c r k <$> store r (cluster st) !! k).
Proof.
  destruct (scaleUpKind_effect Deployments st) as (st1 & E1 & L1 & P1 & O1 & S1).
  destruct (scaleUpKind_effect ReplicationControllers st1)
    as (st2 & E2 & L2 & P2 & O2 & S2).
  destruct (scaleUpKind_effect ReplicaSets st2) as (st3 & E3 & L3 & P3 & O3 & S3).
  exists (deletePods c st3).1. unfold scalingUp.
  rewrite (bind_Ok _ _ _ _ _ E1), (bind_Ok _ _ _ _ _ E2), (bind_Ok _ _ _ _ _ E3).
  assert (E4 : deletePods c st3 = ((deletePods c st3).1, Ok tt)).
  { rewrite <- (deletePods_Ok c st3). by destruct (deletePods c st3). }
  rewrite (bind_Ok _ _ _ _ _ E4). split; [done|].
  intros r k. rewrite deletePods_stores. destruct r.
  - rewrite (O3 Deployments), (O2 Deployments) by done. apply S1.
  - rewrite (O3 ReplicationControllers) by done. rewrite S2.
    by rewrite (O1 ReplicationControllers).
  - rewrite S3. by rewrite (O2 ReplicaSets), (O1 ReplicaSets).
Qed.

(** The whole run: every object is scaled down and then up. *)
Lemma ScaleDownWorkload_effect st :
  ∃ st',
    scale.ScaleDownWorkload c st = (st', Ok tt)
    ∧ (∀ r k, store r (cluster st') !! k
              = (fun w => scaledUpObject c r k (scaledDownObject c r k w))
                  <$> store r (cluster st) !! k).
Proof.
  destruct (scalingDown_effect st) as (st1 & E1 & _ & _ & S1).
  assert (E2 : draining c st1 = ((draining c st1).1, Ok tt)).
  { rewrite <- (draining_Ok c st1). by destruct (draining c st1). }
  destruct (scalingUp_effect (draining c st1).1) as (st3 & E3 & S3).
  exists st3. rewrite ScaleDownWorkload_phases.
  rewrite (bind_Ok _ _ _ _ _ E1), (bind_Ok _ _ _ _ _ E2). split; [done|].
  intros r k. rewrite S3, draining_stores, S1.
  by destruct (store r (cluster st) !! k).
Qed.

End FaultlessRun.

(** A selected object of a patched kind after the two phases. *)
Lemma scaledDownObject_selected c r k w :
  selected Labels (scale.Namespace (scale.opt c)) (scale.Selector (scale.opt c)) (k, w) →
  guardOf r (k, w) = true →
  scaledDownObject c r k w = saveAndZero w w.
Proof.
  intros Hsel Hguard. unfold scaledDownObject, patched.
  by rewrite decide_True, Hguard.
Qed.

Lemma scaledUpObject_selected c r k w :
  selected Labels (scale.Namespace (scale.opt c)) (scale.Selector (scale.opt c)) (k, w) →
  guardOf r (k, w) = true →
  scaledUpObject c r k w = setReplicas OneReplica w.
Proof.
  intros Hsel Hguard. unfold scaledUpObject, patched.
  by rewrite decide_True, Hguard.
Qed.

Lemma selected_saveAndZero ns sel k listed w :
  selected Labels ns sel (k, w) → selected Labels ns sel (k, saveAndZero listed w).
Proof. done. Qed.

Lemma selected_setReplicas ns sel k n w :
  selected Labels ns sel (k, w) → selected Labels ns sel (k, setReplicas n w).
Proof. done. Qed.

Lemma guardOf_saveAndZero r k listed w :
  guardOf r (k, saveAndZero listed w) = guardOf r (k, w).
Proof. by destruct r. Qed.

Lemma guardOf_setReplicas r k n w :
  guardOf r (k, setReplicas n w) = guardOf r (k, w).
Proof. by destruct r. Qed.

Section FaultlessPods.

Context (c : scale.Controller).
Hypothesis no_faults : faultless (scale.k8sClient c).
Hypothesis one_namespace : scale.Namespace (scale.opt c) ≠ "".

Lemma deletePod_effect (pod : Item Pod) st :
  pods (cluster st) !! pod.1 = Some pod.2 →
  pod.1.1 = scale.Namespace (scale.opt c) →
  (deletePod c pod st).2 = Ok tt
  ∧ pods (cluster (deletePod c pod st).1)
    = if scale.isDaemonOrStatefulSetPod (PodOwnerReferences pod.2)
      then delete pod.1 (pods (cluster st)) else pods (cluster st).
Proof.
  intros Hpod Hns. unfold deletePod.
  destruct (scale.isDaemonOrStatefulSetPod _); [|done].
  unfold bind. rewrite try_run. unfold DeletePod.
  rewrite request_served by apply no_faults. cbn [fst snd].
  destruct pod as [[ns name] p]. cbn in *. subst ns. by rewrite Hpod.
Qed.

Lemma deletePods_loop_effect (items : list (Item Pod)) st :
  NoDup items.*1 →
  (∀ it, it ∈ items →
     pods (cluster st) !! it.1 = Some it.2
     ∧ it.1.1 = scale.Namespace (scale.opt c)) →
  (∀ it, it ∈ items →
     pods (cluster (forEach items (deletePod c) st).1) !! it.1
     = if scale.isDaemonOrStatefulSetPod (PodOwnerReferences it.2)
       then None else Some it.2)
  ∧ (∀ k, k ∉ items.*1 →
       pods (cluster (forEach items (deletePod c) st).1) !! k
       = pods (cluster st) !! k).
Proof.
  revert st. induction items as [|x items IH]; intros st Hdup Hitems.
  - split; [set_solver | done].
  - rewrite fmap_cons in Hdup. apply NoDup_cons in Hdup as [Hx Hdup].
    destruct (Hitems x) as [Hxpod Hxns]; [apply list_elem_of_here|].
    destruct (deletePod_effect x st Hxpod Hxns) as [Hok Hpods].
    cbn [forEach]. unfold bind.
    destruct (deletePod c x st) as [st1 r1]. cbn [fst snd] in Hok, Hpods. subst r1.
    assert (Hother : ∀ k, k ≠ x.1 → pods (cluster st1) !! k = pods (cluster st) !! k).
    { intros k Hk. rewrite Hpods.
      destruct (scale.isDaemonOrStatefulSetPod _); [|done]. by rewrite lookup_delete_ne. }
    destruct (IH st1 Hdup) as [Hin Hout].
    { intros it Hit. rewrite Hother; [by apply Hitems, list_elem_of_further|].
      intros Heq. apply Hx. rewrite <- Heq. by apply list_elem_of_fmap_2. }
    split.
    + intros it Hit. apply elem_of_cons in Hit as [-> | Hit]; [|by apply Hin].
      rewrite Hout by done. rewrite Hpods.
      destruct (scale.isDaemonOrStatefulSetPod _); [by rewrite lookup_delete_eq | done].
    + intros k Hk. rewrite fmap_cons in Hk. apply not_elem_of_cons in Hk as [Hk1 Hk2].
      rewrite Hout by done. by apply Hother.
Qed.

Lemma deletePods_effect st k pod :
  pods (cluster st) !! k = Some pod →
  pods (cluster (deletePods c st).1) !! k
  = if decide (selected PodLabels (scale.Namespace (scale.opt c))
                 (scale.Selector (scale.opt c)) (k, pod))
    then if scale.isDaemonOrStatefulSetPod (PodOwnerReferences pod)
         then None else Some pod
    else Some pod.
Proof.
  intros Hpod. unfold deletePods, bind. rewrite try_run. unfold ListPods.
  rewrite request_served by apply no_faults. cbn [fst snd].
  set (items := filter _ (map_to_list (pods (cluster st)))).
  set (st1 := {| cluster := cluster st; requests := S (requests st);
                 logs := logs st |}).
  assert (Hitems : ∀ it, it ∈ items ↔
            selected PodLabels (scale.Namespace (scale.opt c))
              (scale.Selector (scale.opt c)) it
            ∧ pods (cluster st) !! it.1 = Some it.2).
  { intros [k' p']. subst items. by rewrite list_elem_of_filter, elem_of_map_to_list. }
  destruct (deletePods_loop_effect items st1) as [Hin Hout].
  { apply filter_map_to_list_NoDup. }
  { intros it Hit. apply Hitems in Hit as [[[Hall | Hns] _] Hlook]; [done|].
    by split. }
  replace (if (0 <? length items)%nat then forEach items (deletePod c) else ret tt)
    with (forEach items (deletePod c)) by by destruct items.
  case_decide as Hsel.
  - assert (Hit : (k, pod) ∈ items) by by apply Hitems.
    apply Hin in Hit. exact Hit.
  - rewrite Hout; [done|]. intros Hin'.
    apply list_elem_of_fmap in Hin' as ([k' p'] & -> & Hit).
    apply Hitems in Hit as [Hsel' Hlook]. cbn in *. congruence.
Qed.

Lemma scaleUpKind_pods r st :
  pods (cluster (scaleUpKind c r st).1) = pods (cluster st).
Proof.
  destruct (scaleUpKind_effect c no_faults r st) as (st' & -> & _ & Hpods & _).
  done.
Qed.

Lemma scalingUp_pods st k pod :
  pods (cluster st) !! k = Some pod →
  pods (cluster (scalingUp c st).1) !! k
  = if decide (selected PodLabels (scale.Namespace (scale.opt c))
                 (scale.Selector (scale.opt c)) (k, pod))
    then if scale.isDaemonOrStatefulSetPod (PodOwnerReferences pod)
         then None else Some pod
    else Some pod.
Proof.
  intros Hpod.
  destruct (scaleUpKind_effect c no_faults Deployments st)
    as (st1 & E1 & _ & P1 & _).
  destruct (scaleUpKind_effect c no_faults ReplicationControllers st1)
    as (st2 & E2 & _ & P2 & _).
  destruct (scaleUpKind_effect c no_faults ReplicaSets st2)
    as (st3 & E3 & _ & P3 & _).
  unfold scalingUp.
  rewrite (bind_Ok _ _ _ _ _ E1), (bind_Ok _ _ _ _ _ E2), (bind_Ok _ _ _ _ _ E3).
  assert (E4 : deletePods c st3 = ((deletePods c st3).1, Ok tt)).
  { rewrite <- (deletePods_Ok c st3). by destruct (deletePods c st3). }
  rewrite (bind_Ok _ _ _ _ _ E4). cbn [ret fst].
  apply deletePods_effect. congruence.
Qed.

End FaultlessPods.

(** ** Two batch runs in a row *)

(** The claim of C1 fails as stated: deployment [web] has 3 replicas;
    after two batch runs in a row, all of whose requests are served, its
    previous-replica-count annotation reads 1, not 3. *)
Lemma ScaleDownWorkload_twice_loses_original_count :
  Replicas <$> deployments (cluster Demo.state0) !! ("ns", "web") = Some 3
  ∧ (scale.ScaleDownWorkload (Demo.controllerOn Demo.reliable)
       (scale.ScaleDownWorkload (Demo.controllerOn Demo.reliable) Demo.state0).1).2
    = Ok tt
  ∧ (deployments
       (cluster
          (scale.ScaleDownWorkload (Demo.controllerOn Demo.reliable)
             (scale.ScaleDownWorkload (Demo.controllerOn Demo.reliable)
                Demo.state0).1).1) !! ("ns", "web")
     ≫= fun w => Annotations w !! apis.AnnotationOldReplica) = Some "1"
  ∧ strconv.Itoa 3 ≠ "1".
Proof. repeat split; vm_compute; first [reflexivity | discriminate]. Qed.

(** C1, amended. On a connection without faults, a batch run leaves
    every selected deployment, replication controller and replica set
    not owned by a deployment with 1 replica and with the annotation set
    to the replica count the run listed, whether or not the object was
    annotated before; a second run in a row therefore leaves the
    annotation at 1, the count the first run left. *)
Theorem ScaleDownWorkload_twice_saves_latest_count
    (c : scale.Controller) (st : State) (r : Resource) (k : ObjectKey) (w : Scalable) :
  let first := scale.ScaleDownWorkload c st in
  let second := scale.ScaleDownWorkload c first.1 in
  faultless (scale.k8sClient c) →
  store r (cluster st) !! k = Some w →
  selected Labels (scale.Namespace (scale.opt c)) (scale.Selector (scale.opt c)) (k, w) →
  guardOf r (k, w) = true →
  first.2 = Ok tt
  ∧ store r (cluster first.1) !! k
    = Some (setReplicas OneReplica
              (setAnnotations
                 <[apis.AnnotationOldReplica := strconv.Itoa (Replicas w)]> w))
  ∧ second.2 = Ok tt
  ∧ ∃ w2, store r (cluster second.1) !! k = Some w2
          ∧ Annotations w2 !! apis.AnnotationOldReplica
            = Some (strconv.Itoa OneReplica)
          ∧ Replicas w2 = OneReplica.
Proof.
  intros first second Hfaults Hw Hsel Hguard.
  assert (Hrun : ∀ st0 w0,
    store r (cluster st0) !! k = Some w0 →
    selected Labels (scale.Namespace (scale.opt c))
      (scale.Selector (scale.opt c)) (k, w0) →
    guardOf r (k, w0) = true →
    (scale.ScaleDownWorkload c st0).2 = Ok tt
    ∧ store r (cluster (scale.ScaleDownWorkload c st0).1) !! k
      = Some (setReplicas OneReplica (saveAndZero w0 w0))).
  { intros st0 w0 Hw0 Hsel0 Hguard0.
    destruct (ScaleDownWorkload_effect c Hfaults st0) as (st' & -> & Hstore).
    split; [done|]. cbn [fst]. rewrite Hstore, Hw0. cbn. f_equal.
    rewrite (scaledDownObject_selected c r k w0) by done.
    apply scaledUpObject_selected.
    - by apply selected_saveAndZero.
    - by rewrite guardOf_saveAndZero. }
  destruct (Hrun st w Hw Hsel Hguard) as [Hok1 Hstore1].
  fold first in Hok1, Hstore1.
  destruct (Hrun first.1 _ Hstore1) as [Hok2 Hstore2].
  { by apply selected_setReplicas, selected_saveAndZero. }
  { by rewrite guardOf_setReplicas, guardOf_saveAndZero. }
  fold second in Hok2, Hstore2.
  split; [done|]. split; [exact Hstore1|]. split; [done|].
  eexists. split; [exact Hstore2|]. split; [|done].
  cbn. by rewrite lookup_insert_eq.
Qed.

Lemma ScaleDownWorkload_twice_saves_latest_count_witness :
  (scale.ScaleDownWorkload (Demo.controllerOn Demo.reliable) Demo.state0).2 = Ok tt
  ∧ store Deployments
      (cluster (scale.ScaleDownWorkload (Demo.controllerOn Demo.reliable)
                  Demo.state0).1) !! ("ns", "web")
    = Some (setReplicas OneReplica
              (setAnnotations
                 <[apis.AnnotationOldReplica :=
                     strconv.Itoa (Replicas (Demo.workload ∅ [] 3))]>
                 (Demo.workload ∅ [] 3)))
  ∧ (scale.ScaleDownWorkload (Demo.controllerOn Demo.reliable)
       (scale.ScaleDownWorkload (Demo.controllerOn Demo.reliable) Demo.state0).1).2
    = Ok tt
  ∧ ∃ w2,
      store Deployments
        (cluster
           (scale.ScaleDownWorkload (Demo.controllerOn Demo.reliable)
              (scale.ScaleDownWorkload (Demo.controllerOn Demo.reliable)
                 Demo.state0).1).1) !! ("ns", "web") = Some w2
      ∧ Annotations w2 !! apis.AnnotationOldReplica = Some (strconv.Itoa OneReplica)
      ∧ Replicas w2 = OneReplica.
Proof.
  apply (ScaleDownWorkload_twice_saves_latest_count (Demo.controllerOn Demo.reliable)
           Demo.state0 Deployments ("ns", "web") (Demo.workload ∅ [] 3)).
  - intros i. reflexivity.
  - vm_compute. reflexivity.
  - split; [right; reflexivity | vm_compute; reflexivity].
  - reflexivity.
Defined.

(** ** The scale-up phase *)

(** The claim of C2 fails as stated: deployment [web] is scaled down
    from 3 replicas, 3 is saved in its annotation, and the run, all of
    whose requests are served, leaves it with 1 replica. *)
Lemma ScaleDownWorkload_scales_up_to_one_not_saved_count :
  Replicas <$> deployments (cluster Demo.state0) !! ("ns", "web") = Some 3
  ∧ (scale.ScaleDownWorkload (Demo.controllerOn Demo.reliable) Demo.state0).2 = Ok tt
  ∧ ((fun w => (Annotations w !! apis.AnnotationOldReplica, Replicas w))
       <$> deployments
             (cluster (scale.ScaleDownWorkload (Demo.controllerOn Demo.reliable)
                         Demo.state0).1) !! ("ns", "web"))
    = Some (Some "3", 1).
Proof. repeat split; vm_compute; reflexivity. Qed.

(** C2, amended. A batch run is its scale-down phase, the drain wait
    and its scale-up phase. On a connection without faults the scale-up
    phase returns nil and patches every selected deployment, replication
    controller and replica set not owned by a deployment to exactly 1
    replica, leaving everything else of the object, the saved count
    included, as it was; and, in a given namespace, it deletes every
    selected pod owned by a daemon set or stateful set and leaves the
    other pods. *)
Theorem scaling_up_sets_one_replica_and_deletes_daemon_pods
    (c : scale.Controller) (st : State) :
  faultless (scale.k8sClient c) →
  (∀ st0, scale.ScaleDownWorkload c st0
          = (scalingDown c ;;; draining c ;;; scalingUp c) st0)
  ∧ (scalingUp c st).2 = Ok tt
  ∧ (∀ r k w,
       store r (cluster st) !! k = Some w →
       selected Labels (scale.Namespace (scale.opt c))
         (scale.Selector (scale.opt c)) (k, w) →
       guardOf r (k, w) = true →
       store r (cluster (scalingUp c st).1) !! k = Some (setReplicas OneReplica w))
  ∧ (scale.Namespace (scale.opt c) ≠ "" →
     ∀ k pod,
       pods (cluster st) !! k = Some pod →
       selected PodLabels (scale.Namespace (scale.opt c))
         (scale.Selector (scale.opt c)) (k, pod) →
       pods (cluster (scalingUp c st).1) !! k
       = if scale.isDaemonOrStatefulSetPod (PodOwnerReferences pod)
         then None else Some pod).
Proof.
  intros Hfaults. split; [apply ScaleDownWorkload_phases|].
  destruct (scalingUp_effect c Hfaults st) as (st' & Hrun & Hstore).
  split; [by rewrite Hrun|]. split.
  - intros r k w Hw Hsel Hguard. rewrite Hrun. cbn [fst].
    rewrite Hstore, Hw. cbn. f_equal. by apply scaledUpObject_selected.
  - intros Hns k pod Hpod Hsel.
    rewrite (scalingUp_pods c Hfaults Hns st k pod Hpod). by rewrite decide_True.
Qed.

Lemma scaling_up_sets_one_replica_and_deletes_daemon_pods_witness :
  (scalingUp (Demo.controllerOn Demo.reliable) Demo.scaledDownState).2 = Ok tt
  ∧ store Deployments
      (cluster (scalingUp (Demo.controllerOn Demo.reliable) Demo.scaledDownState).1)
      !! ("ns", "web")
    = Some (setReplicas OneReplica
              (Demo.workload {[ apis.AnnotationOldReplica := "3" ]} [] 0))
  ∧ pods (cluster (scalingUp (Demo.controllerOn Demo.reliable)
                     Demo.scaledDownState).1) !! ("ns", "db-0") = None.
Proof.
  destruct (scaling_up_sets_one_replica_and_deletes_daemon_pods
              (Demo.controllerOn Demo.reliable) Demo.scaledDownState)
    as (_ & Hok & Hone & Hpods).
  { intros i. reflexivity. }
  split; [exact Hok|]. split.
  - apply Hone.
    + vm_compute. reflexivity.
    + split; [right; reflexivity | vm_compute; reflexivity].
    + reflexivity.
  - apply (Hpods ltac:(discriminate) ("ns", "db-0") (Demo.pod [Demo.byStatefulSet])).
    + vm_compute. reflexivity.
    + split; [right; reflexivity | vm_compute; reflexivity].
Defined.

(** ** [strconv]: what [Itoa] writes, [Atoi] reads *)

Lemma digit_pretty_N_char d :
  (d < 10)%N → strconv.digit (pretty_N_char d) = Some (Z.of_N d).
Proof.
  intros Hd.
  assert (d = 0 ∨ d = 1 ∨ d = 2 ∨ d = 3 ∨ d = 4 ∨ d = 5 ∨ d = 6 ∨ d = 7
          ∨ d = 8 ∨ d = 9)%N as Hcases by lia.
  repeat (destruct Hcases as [-> | Hcases]; [reflexivity|]). by subst d.
Qed.

Lemma pretty_N_char_no_sign d :
  Ascii.eqb (pretty_N_char d) "-" = false ∧ Ascii.eqb (pretty_N_char d) "+" = false.
Proof. unfold pretty_N_char. by repeat case_match. Qed.

Lemma digits_pretty_N_go x :
  ∃ p : Z, ∀ s acc,
    strconv.digits acc (pretty_N_go x s) = strconv.digits (acc * p + Z.of_N x) s.
Proof.
  induction (N.lt_wf_0 x) as [x _ IH].
  destruct (decide (x = 0)%N) as [-> | Hx].
  - exists 1. intros s acc. rewrite pretty_N_go_0. f_equal. lia.
  - destruct (IH (x `div` 10)%N) as [p Hp]; [apply N.div_lt; lia|].
    exists (p * 10). intros s acc. rewrite pretty_N_go_step by lia.
    rewrite Hp. cbn [strconv.digits].
    rewrite digit_pretty_N_char by (apply N.mod_lt; lia). f_equal.
    rewrite N2Z.inj_div, N2Z.inj_mod.
    pose proof (Z.div_mod (Z.of_N x) 10 ltac:(lia)) as Hdm.
    change (Z.of_N 10) with 10. lia.
Qed.

Lemma pretty_N_go_head x s :
  (0 < x)%N → ∃ d rest, pretty_N_go x s = String (pretty_N_char d) rest.
Proof.
  revert s. induction (N.lt_wf_0 x) as [x _ IH]; intros s Hx.
  rewrite pretty_N_go_step by done.
  destruct (decide (x `div` 10 = 0)%N) as [-> | Hdiv].
  - rewrite pretty_N_go_0. eauto.
  - apply IH; [apply N.div_lt; lia | by apply N.neq_0_lt_0].
Qed.

Lemma Atoi_unsigned a rest :
  Ascii.eqb a "-" = false → Ascii.eqb a "+" = false →
  strconv.Atoi (String a rest) =
    match strconv.digits 0 (String a rest) with
    | Some n => if ((- 2 ^ 63 <=? n) && (n <? 2 ^ 63))%bool then Some n else None
    | None => None
    end.
Proof. intros Hminus Hplus. unfold strconv.Atoi. by rewrite Hminus, Hplus. Qed.

Lemma Atoi_negative a rest :
  strconv.Atoi (String "-" (String a rest)) =
    match strconv.digits 0 (String a rest) with
    | Some n => if ((- 2 ^ 63 <=? - n) && (- n <? 2 ^ 63))%bool then Some (- n) else None
    | None => None
    end.
Proof. reflexivity. Qed.

Lemma digits_pretty_pos (p : positive) :
  ∃ a rest,
    pretty_N_go (N.pos p) "" = String a rest
    ∧ Ascii.eqb a "-" = false ∧ Ascii.eqb a "+" = false
    ∧ strconv.digits 0 (String a rest) = Some (Z.pos p).
Proof.
  destruct (digits_pretty_N_go (N.pos p)) as [q Hq].
  specialize (Hq "" 0). cbn [strconv.digits] in Hq.
  destruct (pretty_N_go_head (N.pos p) "" ltac:(lia)) as (d & rest & Hhead).
  exists (pretty_N_char d), rest. rewrite <- Hhead, Hq.
  destruct (pretty_N_char_no_sign d) as [-> ->].
  repeat split.
Qed.

(** What [Itoa] writes for an [int], [Atoi] reads back. *)
Lemma Atoi_Itoa (n : Z) :
  - 2 ^ 63 ≤ n < 2 ^ 63 → strconv.Atoi (strconv.Itoa n) = Some n.
Proof.
  intros Hn. unfold strconv.Itoa, pretty, pretty_Z. destruct n as [|p|p].
  - reflexivity.
  - change (pretty p) with (pretty (N.pos p)).
    unfold pretty, pretty_N. rewrite decide_False by done.
    destruct (digits_pretty_pos p) as (a & rest & -> & Hminus & Hplus & Hdigits).
    rewrite Atoi_unsigned, Hdigits by done.
    by rewrite (proj2 (Z.leb_le _ _)), (proj2 (Z.ltb_lt _ _)) by lia.
  - change (pretty p) with (pretty (N.pos p)).
    unfold pretty, pretty_N. rewrite decide_False by done.
    destruct (digits_pretty_pos p) as (a & rest & -> & Hminus & Hplus & Hdigits).
    change ("-" +:+ String a rest) with (String "-" (String a rest)).
    rewrite Atoi_negative, Hdigits. change (- Z.pos p) with (Z.neg p).
    by rewrite (proj2 (Z.leb_le _ _)), (proj2 (Z.ltb_lt _ _)) by lia.
Qed.

(** ** A batch run followed by the per-workload restore *)

(** What the restore after a batch run leaves of a selected workload. *)
Lemma restore_after_batch_run
    (c : scale.Controller) (opt : backup.Options) (st : State) (r : Resource)
    (w : Scalable) :
  let key := (backup.Namespace opt, api.Name (backup.Workload opt)) in
  let scaled := (scale.ScaleDownWorkload c st).1 in
  faultless (scale.k8sClient c) →
  api.Kind (backup.Workload opt) = kindOf r →
  store r (cluster st) !! key = Some w →
  selected Labels (scale.Namespace (scale.opt c)) (scale.Selector (scale.opt c))
    (key, w) →
  guardOf r (key, w) = true →
  - 2 ^ 31 ≤ Replicas w < 2 ^ 31 →
  (scale.ScaleUpWorkload (scale.k8sClient c) opt scaled).2 = Ok tt
  ∧ store r (cluster (scale.ScaleUpWorkload (scale.k8sClient c) opt scaled).1) !! key
    = Some (setAnnotations (delete apis.AnnotationOldReplica) w).
Proof.
  intros key scaled Hfaults Hkind Hw Hsel Hguard Hrange. subst scaled.
  destruct (ScaleDownWorkload_effect c Hfaults st) as (st' & -> & Hstore).
  cbn [fst]. specialize (Hstore r key). rewrite Hw in Hstore. cbn in Hstore.
  rewrite (scaledDownObject_selected c r key w) in Hstore by done.
  rewrite scaledUpObject_selected in Hstore;
    [| by apply selected_saveAndZero | by rewrite guardOf_saveAndZero].
  rewrite (ScaleUpWorkload_annotated _ r opt st'
             (setReplicas OneReplica (saveAndZero w w))
             (strconv.Itoa (Replicas w)) (Replicas w));
    [| done | exact Hstore | apply lookup_insert_eq | apply Atoi_Itoa; lia
     | apply Hfaults | apply Hfaults].
  split; [done|]. cbn [fst cluster]. rewrite store_setStore.
  fold key. rewrite lookup_insert_eq. f_equal.
  destruct w as [l a o n]. unfold setAnnotations, setReplicas, saveAndZero. cbn.
  f_equal; [apply delete_insert_eq | by apply int32_id].
Qed.

(** X1. On a connection without faults, the restore after a batch run
    reads the count the run saved: it returns nil, and the workload is
    stored as it was before the run, with its replica count of before
    the run again, less the previous-replica-count annotation. *)
Theorem batch_run_then_restore
    (c : scale.Controller) (opt : backup.Options) (st : State) (r : Resource)
    (w : Scalable) :
  let key := (backup.Namespace opt, api.Name (backup.Workload opt)) in
  let scaled := (scale.ScaleDownWorkload c st).1 in
  faultless (scale.k8sClient c) →
  api.Kind (backup.Workload opt) = kindOf r →
  store r (cluster st) !! key = Some w →
  selected Labels (scale.Namespace (scale.opt c)) (scale.Selector (scale.opt c))
    (key, w) →
  guardOf r (key, w) = true →
  - 2 ^ 31 ≤ Replicas w < 2 ^ 31 →
  (scale.ScaleUpWorkload (scale.k8sClient c) opt scaled).2 = Ok tt
  ∧ store r (cluster (scale.ScaleUpWorkload (scale.k8sClient c) opt scaled).1) !! key
    = Some (setAnnotations (delete apis.AnnotationOldReplica) w).
Proof. exact (restore_after_batch_run c opt st r w). Qed.

Lemma batch_run_then_restore_witness :
  (scale.ScaleUpWorkload Demo.reliable (Demo.restoreOf "Deployment" "web")
     (scale.ScaleDownWorkload (Demo.controllerOn Demo.reliable) Demo.state0).1).2
  = Ok tt
  ∧ store Deployments
      (cluster
         (scale.ScaleUpWorkload Demo.reliable (Demo.restoreOf "Deployment" "web")
            (scale.ScaleDownWorkload (Demo.controllerOn Demo.reliable)
               Demo.state0).1).1) !! ("ns", "web")
    = Some (setAnnotations (delete apis.AnnotationOldReplica) (Demo.workload ∅ [] 3)).
Proof.
  apply (batch_run_then_restore (Demo.controllerOn Demo.reliable)
           (Demo.restoreOf "Deployment" "web") Demo.state0 Deployments
           (Demo.workload ∅ [] 3)).
  - intros i. reflexivity.
  - reflexivity.
  - vm_compute. reflexivity.
  - split; [right; reflexivity | vm_compute; reflexivity].
  - reflexivity.
  - cbn. lia.
Defined.

(** * Further properties of the code *)

(** ** What a batch run leaves alone *)

Section Untouched.

Context (c : scale.Controller) (r0 : Resource) (k : ObjectKey) (w : Scalable).
Hypothesis skipped :
  selected Labels (scale.Namespace (scale.opt c)) (scale.Selector (scale.opt c)) (k, w) →
  guardOf r0 (k, w) = false.

Abbreviation kept := (storesAt r0 k w).

Lemma kept_pods cl p : kept cl → kept (setPods p cl).
Proof. unfold storesAt. by destruct r0. Qed.

Lemma kept_PatchObject kc r it mutate :
  (r = r0 → it.1 ≠ k) → keeps kept (PatchObject kc r it mutate).
Proof.
  intros Hk. unfold PatchObject. case_decide; [apply keeps_ret|].
  apply keeps_request. intros cl Hcl. unfold storesAt in *.
  destruct (store r cl !! it.1); [|done]. cbn.
  destruct (decide (r = r0)) as [-> | Hr].
  - rewrite store_setStore, lookup_insert_ne; [done|]. by apply Hk.
  - by rewrite store_setStore_ne.
Qed.

Lemma kept_listed_patchLoop {B} r mutate (rest : M B) :
  keeps kept rest →
  keeps kept
    (bind (try (List (scale.k8sClient c) r (scale.Namespace (scale.opt c))
                  (scale.Selector (scale.opt c))))
       (fun found => match found with
                     | Ok items =>
                         bind (if (0 <? length items)%nat
                               then patchLoop (scale.k8sClient c) r mutate items
                               else patchLoop (scale.k8sClient c) r mutate items)
                           (fun _ => rest)
                     | Err _ => bind (ret tt) (fun _ => rest)
                     end)).
Proof.
  intros Hrest.
  apply (keeps_listed _ _ _ _ _
           (fun items => ∀ it, it ∈ items → r = r0 → it.1 = k →
                               guardOf r it = false)).
  - intros cl Hcl [k' w'] Hit -> Hkey. cbn in Hkey. subst k'.
    apply list_elem_of_filter in Hit as [Hsel Hit].
    apply elem_of_map_to_list in Hit. unfold storesAt in Hcl.
    rewrite Hcl in Hit. injection Hit as <-. by apply skipped.
  - intros items Hitems. apply keeps_bind; [|done].
    assert (Hloop : keeps kept (patchLoop (scale.k8sClient c) r mutate items)).
    { apply keeps_forEach. intros it Hit.
      destruct (guardOf r it) eqn:Hguard; [|apply keeps_ret].
      apply kept_PatchObject. intros Hr Hkey.
      rewrite (Hitems it Hit Hr Hkey) in Hguard. done. }
    by destruct (0 <? length items)%nat.
  - intros e. by apply keeps_bind; [apply keeps_ret|].
Qed.

Lemma kept_scaleDownKind r : keeps kept (scaleDownKind c r).
Proof.
  intros st Hst.
  pose proof (kept_listed_patchLoop r saveAndZeroListed (ret tt)
                (keeps_ret _ tt) st Hst) as Hkept.
  assert (Heq : ∀ st0 : State,
    cluster (scaleDownKind c r st0).1
    = cluster
        (bind (try (List (scale.k8sClient c) r (scale.Namespace (scale.opt c))
                      (scale.Selector (scale.opt c))))
           (fun found => match found with
                         | Ok items =>
                             bind (if (0 <? length items)%nat
                                   then patchLoop (scale.k8sClient c) r
                                          saveAndZeroListed items
                                   else patchLoop (scale.k8sClient c) r
                                          saveAndZeroListed items)
                               (fun _ => ret tt)
                         | Err _ => bind (ret tt) (fun _ => ret tt)
                         end) st0).1).
  { intros st0. unfold scaleDownKind, bind. rewrite try_run.
    destruct (List _ _ _ _ st0) as [st1 [items|e]]; cbn [fst snd]; [|done].
    change (patchLoop (scale.k8sClient c) r (fun it obj => saveAndZero it.2 obj) items)
      with (patchLoop (scale.k8sClient c) r saveAndZeroListed items).
    destruct (0 <? length items)%nat;
      by destruct (patchLoop _ _ _ items st1) as [st2 [[]|e]]. }
  by rewrite Heq.
Qed.

Lemma kept_scaleUpKind r : keeps kept (scaleUpKind c r).
Proof.
  intros st Hst.
  pose proof (kept_listed_patchLoop r setOne (ret tt) (keeps_ret _ tt) st Hst)
    as Hkept.
  assert (Heq : ∀ st0 : State,
    cluster (scaleUpKind c r st0).1
    = cluster
        (bind (try (List (scale.k8sClient c) r (scale.Namespace (scale.opt c))
                      (scale.Selector (scale.opt c))))
           (fun found => match found with
                         | Ok items =>
                             bind (if (0 <? length items)%nat
                                   then patchLoop (scale.k8sClient c) r setOne items
                                   else patchLoop (scale.k8sClient c) r setOne items)
                               (fun _ => ret tt)
                         | Err _ => bind (ret tt) (fun _ => ret tt)
                         end) st0).1).
  { intros st0. unfold scaleUpKind, bind. rewrite try_run.
    destruct (List _ _ _ _ st0) as [st1 [items|e]]; cbn [fst snd]; [|done].
    change (patchLoop (scale.k8sClient c) r (fun _ obj => setReplicas OneReplica obj)
              items)
      with (patchLoop (scale.k8sClient c) r setOne items).
    destruct items as [|x items]; [done|]. cbn [length Nat.ltb Nat.leb].
    by destruct (patchLoop _ _ _ (x :: items) st1) as [st2 [[]|e]]. }
  by rewrite Heq.
Qed.

Lemma kept_ScaleDownWorkload : keeps kept (scale.ScaleDownWorkload c).
Proof.
  intros st Hst. rewrite ScaleDownWorkload_blocks. revert st Hst.
  repeat (apply keeps_bind;
          [first [ apply kept_scaleDownKind | apply kept_scaleUpKind
                 | apply (keeps_draining kept kept_pods)
                 | apply (keeps_deletePods kept kept_pods) ]
          | intros _ ]).
  apply keeps_ret.
Qed.

End Untouched.

(** X2. A deployment, replication controller or replica set that the
    selector (or the namespace) does not select is the same stored
    object after a batch run as before, whatever requests fail. *)
Theorem ScaleDownWorkload_leaves_unselected
    (c : scale.Controller) (st : State) (r : Resource) (k : ObjectKey) (w : Scalable) :
  store r (cluster st) !! k = Some w →
  ¬ selected Labels (scale.Namespace (scale.opt c)) (scale.Selector (scale.opt c))
      (k, w) →
  store r (cluster (scale.ScaleDownWorkload c st).1) !! k = Some w.
Proof.
  intros Hw Hsel. by apply (kept_ScaleDownWorkload c r k w).
Qed.

Lemma ScaleDownWorkload_leaves_unselected_witness :
  store Deployments
    (cluster (scale.ScaleDownWorkload (Demo.controllerOn Demo.reliable)
                Demo2.state1).1) !! ("ns", "batch") = Some Demo2.batch
  ∧ store Deployments
      (cluster (scale.ScaleDownWorkload (Demo.controllerOn Demo.reliable)
                  Demo2.state1).1) !! ("other", "web")
    = Some (Demo.workload ∅ [] 2).
Proof.
  split.
  - apply ScaleDownWorkload_leaves_unselected; [vm_compute; reflexivity|].
    intros [_ Hsel]. vm_compute in Hsel. discriminate.
  - apply ScaleDownWorkload_leaves_unselected; [vm_compute; reflexivity|].
    intros [[Hns | Hns] _]; vm_compute in Hns; discriminate.
Defined.

(** ** What no run ever changes *)

Lemma sameShape_refl cl : sameShape cl cl.
Proof. done. Qed.

Lemma sameShape_pods cl0 cl p : sameShape cl0 cl → sameShape cl0 (setPods p cl).
Proof.
  intros [Hs Hb]. split; [|done]. intros r k. rewrite <- Hs. by destruct r.
Qed.

Lemma sameShape_PatchObject cl0 kc r it mutate :
  keeps (sameShape cl0) (PatchObject kc r it mutate).
Proof.
  unfold PatchObject. case_decide; [apply keeps_ret|].
  apply keeps_request. intros cl [Hs Hb].
  destruct (store r cl !! it.1) as [obj|] eqn:Hobj; [|done]. cbn.
  split; [|by destruct r]. intros r' k. rewrite <- Hs.
  destruct (decide (r' = r)) as [-> | Hr]; [|by rewrite store_setStore_ne].
  rewrite store_setStore. destruct (decide (k = it.1)) as [-> | Hk].
  - by rewrite lookup_insert_eq, Hobj.
  - by rewrite lookup_insert_ne.
Qed.

Lemma sameShape_patchLoop cl0 kc r mutate items :
  keeps (sameShape cl0) (patchLoop kc r mutate items).
Proof.
  apply keeps_forEach. intros it _.
  destruct (guardOf r it); [apply sameShape_PatchObject | apply keeps_ret].
Qed.

Lemma sameShape_ScaleDownWorkload cl0 c :
  keeps (sameShape cl0) (scale.ScaleDownWorkload c).
Proof.
  intros st Hst. rewrite ScaleDownWorkload_blocks. revert st Hst.
  repeat (apply keeps_bind;
          [first [ apply (keeps_draining _ (sameShape_pods cl0))
                 | apply (keeps_deletePods _ (sameShape_pods cl0))
                 | unfold scaleDownKind, scaleUpKind;
                   apply keeps_bind; [apply keeps_try, keeps_List|];
                   intros [items|e]; [|apply keeps_ret];
                   try destruct (0 <? length items)%nat;
                   first [apply sameShape_patchLoop | apply keeps_ret] ]
          | intros _ ]).
  apply keeps_ret.
Qed.

Lemma sameShape_ScaleUpWorkload cl0 kc opt :
  keeps (sameShape cl0) (scale.ScaleUpWorkload kc opt).
Proof.
  assert (Hrestore : ∀ r, keeps (sameShape cl0) (scale.restore kc r opt)).
  { intros r. unfold scale.restore. apply keeps_bind.
    - apply keeps_request. intros cl Hcl. by destruct (store r cl !! _).
    - intros obj. apply keeps_bind; [by intros st|].
      intros replica. apply sameShape_PatchObject. }
  unfold scale.ScaleUpWorkload.
  repeat case_decide; first [apply Hrestore | apply keeps_ret | apply keeps_fail].
Qed.

(** X3. Neither a batch run nor a restore ever creates or deletes a
    deployment, replication controller or replica set, or changes the
    labels or owner references of one, or touches a role binding,
    whatever requests fail: they change annotations and replica counts
    only. *)
Theorem scaling_changes_annotations_and_replicas_only
    (c : scale.Controller) (kc : Client) (opt : backup.Options) (st : State) :
  sameShape (cluster st) (cluster (scale.ScaleDownWorkload c st).1)
  ∧ sameShape (cluster st) (cluster (scale.ScaleUpWorkload kc opt st).1).
Proof.
  split.
  - apply sameShape_ScaleDownWorkload, sameShape_refl.
  - apply sameShape_ScaleUpWorkload, sameShape_refl.
Qed.

(** ** A restore changes one object, or nothing *)

Lemma PatchObject_cases kc r it mutate st :
  PatchObject kc r it mutate st = (st, Ok tt)
  ∨ (∃ e, (PatchObject kc r it mutate st).2 = Err e
          ∧ cluster (PatchObject kc r it mutate st).1 = cluster st)
  ∨ (∃ obj, (PatchObject kc r it mutate st).2 = Ok tt
            ∧ store r (cluster st) !! it.1 = Some obj
            ∧ cluster (PatchObject kc r it mutate st).1
              = setStore r
                  (<[it.1 := applyPatch (CreateTwoWayMergePatch it.2 (mutate it.2))
                               obj]> (store r (cluster st))) (cluster st)).
Proof.
  unfold PatchObject. case_decide; [by left|]. right. unfold request.
  destruct (faults kc (requests st)) as [e|]; [left; by exists e|].
  destruct (store r (cluster st) !! it.1) as [obj|] eqn:Hobj.
  - right. by exists obj.
  - left. by exists StatusNotFound.
Qed.

Lemma restore_cases kc r opt st :
  let key := (backup.Namespace opt, api.Name (backup.Workload opt)) in
  (∃ e, (scale.restore kc r opt st).2 = Err e
        ∧ cluster (scale.restore kc r opt st).1 = cluster st)
  ∨ (∃ obj', (scale.restore kc r opt st).2 = Ok tt
             ∧ is_Some (store r (cluster st) !! key)
             ∧ cluster (scale.restore kc r opt st).1
               = setStore r (<[key := obj']> (store r (cluster st))) (cluster st)).
Proof.
  intros key. unfold scale.restore, bind, Get, request.
  destruct (faults kc (requests st)) as [e|]; [left; by exists e|].
  fold key. destruct (store r (cluster st) !! key) as [obj|] eqn:Hobj;
    [|left; by exists StatusNotFound].
  cbn [fst snd]. unfold lift.
  destruct (meta.GetIntValue _ _) as [replica|e]; [|left; by exists e].
  set (st1 := setCluster _ _).
  destruct (PatchObject_cases kc r (key, obj)
              (fun w => setAnnotations (delete apis.AnnotationOldReplica)
                          (setReplicas (int32 replica) w)) st1)
    as [Hsame | [(e & He & Hcl) | (obj' & Hok & Hlook & Hcl)]].
  - rewrite Hsame. right. exists obj.
    split; [done|]. split; [done|]. cbn.
    by rewrite insert_id, setStore_store.
  - left. exists e. by rewrite He, Hcl.
  - right. eexists. split; [done|]. split; [done|]. by rewrite Hcl.
Qed.

(** X5. [ScaleUpWorkload] is all or nothing: when it returns an error
    the cluster is as before. When it returns nil, at most the object it
    names, of the kind it names, has changed; every other deployment,
    replication controller and replica set, every pod and every role
    binding is as before. *)
Theorem ScaleUpWorkload_changes_one_object_or_nothing
    (kc : Client) (opt : backup.Options) (st : State) :
  let key := (backup.Namespace opt, api.Name (backup.Workload opt)) in
  let out := scale.ScaleUpWorkload kc opt st in
  (∀ e, out.2 = Err e → cluster out.1 = cluster st)
  ∧ (∀ r k, (kindOf r, k) ≠ (api.Kind (backup.Workload opt), key) →
       store r (cluster out.1) !! k = store r (cluster st) !! k)
  ∧ pods (cluster out.1) = pods (cluster st)
  ∧ roleBindings (cluster out.1) = roleBindings (cluster st).
Proof.
  intros key out.
  assert (Hrestore : ∀ r0,
    api.Kind (backup.Workload opt) = kindOf r0 →
    out = scale.restore kc r0 opt st →
    (∀ e, out.2 = Err e → cluster out.1 = cluster st)
    ∧ (∀ r k, (kindOf r, k) ≠ (api.Kind (backup.Workload opt), key) →
         store r (cluster out.1) !! k = store r (cluster st) !! k)
    ∧ pods (cluster out.1) = pods (cluster st)
    ∧ roleBindings (cluster out.1) = roleBindings (cluster st)).
  { intros r0 Hkind ->.
    destruct (restore_cases kc r0 opt st)
      as [(e & He & Hcl) | (obj' & Hok & _ & Hcl)]; fold key in Hcl.
    - rewrite Hcl. repeat split; done.
    - rewrite Hcl, Hok. split; [done|]. split; [|by destruct r0].
      intros r k Hne. destruct (decide (r = r0)) as [-> | Hr];
        [|by rewrite store_setStore_ne].
      rewrite store_setStore, lookup_insert_ne; [done|].
      intros <-. apply Hne. by rewrite Hkind. }
  subst out. unfold scale.ScaleUpWorkload in *.
  repeat case_decide;
    first [ by apply (Hrestore Deployments)
          | by apply (Hrestore ReplicationControllers)
          | by apply (Hrestore ReplicaSets)
          | by repeat split ].
Qed.

(** X6. The saved count is read as an [int] and written as an [int32]:
    when the annotation parses to [N], a served restore stores
    [int32(N)], which lies in the [int32] range and differs from [N]
    exactly when [N] lies outside of it. *)
Theorem ScaleUpWorkload_wraps_saved_count
    (kc : Client) (r : Resource) (opt : backup.Options) (st : State)
    (obj : Scalable) (v : string) (N : Z) :
  let key := (backup.Namespace opt, api.Name (backup.Workload opt)) in
  api.Kind (backup.Workload opt) = kindOf r →
  store r (cluster st) !! key = Some obj →
  Annotations obj !! apis.AnnotationOldReplica = Some v →
  strconv.Atoi v = Some N →
  faults kc (requests st) = None →
  faults kc (S (requests st)) = None →
  (Replicas <$> store r (cluster (scale.ScaleUpWorkload kc opt st).1) !! key)
  = Some (int32 N)
  ∧ - 2 ^ 31 ≤ int32 N < 2 ^ 31
  ∧ (int32 N = N ↔ - 2 ^ 31 ≤ N < 2 ^ 31).
Proof.
  intros key Hkind Hobj Hann Hatoi Hf0 Hf1.
  rewrite (ScaleUpWorkload_annotated kc r opt st obj v N) by done.
  cbn [fst cluster]. fold key. rewrite store_setStore, lookup_insert_eq.
  split; [done|].
  assert (Hrange : - 2 ^ 31 ≤ int32 N < 2 ^ 31).
  { unfold int32. pose proof (Z.mod_pos_bound (N + 2 ^ 31) (2 ^ 32) ltac:(lia)). lia. }
  split; [done|]. split; [intros <-; done | apply int32_id].
Qed.

Lemma ScaleUpWorkload_wraps_saved_count_witness :
  (Replicas <$> store Deployments
                  (cluster (scale.ScaleUpWorkload Demo.reliable
                              (Demo.restoreOf "Deployment" "huge") Demo2.state1).1)
                  !! ("ns", "huge")) = Some (int32 4294967299)
  ∧ - 2 ^ 31 ≤ int32 4294967299 < 2 ^ 31
  ∧ (int32 4294967299 = 4294967299 ↔ - 2 ^ 31 ≤ 4294967299 < 2 ^ 31).
Proof.
  apply (ScaleUpWorkload_wraps_saved_count Demo.reliable Deployments
           (Demo.restoreOf "Deployment" "huge") Demo2.state1 Demo2.overflowing
           "4294967299" 4294967299); vm_compute; reflexivity.
Defined.

Example int32_wraps : int32 4294967299 = 3.
Proof. reflexivity. Qed.

Lemma ScaleUpWorkload_changes_one_object_or_nothing_witness :
  cluster (scale.ScaleUpWorkload (Demo2.failingAt 1)
             (Demo.restoreOf "Deployment" "web") Demo.scaledDownState).1
  = cluster Demo.scaledDownState
  ∧ store ReplicaSets
      (cluster (scale.ScaleUpWorkload Demo.reliable
                  (Demo.restoreOf "Deployment" "web") Demo.scaledDownState).1)
      !! ("ns", "cache")
    = store ReplicaSets (cluster Demo.scaledDownState) !! ("ns", "cache").
Proof.
  split.
  - destruct (ScaleUpWorkload_changes_one_object_or_nothing (Demo2.failingAt 1)
                (Demo.restoreOf "Deployment" "web") Demo.scaledDownState)
      as (Herr & _).
    apply (Herr (StatusError "connection reset")). vm_compute. reflexivity.
  - destruct (ScaleUpWorkload_changes_one_object_or_nothing Demo.reliable
                (Demo.restoreOf "Deployment" "web") Demo.scaledDownState)
      as (_ & Hframe & _).
    apply (Hframe ReplicaSets). vm_compute. discriminate.
Defined.

(** ** A batch run against an API server that cannot be reached *)

Lemma PollImmediate_scaledDown_logs c ticks st :
  logs (wait.PollImmediate (scale.k8sClient c) ticks (scale.scaledDown c) st).1
  = logs st.
Proof.
  revert st. induction ticks as [|ticks IH]; intros st;
    cbn [wait.PollImmediate]; unfold bind; rewrite drainedAt_run;
    destruct (drainedAt c st); try done.
  change (sleep (scale.k8sClient c) ?s) with ((sleep (scale.k8sClient c) s).1, Ok tt).
  cbv beta iota. by rewrite IH.
Qed.

Section Unreachable.

Context (c : scale.Controller).
Hypothesis down : unreachable (scale.k8sClient c).

Abbreviation ticked st :=
  {| cluster := cluster st; requests := S (requests st); logs := logs st |}.

Lemma scaleDownKind_unreachable r st : scaleDownKind c r st = (ticked st, Ok tt).
Proof.
  unfold scaleDownKind, bind. rewrite try_run. unfold List.
  destruct (down (requests st)) as [e He]. by rewrite (request_faulted _ _ _ e).
Qed.

Lemma scaleUpKind_unreachable r st : scaleUpKind c r st = (ticked st, Ok tt).
Proof.
  unfold scaleUpKind, bind. rewrite try_run. unfold List.
  destruct (down (requests st)) as [e He]. by rewrite (request_faulted _ _ _ e).
Qed.

Lemma deletePods_unreachable st : deletePods c st = (ticked st, Ok tt).
Proof.
  unfold deletePods, bind. rewrite try_run. unfold ListPods.
  destruct (down (requests st)) as [e He]. by rewrite (request_faulted _ _ _ e).
Qed.

Lemma waitUntilScaledDown_unreachable st :
  (scale.waitUntilScaledDown c st).2 = Err ErrWaitTimeout.
Proof.
  apply PollImmediate_scaledDown. intros i _.
  destruct (drainedAt c (attemptState c i st)) eqn:Hd; [|done].
  apply drainedAt_true in Hd as [Hserved _].
  destruct (down (requests (attemptState c i st))) as [e He]. congruence.
Qed.

Lemma ScaleDownWorkload_unreachable st :
  (scale.ScaleDownWorkload c st).2 = Ok tt
  ∧ (∀ r, store r (cluster (scale.ScaleDownWorkload c st).1) = store r (cluster st))
  ∧ logs (scale.ScaleDownWorkload c st).1 = (logs st ++ [Error ErrWaitTimeout])%list.
Proof.
  rewrite ScaleDownWorkload_blocks.
  rewrite (bind_Ok _ _ _ _ _ (scaleDownKind_unreachable _ _)).
  rewrite (bind_Ok _ _ _ _ _ (scaleDownKind_unreachable _ _)).
  rewrite (bind_Ok _ _ _ _ _ (scaleDownKind_unreachable _ _)).
  set (st3 := ticked (ticked (ticked st))).
  assert (Hwait : scale.waitUntilScaledDown c st3
                  = ((scale.waitUntilScaledDown c st3).1, Err ErrWaitTimeout)).
  { rewrite <- (waitUntilScaledDown_unreachable st3).
    by destruct (scale.waitUntilScaledDown c st3). }
  pose proof (draining_timeout _ _ _ _ Hwait) as Hdrain.
  pose proof (draining_stores c st3) as Hstores. rewrite Hdrain in Hstores.
  rewrite (bind_Ok _ _ _ _ _ Hdrain).
  rewrite (bind_Ok _ _ _ _ _ (scaleUpKind_unreachable _ _)).
  rewrite (bind_Ok _ _ _ _ _ (scaleUpKind_unreachable _ _)).
  rewrite (bind_Ok _ _ _ _ _ (scaleUpKind_unreachable _ _)).
  rewrite (bind_Ok _ _ _ _ _ (deletePods_unreachable _)).
  cbn [ret fst snd cluster logs]. split; [done|]. split; [exact Hstores|].
  unfold logged. cbn [logs]. unfold scale.waitUntilScaledDown.
  by rewrite PollImmediate_scaledDown_logs.
Qed.

End Unreachable.

(** X4. List errors never fail a batch run: when every request fails,
    [ScaleDownWorkload] still returns nil. It has then changed no
    deployment, replication controller or replica set, and the one line
    it has logged is the timeout of the drain wait. *)
Theorem ScaleDownWorkload_succeeds_when_unreachable
    (c : scale.Controller) (st : State) :
  unreachable (scale.k8sClient c) →
  (scale.ScaleDownWorkload c st).2 = Ok tt
  ∧ (∀ r, store r (cluster (scale.ScaleDownWorkload c st).1) = store r (cluster st))
  ∧ logs (scale.ScaleDownWorkload c st).1 = (logs st ++ [Error ErrWaitTimeout])%list.
Proof. intros Hdown. by apply ScaleDownWorkload_unreachable. Qed.

Lemma ScaleDownWorkload_succeeds_when_unreachable_witness :
  (scale.ScaleDownWorkload (Demo.controllerOn Demo.broken) Demo.state0).2 = Ok tt
  ∧ (∀ r, store r (cluster (scale.ScaleDownWorkload (Demo.controllerOn Demo.broken)
                              Demo.state0).1) = store r (cluster Demo.state0))
  ∧ logs (scale.ScaleDownWorkload (Demo.controllerOn Demo.broken) Demo.state0).1
    = (logs Demo.state0 ++ [Error ErrWaitTimeout])%list.
Proof.
  apply ScaleDownWorkload_succeeds_when_unreachable.
  intros i. vm_compute. eauto.
Defined.

(** ** [HasOldReplicaAnnotation] and [WorkloadReplicas] *)

Lemma HasOldReplicaAnnotation_annotationOf kc r ns w st :
  api.Kind w = kindOf r →
  util.HasOldReplicaAnnotation kc ns w st = util.annotationOf kc r ns (api.Name w) st.
Proof. unfold util.HasOldReplicaAnnotation. intros ->. by destruct r. Qed.

Lemma WorkloadReplicas_replicasOf kc r ns kind name :
  kind = kindOf r →
  util_replicas.WorkloadReplicas kc ns kind name = util_replicas.replicasOf kc r ns name.
Proof. unfold util_replicas.WorkloadReplicas. intros ->. by destruct r. Qed.

(** X8. For a Deployment, ReplicationController or ReplicaSet,
    [HasOldReplicaAnnotation] sends one Get. When it is served and the
    object exists, the answer is whether the object carries the
    previous-replica-count annotation; when the object does not exist or
    the request fails, the process exits with that error rather than
    returning false. *)
Theorem HasOldReplicaAnnotation_reads_or_exits
    (kc : Client) (r : Resource) (ns : string) (w : api.LocalTypedReference)
    (st : State) :
  let asked := {| cluster := cluster st; requests := S (requests st);
                  logs := logs st |} in
  api.Kind w = kindOf r →
  (∀ obj, faults kc (requests st) = None →
     store r (cluster st) !! (ns, api.Name w) = Some obj →
     util.HasOldReplicaAnnotation kc ns w st
     = (asked,
        Returns (bool_decide (is_Some (Annotations obj !! apis.AnnotationOldReplica)))))
  ∧ (faults kc (requests st) = None →
     store r (cluster st) !! (ns, api.Name w) = None →
     util.HasOldReplicaAnnotation kc ns w st = (asked, Exits StatusNotFound))
  ∧ (∀ e, faults kc (requests st) = Some e →
       util.HasOldReplicaAnnotation kc ns w st = (asked, Exits e)).
Proof.
  intros asked Hkind. rewrite (HasOldReplicaAnnotation_annotationOf kc r) by done.
  unfold util.annotationOf, Get. repeat split.
  - intros obj Hf Hobj. rewrite request_served by done. by rewrite Hobj.
  - intros Hf Hobj. rewrite request_served by done. by rewrite Hobj.
  - intros e Hf. by rewrite (request_faulted _ _ _ e).
Qed.

Lemma HasOldReplicaAnnotation_reads_or_exits_witness :
  util.HasOldReplicaAnnotation Demo.reliable "ns"
    {| api.Kind := "Deployment"; api.Name := "web" |} Demo.scaledDownState
  = ({| cluster := cluster Demo.scaledDownState; requests := 1; logs := [] |},
     Returns true)
  ∧ util.HasOldReplicaAnnotation Demo.reliable "ns"
      {| api.Kind := "ReplicaSet"; api.Name := "gone" |} Demo.scaledDownState
    = ({| cluster := cluster Demo.scaledDownState; requests := 1; logs := [] |},
       Exits StatusNotFound)
  ∧ util.HasOldReplicaAnnotation Demo.broken "ns"
      {| api.Kind := "Deployment"; api.Name := "web" |} Demo.scaledDownState
    = ({| cluster := cluster Demo.scaledDownState; requests := 1; logs := [] |},
       Exits (StatusError "connection refused")).
Proof.
  split; [|split].
  - destruct (HasOldReplicaAnnotation_reads_or_exits Demo.reliable Deployments "ns"
                {| api.Kind := "Deployment"; api.Name := "web" |}
                Demo.scaledDownState eq_refl) as (Hread & _).
    rewrite (Hread (Demo.workload {[ apis.AnnotationOldReplica := "3" ]} [] 0))
      by (vm_compute; reflexivity).
    vm_compute. reflexivity.
  - destruct (HasOldReplicaAnnotation_reads_or_exits Demo.reliable ReplicaSets "ns"
                {| api.Kind := "ReplicaSet"; api.Name := "gone" |}
                Demo.scaledDownState eq_refl) as (_ & Hmiss & _).
    apply Hmiss; vm_compute; reflexivity.
  - destruct (HasOldReplicaAnnotation_reads_or_exits Demo.broken Deployments "ns"
                {| api.Kind := "Deployment"; api.Name := "web" |}
                Demo.scaledDownState eq_refl) as (_ & _ & Hfault).
    apply Hfault. reflexivity.
Defined.

(** X9. [WorkloadReplicas] returns the stored replica count of a
    Deployment, ReplicationController or ReplicaSet, and the error of the
    Get when the object is missing. For every other kind, the supported
    kinds StatefulSet and DaemonSet among them, it returns the error
    "unknown workload type" without a request. *)
Theorem WorkloadReplicas_three_kinds_only
    (kc : Client) (ns kind name : string) (st : State) :
  (∀ r obj, kind = kindOf r → faults kc (requests st) = None →
     store r (cluster st) !! (ns, name) = Some obj →
     (util_replicas.WorkloadReplicas kc ns kind name st).2 = Ok (Replicas obj))
  ∧ (∀ r, kind = kindOf r → faults kc (requests st) = None →
       store r (cluster st) !! (ns, name) = None →
       (util_replicas.WorkloadReplicas kc ns kind name st).2 = Err StatusNotFound)
  ∧ ((∀ r, kind ≠ kindOf r) →
     util_replicas.WorkloadReplicas kc ns kind name st
     = (st, Err (Errorf "unknown workload type"))).
Proof.
  repeat split.
  - intros r obj Hkind Hf Hobj. rewrite (WorkloadReplicas_replicasOf kc r) by done.
    unfold util_replicas.replicasOf, bind, Get. rewrite request_served by done.
    by rewrite Hobj.
  - intros r Hkind Hf Hobj. rewrite (WorkloadReplicas_replicasOf kc r) by done.
    unfold util_replicas.replicasOf, bind, Get. rewrite request_served by done.
    by rewrite Hobj.
  - intros Hother. unfold util_replicas.WorkloadReplicas.
    pose proof (Hother Deployments). pose proof (Hother ReplicationControllers).
    pose proof (Hother ReplicaSets). cbn in *. by repeat case_decide.
Qed.

Lemma WorkloadReplicas_three_kinds_only_witness :
  (util_replicas.WorkloadReplicas Demo.reliable "ns" "ReplicationController" "legacy"
     Demo.state0).2 = Ok 4
  ∧ (util_replicas.WorkloadReplicas Demo.reliable "ns" "Deployment" "gone"
       Demo.state0).2 = Err StatusNotFound
  ∧ util_replicas.WorkloadReplicas Demo.reliable "ns" "StatefulSet" "db" Demo.state0
    = (Demo.state0, Err (Errorf "unknown workload type")).
Proof.
  split; [|split].
  - destruct (WorkloadReplicas_three_kinds_only Demo.reliable "ns"
                "ReplicationController" "legacy" Demo.state0) as (Hread & _).
    rewrite (Hread ReplicationControllers (Demo.workload ∅ [] 4))
      by (vm_compute; reflexivity).
    reflexivity.
  - destruct (WorkloadReplicas_three_kinds_only Demo.reliable "ns"
                "Deployment" "gone" Demo.state0) as (_ & Hmiss & _).
    apply (Hmiss Deployments); vm_compute; reflexivity.
  - destruct (WorkloadReplicas_three_kinds_only Demo.reliable "ns"
                "StatefulSet" "db" Demo.state0) as (_ & _ & Hother).
    apply Hother. intros []; vm_compute; discriminate.
Defined.

Lemma batch_run_object c st r k w :
  faultless (scale.k8sClient c) →
  store r (cluster st) !! k = Some w →
  selected Labels (scale.Namespace (scale.opt c)) (scale.Selector (scale.opt c)) (k, w) →
  guardOf r (k, w) = true →
  store r (cluster (scale.ScaleDownWorkload c st).1) !! k
  = Some (setReplicas OneReplica (saveAndZero w w)).
Proof.
  intros Hfaults Hw Hsel Hguard.
  destruct (ScaleDownWorkload_effect c Hfaults st) as (st' & -> & Hstore).
  cbn [fst]. rewrite Hstore, Hw. cbn. f_equal.
  rewrite (scaledDownObject_selected c r k w) by done.
  apply scaledUpObject_selected.
  - by apply selected_saveAndZero.
  - by rewrite guardOf_saveAndZero.
Qed.

Lemma util_reads kc r ns (ref : api.LocalTypedReference) st obj :
  api.Kind ref = kindOf r →
  faults kc (requests st) = None →
  store r (cluster st) !! (ns, api.Name ref) = Some obj →
  (util.HasOldReplicaAnnotation kc ns ref st).2
  = Returns (bool_decide (is_Some (Annotations obj !! apis.AnnotationOldReplica)))
  ∧ (util_replicas.WorkloadReplicas kc ns (api.Kind ref) (api.Name ref) st).2
    = Ok (Replicas obj).
Proof.
  intros Hkind Hf Hobj. split.
  - rewrite (HasOldReplicaAnnotation_annotationOf kc r) by done.
    unfold util.annotationOf, Get. rewrite request_served by done. by rewrite Hobj.
  - rewrite (WorkloadReplicas_replicasOf kc r) by done.
    unfold util_replicas.replicasOf, bind, Get. rewrite request_served by done.
    by rewrite Hobj.
Qed.

(** X7. The cycle as the helpers of [pkg/util] see it, on a connection
    without faults: after the batch run a selected workload reports the
    annotation and 1 replica; after the restore that follows it reports
    no annotation and the replica count it had before the run. *)
Theorem cycle_seen_by_HasOldReplicaAnnotation_and_WorkloadReplicas
    (c : scale.Controller) (opt : backup.Options) (st : State) (r : Resource)
    (w : Scalable) :
  let kc := scale.k8sClient c in
  let ns := backup.Namespace opt in
  let ref := backup.Workload opt in
  let scaled := (scale.ScaleDownWorkload c st).1 in
  let restored := (scale.ScaleUpWorkload kc opt scaled).1 in
  faultless kc →
  api.Kind ref = kindOf r →
  store r (cluster st) !! (ns, api.Name ref) = Some w →
  selected Labels (scale.Namespace (scale.opt c)) (scale.Selector (scale.opt c))
    ((ns, api.Name ref), w) →
  guardOf r ((ns, api.Name ref), w) = true →
  - 2 ^ 31 ≤ Replicas w < 2 ^ 31 →
  (util.HasOldReplicaAnnotation kc ns ref scaled).2 = Returns true
  ∧ (util_replicas.WorkloadReplicas kc ns (api.Kind ref) (api.Name ref) scaled).2
    = Ok OneReplica
  ∧ (util.HasOldReplicaAnnotation kc ns ref restored).2 = Returns false
  ∧ (util_replicas.WorkloadReplicas kc ns (api.Kind ref) (api.Name ref) restored).2
    = Ok (Replicas w).
Proof.
  intros kc ns ref scaled restored Hfaults Hkind Hw Hsel Hguard Hrange.
  pose proof (batch_run_object c st r _ w Hfaults Hw Hsel Hguard) as Hscaled.
  destruct (restore_after_batch_run c opt st r w Hfaults Hkind Hw Hsel Hguard Hrange)
    as [_ Hrestored].
  fold scaled in Hscaled. fold kc scaled restored ns ref in Hrestored.
  destruct (util_reads kc r ns ref scaled _ Hkind (Hfaults _) Hscaled) as [-> ->].
  destruct (util_reads kc r ns ref restored _ Hkind (Hfaults _) Hrestored)
    as [-> ->].
  cbn. rewrite lookup_insert_eq, lookup_delete_eq.
  rewrite bool_decide_eq_true_2 by eauto.
  rewrite bool_decide_eq_false_2 by (intros [? ?]; done).
  done.
Qed.

Lemma cycle_seen_by_HasOldReplicaAnnotation_and_WorkloadReplicas_witness :
  (util.HasOldReplicaAnnotation Demo.reliable "ns"
     {| api.Kind := "Deployment"; api.Name := "web" |}
     (scale.ScaleDownWorkload (Demo.controllerOn Demo.reliable) Demo.state0).1).2
  = Returns true
  ∧ (util_replicas.WorkloadReplicas Demo.reliable "ns" "Deployment" "web"
       (scale.ScaleDownWorkload (Demo.controllerOn Demo.reliable) Demo.state0).1).2
    = Ok OneReplica
  ∧ (util.HasOldReplicaAnnotation Demo.reliable "ns"
       {| api.Kind := "Deployment"; api.Name := "web" |}
       (scale.ScaleUpWorkload Demo.reliable (Demo.restoreOf "Deployment" "web")
          (scale.ScaleDownWorkload (Demo.controllerOn Demo.reliable)
             Demo.state0).1).1).2 = Returns false
  ∧ (util_replicas.WorkloadReplicas Demo.reliable "ns" "Deployment" "web"
       (scale.ScaleUpWorkload Demo.reliable (Demo.restoreOf "Deployment" "web")
          (scale.ScaleDownWorkload (Demo.controllerOn Demo.reliable)
             Demo.state0).1).1).2 = Ok 3.
Proof.
  apply (cycle_seen_by_HasOldReplicaAnnotation_and_WorkloadReplicas
           (Demo.controllerOn Demo.reliable) (Demo.restoreOf "Deployment" "web")
           Demo.state0 Deployments (Demo.workload ∅ [] 3)).
  - intros i. reflexivity.
  - reflexivity.
  - vm_compute. reflexivity.
  - split; [right; reflexivity | vm_compute; reflexivity].
  - reflexivity.
  - cbn. lia.
Defined.

(** ** Granting and retracting the sidecar's role binding *)

Lemma EnsureOwnerReference_idempotent refs owner :
  core_util.EnsureOwnerReference (core_util.EnsureOwnerReference refs owner) owner
  = core_util.EnsureOwnerReference refs owner.
Proof.
  induction refs as [|ref refs IH]; cbn.
  - by rewrite decide_True.
  - case_decide as Huid; cbn.
    + by rewrite decide_True.
    + rewrite decide_False by done. by rewrite IH.
Qed.

Lemma EnsureOwnerReference_elem refs owner :
  owner ∈ core_util.EnsureOwnerReference refs owner.
Proof.
  induction refs as [|ref refs IH]; cbn; [apply list_elem_of_here|].
  case_decide; [apply list_elem_of_here | by apply list_elem_of_further].
Qed.

Lemma granted_idempotent owner ns sa b :
  granted owner ns sa (granted owner ns sa b) = granted owner ns sa b.
Proof. unfold granted. cbn. by rewrite EnsureOwnerReference_idempotent. Qed.

Lemma CreateOrPatchRoleBinding_effect kc ns name labels transform st :
  faults kc (requests st) = None →
  faults kc (S (requests st)) = None →
  ∃ b n,
    CreateOrPatchRoleBinding kc ns name labels transform st
    = ({| cluster := setRoleBindings
                       (<[(ns, name) := transform b]> (roleBindings (cluster st)))
                       (cluster st);
          requests := n; logs := logs st |}, Ok tt)
    ∧ (BindingLabels b
       = default labels (BindingLabels <$> roleBindings (cluster st) !! (ns, name))).
Proof.
  intros Hf0 Hf1. unfold CreateOrPatchRoleBinding, bind. rewrite try_run.
  unfold GetRoleBinding. rewrite request_served by done.
  destruct (roleBindings (cluster st) !! (ns, name)) as [b|] eqn:Hb; cbn [fst snd].
  - exists b. unfold PatchRoleBinding. case_decide as Hsame.
    + exists (S (requests st)). split; [|done]. cbn.
      rewrite Hsame, insert_id by done. by destruct (cluster st).
    + exists (S (S (requests st))). split; [|done].
      rewrite request_served by done. cbn. by rewrite Hb.
  - cbn [kerr.IsNotFound].
    exists {| BindingLabels := labels; BindingOwners := [];
              BindingRoleRef := {| RoleKind := ""; RoleName := "" |};
              Subjects := [] |}, (S (S (requests st))).
    split; [|done]. unfold CreateRoleBinding.
    rewrite request_served by done. cbn. by rewrite Hb.
Qed.

Lemma EnsureSidecarRoleBinding_granted kc owner ns sa labels :
  rbac.EnsureSidecarRoleBinding kc owner ns sa labels
  = CreateOrPatchRoleBinding kc ns
      (getSidecarRoleBindingName (metav1.Name owner) (metav1.Kind owner)) labels
      (granted owner ns sa).
Proof. reflexivity. Qed.

Lemma EnsureSidecarRoleBinding_effect kc owner ns sa labels st :
  let key := (ns, getSidecarRoleBindingName (metav1.Name owner) (metav1.Kind owner)) in
  faults kc (requests st) = None →
  faults kc (S (requests st)) = None →
  ∃ b n,
    rbac.EnsureSidecarRoleBinding kc owner ns sa labels st
    = ({| cluster := setRoleBindings
                       (<[key := granted owner ns sa b]> (roleBindings (cluster st)))
                       (cluster st);
          requests := n; logs := logs st |}, Ok tt)
    ∧ (BindingLabels b
       = default labels (BindingLabels <$> roleBindings (cluster st) !! key)).
Proof.
  intros key Hf0 Hf1. rewrite EnsureSidecarRoleBinding_granted.
  by apply CreateOrPatchRoleBinding_effect.
Qed.

(** X10. When its requests are served, [EnsureSidecarRoleBinding]
    returns nil and leaves, under the binding's name, a binding that
    refers to the cluster role [stash-sidecar], has the given service
    account of the namespace as its only subject, and has the owner
    among its owner references; an existing binding keeps its labels, a
    new one gets the given labels. *)
Theorem EnsureSidecarRoleBinding_grants
    (kc : Client) (owner : OwnerReference) (ns sa : string)
    (labels : gmap string string) (st : State) :
  let key := (ns, getSidecarRoleBindingName (metav1.Name owner) (metav1.Kind owner)) in
  let out := rbac.EnsureSidecarRoleBinding kc owner ns sa labels st in
  faults kc (requests st) = None →
  faults kc (S (requests st)) = None →
  out.2 = Ok tt
  ∧ ∃ b, roleBindings (cluster out.1) !! key = Some b
         ∧ BindingRoleRef b = {| RoleKind := "ClusterRole";
                                 RoleName := apis.StashSidecarClusterRole |}
         ∧ Subjects b = [ {| SubjectKind := "ServiceAccount"; SubjectName := sa;
                             SubjectNamespace := ns |} ]
         ∧ owner ∈ BindingOwners b
         ∧ BindingLabels b
           = default labels (BindingLabels <$> roleBindings (cluster st) !! key).
Proof.
  intros key out Hf0 Hf1. subst out.
  destruct (EnsureSidecarRoleBinding_effect kc owner ns sa labels st Hf0 Hf1)
    as (b & n & -> & Hlabels).
  split; [done|]. exists (granted owner ns sa b). cbn.
  rewrite lookup_insert_eq. repeat split; [apply EnsureOwnerReference_elem | done].
Qed.

(** X11. Ensure-calls are idempotent: right after a served
    [EnsureSidecarRoleBinding], the same call again returns nil, leaves
    the cluster as it is and sends nothing but its Get. *)
Theorem EnsureSidecarRoleBinding_idempotent
    (kc : Client) (owner : OwnerReference) (ns sa : string)
    (labels : gmap string string) (st : State) :
  let first := rbac.EnsureSidecarRoleBinding kc owner ns sa labels st in
  let second := rbac.EnsureSidecarRoleBinding kc owner ns sa labels first.1 in
  faults kc (requests st) = None →
  faults kc (S (requests st)) = None →
  faults kc (requests first.1) = None →
  second.2 = Ok tt
  ∧ cluster second.1 = cluster first.1
  ∧ requests second.1 = S (requests first.1).
Proof.
  intros first second Hf0 Hf1 Hf2. subst second.
  destruct (EnsureSidecarRoleBinding_effect kc owner ns sa labels st Hf0 Hf1)
    as (b & n & Hfirst & _).
  fold first in Hfirst. rewrite Hfirst in Hf2 |- *. cbn [fst requests] in *.
  rewrite EnsureSidecarRoleBinding_granted.
  unfold CreateOrPatchRoleBinding, bind.
  rewrite try_run. unfold GetRoleBinding. rewrite request_served by done.
  cbn [cluster requests logs roleBindings setRoleBindings fst snd].
  rewrite lookup_insert_eq. cbn [fst snd]. unfold PatchRoleBinding.
  rewrite granted_idempotent, decide_True by done. done.
Qed.

(** X12. Retracting undoes granting: when the three requests are
    served, [EnsureSidecarRoleBinding] followed by
    [ensureSidecarRoleBindingDeleted] for the same workload returns nil
    and leaves the role bindings as they were before, less the
    workload's own binding. *)
Theorem grant_then_retract
    (kc : Client) (owner : OwnerReference) (ns sa : string)
    (labels : gmap string string) (st : State) :
  let key := (ns, getSidecarRoleBindingName (metav1.Name owner) (metav1.Kind owner)) in
  let ensured := rbac.EnsureSidecarRoleBinding kc owner ns sa labels st in
  let retracted :=
    rbac.ensureSidecarRoleBindingDeleted kc (workloadOf owner ns) ensured.1 in
  faults kc (requests st) = None →
  faults kc (S (requests st)) = None →
  faults kc (requests ensured.1) = None →
  retracted.2 = Ok tt
  ∧ roleBindings (cluster retracted.1) = delete key (roleBindings (cluster st)).
Proof.
  intros key ensured retracted Hf0 Hf1 Hf2. subst retracted.
  destruct (EnsureSidecarRoleBinding_effect kc owner ns sa labels st Hf0 Hf1)
    as (b & n & Hensured & _).
  fold ensured key in Hensured. rewrite Hensured in Hf2 |- *.
  cbn [fst requests] in *.
  unfold rbac.ensureSidecarRoleBindingDeleted, bind. rewrite try_run.
  unfold DeleteRoleBinding. rewrite request_served by done.
  cbn [cluster requests logs roleBindings setRoleBindings fst snd workloadOf
       wapi.Namespace wapi.Name wapi.Kind].
  fold key. rewrite lookup_insert_eq. cbn. by rewrite delete_insert_eq.
Qed.

Lemma EnsureSidecarRoleBinding_grants_witness :
  (rbac.EnsureSidecarRoleBinding Demo.reliable Demo.byStatefulSet "ns" "stash" ∅
     Demo.state0).2 = Ok tt
  ∧ ∃ b,
      roleBindings
        (cluster (rbac.EnsureSidecarRoleBinding Demo.reliable Demo.byStatefulSet "ns"
                    "stash" ∅ Demo.state0).1)
        !! ("ns", getSidecarRoleBindingName "db" "StatefulSet") = Some b
      ∧ BindingRoleRef b = {| RoleKind := "ClusterRole";
                              RoleName := apis.StashSidecarClusterRole |}
      ∧ Subjects b = [ {| SubjectKind := "ServiceAccount"; SubjectName := "stash";
                          SubjectNamespace := "ns" |} ]
      ∧ Demo.byStatefulSet ∈ BindingOwners b
      ∧ BindingLabels b
        = default ∅ (BindingLabels
                       <$> roleBindings (cluster Demo.state0)
                             !! ("ns", getSidecarRoleBindingName "db" "StatefulSet")).
Proof.
  apply (EnsureSidecarRoleBinding_grants Demo.reliable Demo.byStatefulSet "ns"
           "stash" ∅ Demo.state0); reflexivity.
Defined.

Lemma EnsureSidecarRoleBinding_idempotent_witness :
  (rbac.EnsureSidecarRoleBinding Demo.reliable Demo.byDeployment "ns" "stash" ∅
     (rbac.EnsureSidecarRoleBinding Demo.reliable Demo.byDeployment "ns" "stash" ∅
        Demo.state0).1).2 = Ok tt
  ∧ cluster (rbac.EnsureSidecarRoleBinding Demo.reliable Demo.byDeployment "ns"
               "stash" ∅
               (rbac.EnsureSidecarRoleBinding Demo.reliable Demo.byDeployment "ns"
                  "stash" ∅ Demo.state0).1).1
    = cluster (rbac.EnsureSidecarRoleBinding Demo.reliable Demo.byDeployment "ns"
                 "stash" ∅ Demo.state0).1
  ∧ requests (rbac.EnsureSidecarRoleBinding Demo.reliable Demo.byDeployment "ns"
                "stash" ∅
                (rbac.EnsureSidecarRoleBinding Demo.reliable Demo.byDeployment "ns"
                   "stash" ∅ Demo.state0).1).1
    = S (requests (rbac.EnsureSidecarRoleBinding Demo.reliable Demo.byDeployment
                     "ns" "stash" ∅ Demo.state0).1).
Proof.
  apply (EnsureSidecarRoleBinding_idempotent Demo.reliable Demo.byDeployment "ns"
           "stash" ∅ Demo.state0); reflexivity.
Defined.

Lemma grant_then_retract_witness :
  (rbac.ensureSidecarRoleBindingDeleted Demo.reliable
     (workloadOf Demo.byStatefulSet "ns")
     (rbac.EnsureSidecarRoleBinding Demo.reliable Demo.byStatefulSet "ns" "stash" ∅
        Demo.state0).1).2 = Ok tt
  ∧ roleBindings
      (cluster
         (rbac.ensureSidecarRoleBindingDeleted Demo.reliable
            (workloadOf Demo.byStatefulSet "ns")
            (rbac.EnsureSidecarRoleBinding Demo.reliable Demo.byStatefulSet "ns"
               "stash" ∅ Demo.state0).1).1)
    = delete ("ns", getSidecarRoleBindingName "db" "StatefulSet")
        (roleBindings (cluster Demo.state0)).
Proof.
  apply (grant_then_retract Demo.reliable Demo.byStatefulSet "ns" "stash" ∅
           Demo.state0); reflexivity.
Defined.

(** ** What [EnsureSidecar] enqueues *)

Lemma GetQueue_Add q q' key c :
  controller.GetQueue q (controller.Add q' key c)
  = if decide (q' = q) then controller.push key (controller.GetQueue q c)
    else controller.GetQueue q c.
Proof. by destruct q, q'. Qed.

Lemma listerOf_Add q q' key c : listerOf q (controller.Add q' key c) = listerOf q c.
Proof. by destruct q. Qed.

Lemma elem_of_push_new key keys : key ∈ controller.push key keys.
Proof.
  unfold controller.push. case_decide; [done|].
  apply elem_of_app. right. apply list_elem_of_here.
Qed.

Lemma elem_of_push_old key' key keys : key' ∈ keys → key' ∈ controller.push key keys.
Proof.
  intros Hin. unfold controller.push. case_decide; [done|].
  apply elem_of_app. by left.
Qed.

Lemma GetQueue_Add_old q q' key' key c :
  key' ∈ controller.GetQueue q c → key' ∈ controller.GetQueue q (controller.Add q' key c).
Proof.
  intros Hin. rewrite GetQueue_Add. case_decide; [by apply elem_of_push_old | done].
Qed.

(** A loop that adds the keys of the resources [keep] lets through. *)
Lemma enqueue_loop q (keep : Item controller.Cached → bool)
    (resources : list (Item controller.Cached)) c :
  let c' := foldl (fun c resource =>
                     if keep resource
                     then controller.Add q (controller.MetaNamespaceKey resource.1) c
                     else c) c resources in
  (∀ q' key, key ∈ controller.GetQueue q' c → key ∈ controller.GetQueue q' c')
  ∧ (∀ it, it ∈ resources → keep it = true →
       controller.MetaNamespaceKey it.1 ∈ controller.GetQueue q c')
  ∧ (∀ q', listerOf q' c' = listerOf q' c)
  ∧ controller.recorder c' = controller.recorder c.
Proof.
  revert c. induction resources as [|x resources IH]; intros c; cbn zeta.
  - repeat split; try done. intros it Hit. by apply elem_of_nil in Hit.
  - cbn [foldl].
    set (c1 := if keep x
               then controller.Add q (controller.MetaNamespaceKey x.1) c else c).
    destruct (IH c1) as (Hold & Hnew & Hlist & Hrec).
    assert (Hold1 : ∀ q' key, key ∈ controller.GetQueue q' c →
                              key ∈ controller.GetQueue q' c1).
    { intros q' key Hin. subst c1. destruct (keep x); [|done].
      by apply GetQueue_Add_old. }
    repeat split.
    + intros q' key Hin. by apply Hold, Hold1.
    + intros it Hit Hkeep. apply elem_of_cons in Hit as [-> | Hit]; [|by apply Hnew].
      apply Hold. subst c1. rewrite Hkeep, GetQueue_Add, decide_True by done.
      apply elem_of_push_new.
    + intros q'. rewrite Hlist. subst c1. destruct (keep x); [|done].
      apply listerOf_Add.
    + rewrite Hrec. subst c1. by destruct (keep x).
Qed.

Lemma addAll_enqueue_loop q resources c :
  controller.addAll q resources c
  = foldl (fun c resource =>
             if (fun _ : Item controller.Cached => true) resource
             then controller.Add q (controller.MetaNamespaceKey resource.1) c
             else c) c resources.
Proof. reflexivity. Qed.

Lemma EnsureSidecar_skip_loop (resources : list (Item controller.Cached)) c :
  foldl (fun c resource =>
           if apps_util.IsOwnedByDeployment (controller.CachedOwners resource.2) then c
           else controller.Add controller.RsQueue
                  (controller.MetaNamespaceKey resource.1) c) c resources
  = foldl (fun c resource =>
             if (fun it : Item controller.Cached =>
                   negb (apps_util.IsOwnedByDeployment (controller.CachedOwners it.2)))
                  resource
             then controller.Add controller.RsQueue
                    (controller.MetaNamespaceKey resource.1) c
             else c) c resources.
Proof.
  revert c. induction resources as [|x resources IH]; intros c; [done|].
  cbn [foldl]. rewrite IH. by destruct (apps_util.IsOwnedByDeployment _).
Qed.

(** X13. With a selector that compiles, [EnsureSidecar] leaves in the
    queue of each kind the key of every cached workload of that kind
    that the Restic's namespace and selector select (of the replica
    sets: every one no deployment owns), keeps every key that was
    queued, and records no event. With a selector that does not compile
    no queue changes. *)
Theorem EnsureSidecar_enqueues_every_selected_workload
    (GetReference : controller.Restic → result controller.ObjectReference)
    (LabelSelectorAsSelector : string → result LabelSelector)
    (restic : controller.Restic) (c : controller.StashController) :
  let c' := controller.EnsureSidecar GetReference LabelSelectorAsSelector restic c in
  (∀ sel q k cached,
     LabelSelectorAsSelector (controller.Selector restic) = Ok sel →
     listerOf q c !! k = Some cached →
     selected controller.CachedLabels (controller.Namespace restic) sel (k, cached) →
     (q = controller.RsQueue →
      apps_util.IsOwnedByDeployment (controller.CachedOwners cached) = false) →
     controller.MetaNamespaceKey k ∈ controller.GetQueue q c')
  ∧ (∀ q key, key ∈ controller.GetQueue q c → key ∈ controller.GetQueue q c')
  ∧ (∀ sel, LabelSelectorAsSelector (controller.Selector restic) = Ok sel →
       controller.recorder c' = controller.recorder c)
  ∧ (∀ err q, LabelSelectorAsSelector (controller.Selector restic) = Err err →
       controller.GetQueue q c' = controller.GetQueue q c).
Proof.
  intros c'. subst c'. unfold controller.EnsureSidecar.
  destruct (LabelSelectorAsSelector (controller.Selector restic)) as [sel|err].
  - cbn zeta. rewrite EnsureSidecar_skip_loop, !addAll_enqueue_loop.
    set (ns := controller.Namespace restic).
    set (pass := fun _ : Item controller.Cached => true).
    destruct (enqueue_loop controller.DpQueue pass
                (controller.Lister (controller.dpLister c) ns sel) c)
      as (O1 & N1 & L1 & R1).
    set (c1 := foldl _ c _) in *.
    destruct (enqueue_loop controller.DsQueue pass
                (controller.Lister (controller.dsLister c1) ns sel) c1)
      as (O2 & N2 & L2 & R2).
    set (c2 := foldl _ c1 _) in *.
    destruct (enqueue_loop controller.SsQueue pass
                (controller.Lister (controller.ssLister c2) ns sel) c2)
      as (O3 & N3 & L3 & R3).
    set (c3 := foldl _ c2 _) in *.
    destruct (enqueue_loop controller.RcQueue pass
                (controller.Lister (controller.rcLister c3) ns sel) c3)
      as (O4 & N4 & L4 & R4).
    set (c4 := foldl _ c3 _) in *.
    destruct (enqueue_loop controller.RsQueue
                (fun it : Item controller.Cached =>
                   negb (apps_util.IsOwnedByDeployment (controller.CachedOwners it.2)))
                (controller.Lister (controller.rsLister c4) ns sel) c4)
      as (O5 & N5 & L5 & R5).
    set (c5 := foldl _ c4 _) in *.
    assert (Hlisted : ∀ (m : gmap ObjectKey controller.Cached) k cached,
              m !! k = Some cached →
              selected controller.CachedLabels ns sel (k, cached) →
              (k, cached) ∈ controller.Lister m ns sel).
    { intros m k cached Hk Hsel. unfold controller.Lister.
      apply list_elem_of_filter. split; [done|]. by apply elem_of_map_to_list. }
    repeat split.
    + intros sel' q k cached [= <-] Hk Hsel Hfree. destruct q.
      * cbn in Hk. by rewrite lookup_empty in Hk.
      * apply O5, O4, O3, O2. apply (N1 (k, cached)); [|done]. by apply Hlisted.
      * apply O5, O4, O3. apply (N2 (k, cached)); [|done]. apply Hlisted; [|done].
        by rewrite <- (L1 controller.DsQueue) in Hk.
      * apply O5, O4. apply (N3 (k, cached)); [|done]. apply Hlisted; [|done].
        by rewrite <- (L1 controller.SsQueue), <- (L2 controller.SsQueue) in Hk.
      * apply O5. apply (N4 (k, cached)); [|done]. apply Hlisted; [|done].
        by rewrite <- (L1 controller.RcQueue), <- (L2 controller.RcQueue),
                   <- (L3 controller.RcQueue) in Hk.
      * apply (N5 (k, cached)); [|cbn; by rewrite Hfree]. apply Hlisted; [|done].
        by rewrite <- (L1 controller.RsQueue), <- (L2 controller.RsQueue),
                   <- (L3 controller.RsQueue), <- (L4 controller.RsQueue) in Hk.
    + intros q key Hin. by apply O5, O4, O3, O2, O1.
    + intros _ _. by rewrite R5, R4, R3, R2, R1.
    + intros err q [=].
  - repeat split.
    + intros sel q k cached [=].
    + intros q key Hin. destruct (GetReference restic); [|done].
      by rewrite GetQueue_Eventf.
    + intros sel [=].
    + intros err' q _. destruct (GetReference restic); [|done].
      by rewrite GetQueue_Eventf.
Qed.

Lemma EnsureSidecar_enqueues_every_selected_workload_witness :
  "ns/web" ∈ controller.GetQueue controller.DpQueue
               (controller.EnsureSidecar Demo.resolved Demo.parseSelector
                  Demo.goodRestic Demo.controller0)
  ∧ "ns/cache" ∈ controller.GetQueue controller.RsQueue
                   (controller.EnsureSidecar Demo.resolved Demo.parseSelector
                      Demo.goodRestic Demo.controller0).
Proof.
  destruct (EnsureSidecar_enqueues_every_selected_workload Demo.resolved
              Demo.parseSelector Demo.goodRestic Demo.controller0)
    as (Hsel & _).
  split.
  - apply (Hsel Demo.appDemo controller.DpQueue ("ns", "web") (Demo.cached []));
      [reflexivity|reflexivity| |discriminate].
    split; [right; reflexivity|vm_compute; reflexivity].
  - apply (Hsel Demo.appDemo controller.RsQueue ("ns", "cache") (Demo.cached []));
      [reflexivity|vm_compute; reflexivity| |reflexivity].
    split; [right; reflexivity|vm_compute; reflexivity].
Defined.

(** ** Volumes of the pod template *)

Lemma firstNamed_lookup name volumes i :
  util_volumes.firstNamed name volumes = Some i →
  (∃ vol, volumes !! i = Some vol ∧ core.Name vol = name)
  ∧ (∀ j vol, (j < i)%nat → volumes !! j = Some vol → core.Name vol ≠ name).
Proof.
  revert i. induction volumes as [|v rest IH]; intros i; cbn; [done|].
  destruct (decide (core.Name v = name)) as [Hv|Hv].
  - intros [= <-]. split; [by exists v|]. intros j vol Hj. lia.
  - destruct (util_volumes.firstNamed name rest) as [i'|] eqn:Hrest; [|done].
    cbn. intros [= <-]. destruct (IH i' eq_refl) as [Hat Hbefore]. split; [done|].
    intros [|j] vol Hj; cbn.
    + by intros [= <-].
    + apply Hbefore. lia.
Qed.

Lemma firstNamed_None name volumes :
  util_volumes.firstNamed name volumes = None ↔
  ∀ vol, vol ∈ volumes → core.Name vol ≠ name.
Proof.
  induction volumes as [|v rest IH]; cbn.
  - split; [|done]. intros _ vol Hin. by apply elem_of_nil in Hin.
  - destruct (decide (core.Name v = name)) as [Hv|Hv].
    + split; [done|]. intros Hall. destruct (Hall v); [left|done].
    + destruct (util_volumes.firstNamed name rest) as [i'|]; cbn.
      * split; [done|]. intros Hall.
        assert (Some i' = None) as [=]. apply IH. intros vol Hin. apply Hall. by right.
      * split; [|done]. intros _ vol [->|Hin]%elem_of_cons; [done|].
        by apply IH.
Qed.

(** The slice [EnsureVolumeDeleted] returns, by recursion on the
    volumes. *)
Lemma EnsureVolumeDeleted_cons v rest name :
  util_volumes.EnsureVolumeDeleted (v :: rest) name
  = if decide (core.Name v = name) then rest
    else v :: util_volumes.EnsureVolumeDeleted rest name.
Proof.
  unfold util_volumes.EnsureVolumeDeleted. cbn.
  destruct (decide (core.Name v = name)); [done|].
  by destruct (util_volumes.firstNamed name rest).
Qed.



Lemma EnsureVolumeDeleted_absent name volumes :
  name ∉ volumeNames volumes →
  util_volumes.EnsureVolumeDeleted volumes name = volumes.
Proof.
  intros Hno. unfold util_volumes.EnsureVolumeDeleted.
  destruct (util_volumes.firstNamed name volumes) as [i|] eqn:Hi; [|done].
  destruct (firstNamed_lookup _ _ _ Hi) as [(vol & Hvol & Hname) _].
  destruct Hno. unfold volumeNames. apply list_elem_of_fmap. exists vol.
  split; [done|]. by eapply list_elem_of_lookup_2.
Qed.



Lemma MergeLocalVolume_nil backend l volName :
  backend ≫= store_api.Local = Some l →
  util_volumes.MergeLocalVolume [] backend volName = [store_api.ToVolume l volName].
Proof. intros Hb. unfold util_volumes.MergeLocalVolume. rewrite Hb. done. Qed.

Lemma MergeLocalVolume_cons backend l volName v rest :
  backend ≫= store_api.Local = Some l →
  util_volumes.MergeLocalVolume (v :: rest) backend volName
  = if decide (core.Name v = volName) then store_api.ToVolume l volName :: rest
    else v :: util_volumes.MergeLocalVolume rest backend volName.
Proof.
  intros Hb. unfold util_volumes.MergeLocalVolume. rewrite Hb. cbn.
  destruct (decide (core.Name v = volName)) as [Hv|Hv]; [done|].
  destruct (util_volumes.firstNamed volName rest) as [i|] eqn:Hi; cbn; [done|].
  unfold util_volumes.UpsertVolume. cbn.
  rewrite decide_False by done. by rewrite Hi.
Qed.

Lemma MergeLocalVolume_unset_cons backend volName v rest :
  backend ≫= store_api.Local = None →
  util_volumes.MergeLocalVolume (v :: rest) backend volName
  = if decide (core.Name v = volName) then rest
    else v :: util_volumes.MergeLocalVolume rest backend volName.
Proof.
  intros Hb. unfold util_volumes.MergeLocalVolume. rewrite Hb. cbn.
  destruct (decide (core.Name v = volName)) as [Hv|Hv]; [done|].
  by destruct (util_volumes.firstNamed volName rest).
Qed.

(** X15. With a local backend [MergeLocalVolume] returns a list whose
    first volume of the given name is the backend's volume. The volumes
    of other names stay, in their order; of the volumes of that name as
    many are left as before, and one when there was none. Merging the
    same backend again changes nothing. *)
Theorem MergeLocalVolume_sets_the_local_volume
    (volumes : list core.Volume) (backend : option store_api.Backend)
    (l : store_api.LocalSpec) (volName : string) :
  backend ≫= store_api.Local = Some l →
  let vol := store_api.ToVolume l volName in
  let volumes' := util_volumes.MergeLocalVolume volumes backend volName in
  (∃ i, util_volumes.firstNamed volName volumes' = Some i ∧ volumes' !! i = Some vol)
  ∧ filter (λ v, core.Name v ≠ volName) volumes'
    = filter (λ v, core.Name v ≠ volName) volumes
  ∧ length (filter (λ v, core.Name v = volName) volumes')
    = Nat.max 1 (length (filter (λ v, core.Name v = volName) volumes))
  ∧ util_volumes.MergeLocalVolume volumes' backend volName = volumes'.
Proof.
  intros Hb vol volumes'. subst volumes'.
  induction volumes as [|v rest (IH1 & IH2 & IH3 & IH4)].
  - rewrite (MergeLocalVolume_nil _ l) by done. fold vol. repeat split.
    + exists 0%nat. cbn. by rewrite decide_True.
    + by rewrite filter_cons_False by (by intros ?).
    + by rewrite filter_cons_True.
    + rewrite (MergeLocalVolume_cons _ l) by done. by rewrite decide_True.
  - rewrite (MergeLocalVolume_cons _ l) by done. fold vol.
    destruct (decide (core.Name v = volName)) as [Hv|Hv].
    + repeat split.
      * exists 0%nat. cbn. by rewrite decide_True.
      * by rewrite !filter_cons_False by (by intros ?).
      * rewrite !filter_cons_True by done. cbn. lia.
      * rewrite (MergeLocalVolume_cons _ l) by done. by rewrite decide_True.
    + repeat split.
      * destruct IH1 as (i & Hi & Hat). exists (S i). cbn.
        rewrite decide_False by done. by rewrite Hi.
      * by rewrite !filter_cons_True, IH2 by done.
      * by rewrite !filter_cons_False, IH3 by (by intros ?).
      * rewrite (MergeLocalVolume_cons _ l) by done.
        rewrite decide_False by done. by rewrite IH4.
Qed.

Lemma MergeLocalVolume_sets_the_local_volume_witness :
  util_volumes.MergeLocalVolume
    (util_volumes.MergeLocalVolume Demo3.volumes Demo3.localBackend "stash-local")
    Demo3.localBackend "stash-local"
  = [Demo3.scratch; store_api.ToVolume Demo3.localSpec "stash-local"; Demo3.podInfo].
Proof.
  destruct (MergeLocalVolume_sets_the_local_volume Demo3.volumes Demo3.localBackend
              Demo3.localSpec "stash-local") as (_ & _ & _ & Hagain);
    [reflexivity|].
  rewrite Hagain. vm_compute. reflexivity.
Defined.

(** X16. Without a local backend [MergeLocalVolume] returns what
    [EnsureVolumeDeleted] returns for that name. Merging a backend that
    is not local after a local one gives what [EnsureVolumeDeleted]
    gives on the original volumes: the original list itself when it had
    no volume of that name. *)
Theorem MergeLocalVolume_unset_after_set
    (volumes : list core.Volume) (local other : option store_api.Backend)
    (volName : string) :
  isLocal local → ¬ isLocal other →
  let mounted := util_volumes.MergeLocalVolume volumes local volName in
  util_volumes.MergeLocalVolume mounted other volName
    = util_volumes.EnsureVolumeDeleted volumes volName
  ∧ (volName ∉ volumeNames volumes →
     util_volumes.MergeLocalVolume mounted other volName = volumes)
  ∧ util_volumes.MergeLocalVolume volumes other volName
    = util_volumes.EnsureVolumeDeleted volumes volName.
Proof.
  intros [l Hl] Hother%eq_None_not_Some. cbn zeta.
  assert (Hround : util_volumes.MergeLocalVolume
                     (util_volumes.MergeLocalVolume volumes local volName)
                     other volName
                   = util_volumes.EnsureVolumeDeleted volumes volName).
  { induction volumes as [|v rest IH].
    - rewrite (MergeLocalVolume_nil _ l) by done.
      rewrite MergeLocalVolume_unset_cons by done. by rewrite decide_True.
    - rewrite (MergeLocalVolume_cons _ l), EnsureVolumeDeleted_cons by done.
      destruct (decide (core.Name v = volName)) as [Hv|Hv].
      + rewrite MergeLocalVolume_unset_cons by done. by rewrite decide_True.
      + rewrite MergeLocalVolume_unset_cons by done.
        rewrite decide_False by done. by rewrite IH. }
  split; [done|]. split.
  - intros Hno. rewrite Hround. by apply EnsureVolumeDeleted_absent.
  - unfold util_volumes.MergeLocalVolume, util_volumes.EnsureVolumeDeleted.
    by rewrite Hother.
Qed.

Lemma MergeLocalVolume_unset_after_set_witness :
  util_volumes.MergeLocalVolume
    (util_volumes.MergeLocalVolume [Demo3.scratch; Demo3.podInfo]
       Demo3.localBackend "stash-local")
    Demo3.cloudBackend "stash-local"
  = [Demo3.scratch; Demo3.podInfo].
Proof.
  destruct (MergeLocalVolume_unset_after_set [Demo3.scratch; Demo3.podInfo]
              Demo3.localBackend Demo3.cloudBackend "stash-local")
    as (_ & Hback & _).
  - eexists. reflexivity.
  - intros [l Hl]. discriminate Hl.
  - apply Hback. vm_compute. intros Hin.
    repeat (apply elem_of_cons in Hin as [Hin|Hin]; [discriminate Hin|]).
    by apply elem_of_nil in Hin.
Defined.

(** ** Security contexts *)

Lemma upsert_assoc {A} (a b c : option A) :
  util_security.upsert (util_security.upsert a b) c
  = util_security.upsert a (util_security.upsert b c).
Proof. by destruct c. Qed.

Lemma upsert_idemp {A} (a b : option A) :
  util_security.upsert (util_security.upsert a b) b = util_security.upsert a b.
Proof. by destruct b. Qed.

Lemma upsert_None_l {A} (b : option A) : util_security.upsert None b = b.
Proof. by destruct b. Qed.

(** X17. [UpsertSecurityContext] is a merge to the right: merging [b]
    and then [c] into [a] is merging into [a] the merge of [c] into [b];
    merging the same context a second time, or a context into itself,
    changes nothing. The members the function does not name
    ([WindowsOptions]) are never taken from the new context: the result
    has those of the current context, and none when the current context
    is nil. *)
Theorem UpsertSecurityContext_merges_to_the_right
    (a b c : option util_security.SecurityContext) :
  util_security.UpsertSecurityContext (util_security.UpsertSecurityContext a b) c
    = util_security.UpsertSecurityContext a (util_security.UpsertSecurityContext b c)
  ∧ util_security.UpsertSecurityContext (util_security.UpsertSecurityContext a b) b
    = util_security.UpsertSecurityContext a b
  ∧ util_security.UpsertSecurityContext a a = a
  ∧ (is_Some b →
     util_security.UpsertSecurityContext a b ≫= util_security.WindowsOptions
     = a ≫= util_security.WindowsOptions).
Proof.
  repeat split.
  - destruct c as [c|]; [|done]. destruct b as [b|]; [destruct a as [a|]|].
    + cbn. by rewrite !upsert_assoc.
    + cbn. by rewrite !upsert_assoc.
    + destruct a as [a|]; cbn; by rewrite ?upsert_None_l.
  - destruct b as [b|]; [|done]. destruct a as [a|]; cbn; by rewrite !upsert_idemp.
  - destruct a as [[]|]; [|done]. cbn. f_equal.
    repeat match goal with x : option _ |- _ => destruct x end; done.
  - intros [n ->]. by destruct a.
Qed.

Lemma UpsertSecurityContext_merges_to_the_right_witness :
  util_security.UpsertSecurityContext None (Some Demo3.windows)
    ≫= util_security.WindowsOptions = None
  ∧ util_security.UpsertSecurityContext (Some Demo3.windows) (Some Demo3.hardened)
      ≫= util_security.WindowsOptions = Some "ContainerUser".
Proof.
  split.
  - destruct (UpsertSecurityContext_merges_to_the_right None (Some Demo3.windows)
                None) as (_ & _ & _ & Hkeep).
    rewrite Hkeep; [reflexivity|]. eexists. reflexivity.
  - destruct (UpsertSecurityContext_merges_to_the_right (Some Demo3.windows)
                (Some Demo3.hardened) None) as (_ & _ & _ & Hkeep).
    rewrite Hkeep; [reflexivity|]. eexists. reflexivity.
Defined.

(** X18. [UpsertPodSecurityContext] is a merge to the right: merging [b]
    and then [c] into [a] is merging into [a] the merge of [c] into [b];
    merging the same context a second time, or a context into itself,
    changes nothing. The members the function does not name
    ([WindowsOptions]) are never taken from the new context. *)
Theorem UpsertPodSecurityContext_merges_to_the_right
    (a b c : option util_security.PodSecurityContext) :
  util_security.UpsertPodSecurityContext (util_security.UpsertPodSecurityContext a b) c
    = util_security.UpsertPodSecurityContext a
        (util_security.UpsertPodSecurityContext b c)
  ∧ util_security.UpsertPodSecurityContext
      (util_security.UpsertPodSecurityContext a b) b
    = util_security.UpsertPodSecurityContext a b
  ∧ util_security.UpsertPodSecurityContext a a = a
  ∧ (is_Some b →
     util_security.UpsertPodSecurityContext a b ≫= util_security.PodWindowsOptions
     = a ≫= util_security.PodWindowsOptions).
Proof.
  repeat split.
  - destruct c as [c|]; [|done]. destruct b as [b|]; [destruct a as [a|]|].
    + cbn. by rewrite !upsert_assoc.
    + cbn. by rewrite !upsert_assoc.
    + destruct a as [a|]; cbn; by rewrite ?upsert_None_l.
  - destruct b as [b|]; [|done]. destruct a as [a|]; cbn; by rewrite !upsert_idemp.
  - destruct a as [[]|]; [|done]. cbn. f_equal.
    repeat match goal with x : option _ |- _ => destruct x end; done.
  - intros [n ->]. by destruct a.
Qed.

Lemma UpsertPodSecurityContext_merges_to_the_right_witness :
  util_security.UpsertPodSecurityContext None (Some Demo3.podWindows)
    ≫= util_security.PodWindowsOptions = None
  ∧ util_security.UpsertPodSecurityContext (Some Demo3.podWindows)
      (Some Demo3.podHardened) ≫= util_security.PodWindowsOptions
    = Some "ContainerUser".
Proof.
  split.
  - destruct (UpsertPodSecurityContext_merges_to_the_right None
                (Some Demo3.podWindows) None) as (_ & _ & _ & Hkeep).
    rewrite Hkeep; [reflexivity|]. eexists. reflexivity.
  - destruct (UpsertPodSecurityContext_merges_to_the_right (Some Demo3.podWindows)
                (Some Demo3.podHardened) None) as (_ & _ & _ & Hkeep).
    rewrite Hkeep; [reflexivity|]. eexists. reflexivity.
Defined.

(** ** Lock names *)

Lemma string_app_cons (x : ascii) (a b : string) :
  String x a +:+ b = String x (a +:+ b).
Proof. reflexivity. Qed.

Lemma string_app_assoc (a b c : string) : (a +:+ b) +:+ c = a +:+ (b +:+ c).
Proof. induction a as [|x a IH]; [done|]. by rewrite !string_app_cons, IH. Qed.

Lemma ToLower_app (a b : string) :
  GoString.ToLower (a +:+ b) = GoString.ToLower a +:+ GoString.ToLower b.
Proof.
  induction a as [|x a IH]; [done|]. rewrite !string_app_cons. cbn [GoString.ToLower].
  by rewrite string_app_cons, IH.
Qed.

Lemma lower_byte_idemp (a : ascii) :
  GoString.lower_byte (GoString.lower_byte a) = GoString.lower_byte a.
Proof.
  destruct a as [[] [] [] [] [] [] [] []]; vm_compute; reflexivity.
Qed.

Lemma ToLower_idemp (s : string) :
  GoString.ToLower (GoString.ToLower s) = GoString.ToLower s.
Proof.
  induction s as [|x s IH]; cbn; [done|]. rewrite lower_byte_idemp. f_equal. exact IH.
Qed.

Lemma app_last_inj (x y : string) (a b : ascii) :
  x +:+ String a "" = y +:+ String b "" → a = b.
Proof.
  revert y. induction x as [|c x IH]; intros [|d y]; rewrite ?string_app_cons.
  - by intros [=].
  - intros [= _ H]. by destruct y.
  - intros [= _ H]. by destruct x.
  - intros [= _ H]. by apply (IH y).
Qed.

Lemma backup_restore_names_differ r1 r2 :
  util_locks.GetBackupConfigmapLockName r1 ≠ util_locks.GetRestoreConfigmapLockName r2.
Proof.
  unfold util_locks.GetBackupConfigmapLockName, util_locks.GetRestoreConfigmapLockName.
  intros Heq.
  change "-backup" with ("-backu" +:+ "p") in Heq.
  change "-restore" with ("-restor" +:+ "e") in Heq.
  rewrite <- !string_app_assoc, !ToLower_app in Heq.
  apply app_last_inj in Heq. discriminate.
Qed.

Lemma legacy_name_of_suffixed kind name :
  util_locks.GetConfigmapLockName (legacyRef kind (name +:+ "-backup"))
  = util_locks.GetBackupConfigmapLockName (lockRef kind name).
Proof.
  reflexivity.
Qed.

(** X19. No backup lock name is a restore lock name. The backup and
    restore lock names of a workload are its legacy lock name followed
    by -backup and -restore, so the legacy lock name of a workload whose
    name ends in -backup is the backup lock name of the workload without
    that ending. Lock names do not depend on the case of kind and
    name. *)
Theorem lock_names_by_kind_and_name (kind name : string) :
  (∀ r1 r2, util_locks.GetBackupConfigmapLockName r1
            ≠ util_locks.GetRestoreConfigmapLockName r2)
  ∧ util_locks.GetBackupConfigmapLockName (lockRef kind name)
    = util_locks.GetConfigmapLockName (legacyRef kind name) +:+ "-backup"
  ∧ util_locks.GetRestoreConfigmapLockName (lockRef kind name)
    = util_locks.GetConfigmapLockName (legacyRef kind name) +:+ "-restore"
  ∧ util_locks.GetConfigmapLockName (legacyRef kind (name +:+ "-backup"))
    = util_locks.GetBackupConfigmapLockName (lockRef kind name)
  ∧ util_locks.GetConfigmapLockName
      (legacyRef (GoString.ToLower kind) (GoString.ToLower name))
    = util_locks.GetConfigmapLockName (legacyRef kind name).
Proof.
  split; [apply backup_restore_names_differ|].
  unfold util_locks.GetConfigmapLockName, util_locks.GetBackupConfigmapLockName,
    util_locks.GetRestoreConfigmapLockName. cbn.
  repeat split.
  - rewrite <- !string_app_assoc. by rewrite (ToLower_app _ "-backup").
  - rewrite <- !string_app_assoc. by rewrite (ToLower_app _ "-restore").
  - change (String "l" (String "o" (String "c" (String "k" (String "-" ?x)))))
      with ("lock-" +:+ x).
    rewrite !ToLower_app, !ToLower_idemp. done.
Qed.

Lemma lock_names_by_kind_and_name_witness :
  util_locks.GetBackupConfigmapLockName (lockRef "Deployment" "web")
  ≠ util_locks.GetRestoreConfigmapLockName (lockRef "Deployment" "web")
  ∧ util_locks.GetConfigmapLockName (legacyRef "Deployment" "web-backup")
    = "lock-deployment-web-backup".
Proof.
  destruct (lock_names_by_kind_and_name "Deployment" "web")
    as (Hdiffer & _ & _ & Hlegacy & _).
  split; [apply Hdiffer|].
  etransitivity; [exact Hlegacy|vm_compute; reflexivity].
Defined.

(** ** Deleting the locks *)

Lemma DeleteConfigMap_faultless kc ns name s :
  faults kc (util_locks.sent s) = None →
  ∃ err, util_locks.DeleteConfigMap kc ns name s
         = ({| util_locks.configMaps := util_locks.configMaps s ∖ {[ (ns, name) ]};
               util_locks.sent := S (util_locks.sent s) |}, err)
         ∧ util_locks.fatal err = false.
Proof.
  intros Hf. unfold util_locks.DeleteConfigMap. rewrite Hf.
  destruct (decide ((ns, name) ∈ util_locks.configMaps s)) as [Hin|Hout].
  - by exists None.
  - exists (Some StatusNotFound). split; [|done]. do 2 f_equal.
    apply set_eq. intros k. rewrite elem_of_difference, elem_of_singleton.
    split; [|tauto]. intros Hk. split; [done|]. by intros ->.
Qed.

Lemma DeleteConfigMap_fatal kc ns name s e :
  faults kc (util_locks.sent s) = Some e →
  util_locks.DeleteConfigMap kc ns name s
  = ({| util_locks.configMaps := util_locks.configMaps s;
        util_locks.sent := S (util_locks.sent s) |}, Some e).
Proof. intros Hf. unfold util_locks.DeleteConfigMap. by rewrite Hf. Qed.

Lemma DeleteConfigMap_frame kc ns name s :
  let s' := (util_locks.DeleteConfigMap kc ns name s).1 in
  util_locks.configMaps s' ⊆ util_locks.configMaps s
  ∧ util_locks.configMaps s ∖ {[ (ns, name) ]} ⊆ util_locks.configMaps s'
  ∧ util_locks.sent s' = S (util_locks.sent s).
Proof.
  unfold util_locks.DeleteConfigMap.
  destruct (faults kc (util_locks.sent s)); cbn; [set_solver|].
  destruct (decide ((ns, name) ∈ util_locks.configMaps s)); cbn; set_solver.
Qed.

(** X20. On a connection without faults [DeleteAllConfigMapLocks]
    returns nil after three requests and leaves the config maps without
    the backup, restore and legacy lock of the workload: every other
    config map stays, a missing lock is no error, and a second call
    changes nothing. *)
Theorem DeleteAllConfigMapLocks_removes_the_three_locks
    (kc : Client) (namespace name kind : string) (s : util_locks.ConfigMaps) :
  faultless kc →
  let run := util_locks.DeleteAllConfigMapLocks kc namespace name kind in
  (run s).2 = None
  ∧ util_locks.configMaps (run s).1
    = util_locks.configMaps s ∖ lockKeys namespace name kind
  ∧ util_locks.sent (run s).1 = (util_locks.sent s + 3)%nat
  ∧ util_locks.configMaps (run (run s).1).1 = util_locks.configMaps (run s).1.
Proof.
  intros Hkc.
  assert (Hrun : ∀ s, (util_locks.DeleteAllConfigMapLocks kc namespace name kind s).2
                      = None
            ∧ util_locks.configMaps
                (util_locks.DeleteAllConfigMapLocks kc namespace name kind s).1
              = util_locks.configMaps s ∖ lockKeys namespace name kind
            ∧ util_locks.sent
                (util_locks.DeleteAllConfigMapLocks kc namespace name kind s).1
              = (util_locks.sent s + 3)%nat).
  { clear s. intros s. unfold util_locks.DeleteAllConfigMapLocks,
      util_locks.DeleteBackupConfigMapLock, util_locks.DeleteRestoreConfigMapLock,
      util_locks.DeleteConfigmapLock.
    destruct (DeleteConfigMap_faultless kc namespace
                (util_locks.GetBackupConfigmapLockName
                   {| util_locks.Kind := kind; util_locks.Name := name |}) s)
      as (e1 & -> & ->); [apply Hkc|].
    match goal with |- context [util_locks.DeleteConfigMap kc namespace ?n ?t] =>
      destruct (DeleteConfigMap_faultless kc namespace n t) as (e2 & -> & ->);
        [apply Hkc|] end.
    match goal with |- context [util_locks.DeleteConfigMap kc namespace ?n ?t] =>
      destruct (DeleteConfigMap_faultless kc namespace n t) as (e3 & -> & ->);
        [apply Hkc|] end.
    cbn. split; [done|]. split; [|lia].
    unfold lockKeys, lockRef, legacyRef. set_solver. }
  cbn zeta. destruct (Hrun s) as (H1 & H2 & H3).
  destruct (Hrun (util_locks.DeleteAllConfigMapLocks kc namespace name kind s).1)
    as (_ & H5 & _).
  repeat split; [done..|]. rewrite H5, H2. set_solver.
Qed.

Lemma DeleteAllConfigMapLocks_removes_the_three_locks_witness :
  (util_locks.DeleteAllConfigMapLocks Demo.reliable "ns" "web" "Deployment"
     Demo3.locks).2 = None
  ∧ util_locks.configMaps
      (util_locks.DeleteAllConfigMapLocks Demo.reliable "ns" "web" "Deployment"
         Demo3.locks).1
    = util_locks.configMaps Demo3.locks ∖ lockKeys "ns" "web" "Deployment".
Proof.
  destruct (DeleteAllConfigMapLocks_removes_the_three_locks Demo.reliable "ns" "web"
              "Deployment" Demo3.locks) as (Hnil & Hleft & _).
  - intros i. reflexivity.
  - split; [exact Hnil|exact Hleft].
Defined.

(** X21. Whatever the connection does, [DeleteAllConfigMapLocks] deletes
    no config map other than the three locks of the workload and creates
    none, and the error it returns is never a NotFound. When the first
    request fails with another error, that error is returned after this
    one request and no config map has changed: the restore and legacy
    locks are not tried. *)
Theorem DeleteAllConfigMapLocks_stops_at_the_first_failure
    (kc : Client) (namespace name kind : string) (s : util_locks.ConfigMaps) :
  let out := util_locks.DeleteAllConfigMapLocks kc namespace name kind s in
  util_locks.configMaps out.1 ⊆ util_locks.configMaps s
  ∧ util_locks.configMaps s ∖ lockKeys namespace name kind
    ⊆ util_locks.configMaps out.1
  ∧ (∀ e, out.2 = Some e → kerr.IsNotFound e = false)
  ∧ (∀ e, faults kc (util_locks.sent s) = Some e → kerr.IsNotFound e = false →
       out.2 = Some e ∧ util_locks.configMaps out.1 = util_locks.configMaps s
       ∧ util_locks.sent out.1 = S (util_locks.sent s)).
Proof.
  cbn zeta. unfold util_locks.DeleteAllConfigMapLocks,
    util_locks.DeleteBackupConfigMapLock, util_locks.DeleteRestoreConfigMapLock,
    util_locks.DeleteConfigmapLock.
  fold (lockRef kind name). fold (legacyRef kind name).
  pose proof (DeleteConfigMap_frame kc namespace
                (util_locks.GetBackupConfigmapLockName (lockRef kind name)) s) as F1.
  cbn zeta in F1.
  destruct (util_locks.DeleteConfigMap kc namespace
              (util_locks.GetBackupConfigmapLockName (lockRef kind name)) s)
    as [s1 e1] eqn:D1.
  cbn [fst] in F1. destruct F1 as (F1a & F1b & F1c).
  assert (Hlast : ∀ e, faults kc (util_locks.sent s) = Some e →
            kerr.IsNotFound e = false →
            e1 = Some e ∧ util_locks.configMaps s1 = util_locks.configMaps s).
  { intros e He Hnf. rewrite (DeleteConfigMap_fatal _ _ _ _ e He) in D1.
    by injection D1 as <- <-. }
  destruct (util_locks.fatal e1) eqn:Hfat1.
  { cbn. split; [done|]. split; [unfold lockKeys; set_solver|]. split.
    - intros e ->. cbn in Hfat1. by destruct (kerr.IsNotFound e).
    - intros e He Hnf. destruct (Hlast e He Hnf) as [-> ->]. done. }
  pose proof (DeleteConfigMap_frame kc namespace
                (util_locks.GetRestoreConfigmapLockName (lockRef kind name)) s1) as F2.
  cbn zeta in F2.
  destruct (util_locks.DeleteConfigMap kc namespace
              (util_locks.GetRestoreConfigmapLockName (lockRef kind name)) s1)
    as [s2 e2] eqn:D2.
  cbn [fst] in F2. destruct F2 as (F2a & F2b & F2c).
  assert (Hnot : ∀ e, faults kc (util_locks.sent s) = Some e →
            kerr.IsNotFound e = false → False).
  { intros e He Hnf. destruct (Hlast e He Hnf) as [-> _]. cbn in Hfat1.
    by rewrite Hnf in Hfat1. }
  destruct (util_locks.fatal e2) eqn:Hfat2.
  { cbn. split; [set_solver|]. split; [unfold lockKeys; set_solver|]. split.
    - intros e ->. cbn in Hfat2. by destruct (kerr.IsNotFound e).
    - intros e He Hnf. by destruct (Hnot e). }
  pose proof (DeleteConfigMap_frame kc namespace
                (util_locks.GetConfigmapLockName (legacyRef kind name)) s2) as F3.
  cbn zeta in F3.
  destruct (util_locks.DeleteConfigMap kc namespace
              (util_locks.GetConfigmapLockName (legacyRef kind name)) s2)
    as [s3 e3] eqn:D3.
  cbn [fst] in F3. destruct F3 as (F3a & F3b & F3c).
  destruct (util_locks.fatal e3) eqn:Hfat3.
  { cbn. split; [set_solver|]. split; [unfold lockKeys; set_solver|]. split.
    - intros e ->. cbn in Hfat3. by destruct (kerr.IsNotFound e).
    - intros e He Hnf. by destruct (Hnot e). }
  cbn. split; [set_solver|]. split; [unfold lockKeys; set_solver|]. split; [done|].
  intros e He Hnf. by destruct (Hnot e).
Qed.

Lemma DeleteAllConfigMapLocks_stops_at_the_first_failure_witness :
  (util_locks.DeleteAllConfigMapLocks Demo.broken "ns" "web" "Deployment"
     Demo3.locks).2 = Some (StatusError "connection refused")
  ∧ util_locks.configMaps
      (util_locks.DeleteAllConfigMapLocks Demo.broken "ns" "web" "Deployment"
         Demo3.locks).1 = util_locks.configMaps Demo3.locks
  ∧ util_locks.sent
      (util_locks.DeleteAllConfigMapLocks Demo.broken "ns" "web" "Deployment"
         Demo3.locks).1 = 1%nat.
Proof.
  destruct (DeleteAllConfigMapLocks_stops_at_the_first_failure Demo.broken "ns" "web"
              "Deployment" Demo3.locks) as (_ & _ & _ & Hfirst).
  apply (Hfirst (StatusError "connection refused")); reflexivity.
Defined.

(** ** The Restic watcher of the backup sidecar *)




